(** * DogeNet: the SQLite store and the net service, verified against their specification

    A shallow embedding of [internal/store/sqlite.go] and
    [internal/netsvc/service.go].

    - A database is a record of tables.  A table with a primary key is a
      finite map from the key to the rest of the row ([gmap]), the [chan]
      table (primary key on both columns) is a finite set of pairs, and the
      two tables without a key ([config], [announce]) are lists of rows.
    - The body of a transaction is a state-and-error computation [Tx] on the
      database; [doTxn] commits its result or rolls the database back.
    - The net service is a record of its fields; every method is a function
      on that record, and the goroutines are sequences of such steps.

    The SQL engine is taken to be healthy: the only statement errors are the
    ones the arguments and the database contents decide (an argument that
    [database/sql] cannot convert, [sql.ErrNoRows] from a [Scan], a violated
    [NOT NULL] or [PRIMARY KEY] constraint).  SQLite does not wrap integer
    arithmetic: the sums of a small constant and the day counter are
    computed on [Z], and the sum with the number of days that a caller
    gives is [sql_add], which leaves the integers when the sum leaves those
    of 64 bits.  Go's [int64] arithmetic wraps and is written with
    [int64_wrap]. *)

From Stdlib Require Import ZArith List Strings.String Strings.Byte Lia.
From stdpp Require Import base numbers option list strings countable gmap fin_maps fin_sets.

Local Open Scope Z_scope.

(** ** Bytes *)

Abbreviation bytes := (list byte).

#[global] Instance byte_eq_dec : EqDecision byte.
Proof.
  intros a b. destruct (N.eq_dec (Byte.to_N a) (Byte.to_N b)) as [E|E].
  - left. apply (f_equal Byte.of_N) in E. rewrite !Byte.of_to_N in E. congruence.
  - right. congruence.
Defined.

#[global] Instance byte_countable : Countable byte :=
  inj_countable Byte.to_N Byte.of_N Byte.of_to_N.

(** [bytes.Equal]: nil and empty slices are equal, as are equal lists. *)
Definition bytes_Equal (a b : bytes) : bool := bool_decide (a = b).

(** A [[]byte] that a caller of the store passes: [nil], or an array of
    bytes, which may be empty.  The driver binds a nil slice as NULL and
    any other as a blob.  A list of bytes is read as the slice that is not
    nil. *)
Inductive slice : Type :=
| nil_slice
| slice_of (b : bytes).

#[warning="-uniform-inheritance"]
Coercion slice_of : bytes >-> slice.

(** [s == nil]. *)
Definition is_nil (s : slice) : bool :=
  match s with nil_slice => true | slice_of _ => false end.

(** The bytes of a slice, for [len] and [bytes.Equal]. *)
Definition slice_bytes (s : slice) : bytes :=
  match s with
  | nil_slice => []
  | slice_of b => b
  end.

(** ** Go integers *)

Definition int64_min : Z := - 2 ^ 63.
Definition int64_max : Z := 2 ^ 63 - 1.

(** Two's-complement wrap-around of an [int64] result. *)
Definition int64_wrap (z : Z) : Z := (z + 2 ^ 63) mod 2 ^ 64 - 2 ^ 63.

Definition int64_add (a b : Z) : Z := int64_wrap (a + b).
Definition int64_mul (a b : Z) : Z := int64_wrap (a * b).

Definition in_int64 (z : Z) : Prop := int64_min <= z <= int64_max.

(** ** Errors *)

(** The errors of the store.  [fmt.Errorf] with the verb [%v] prints its
    cause into the text of a new error: the result wraps nothing, and
    [errors.Is] no longer finds the cause in it. *)
Inductive error : Type :=
| NotFoundError                              (* spec.NotFoundError *)
| ErrNoRows                                  (* sql.ErrNoRows *)
| ErrConstraint                              (* sqlite3.ErrConstraint *)
| ErrClosed                                  (* net.ErrClosed *)
| ErrText (text : string)                    (* an error made of a text alone *)
| Errorf (format : string) (cause : error).  (* fmt.Errorf(format, cause) *)

#[global] Instance error_eq_dec : EqDecision error.
Proof. solve_decision. Defined.

(** [errors.Is err target] for a sentinel [target]: no error of the model
    wraps another one, so only the sentinel itself matches. *)
Definition errors_Is (err target : error) : bool := bool_decide (err = target).

(** ** The database *)

(** [dnet.Tag4CC] is a [uint32]. *)
Abbreviation Tag4CC := N.

(** What a column holds: an integer of 64 bits, a floating-point number
    (its 64 bits), or a text. *)
Inductive sql_value : Type :=
| SqlInteger (z : Z)
| SqlReal (bits : Z)
| SqlText (s : string).

#[global] Instance sql_value_eq_dec : EqDecision sql_value.
Proof. solve_decision. Defined.

#[global] Instance sql_value_countable : Countable sql_value :=
  inj_countable'
    (λ v, match v with
          | SqlInteger z => inl (inl z)
          | SqlReal b => inl (inr b)
          | SqlText s => inr s
          end)
    (λ x, match x with
          | inl (inl z) => SqlInteger z
          | inl (inr b) => SqlReal b
          | inr s => SqlText s
          end)
    (λ v, match v with SqlInteger _ | SqlReal _ | SqlText _ => eq_refl end).

Record ConfigRow := { cfg_dayc : Z; cfg_last : Z }.

Record AnnounceRow := { ann_payload : bytes; ann_sig : bytes; ann_time : Z }.

Record CoreRow := {
  core_time : Z;
  core_services : Z;
  core_isnew : bool;
  core_dayc : Z
}.

(** [core_dayc] is the number that the column holds.  It is an integer
    also when the engine computed it in floating point, as it then is one
    of the floating-point numbers around [2 ^ 63], which are integers; the
    comparisons of the engine are those of the numbers.

    [node] is a rowid table: [node_oid] is the rowid of the row. *)
Record NodeRow := {
  node_oid : Z;
  node_address : bytes;
  node_time : Z;
  node_owner : bytes;
  node_payload : bytes;
  node_sig : bytes;
  node_dayc : Z
}.

Record DB := {
  config : list ConfigRow;          (* config(dayc, last) *)
  announce : list AnnounceRow;      (* announce(payload, sig, time) *)
  channels : gmap N Z;              (* channels(chan primary key, dayc) *)
  core : gmap bytes CoreRow;        (* core(address primary key, ...) *)
  node : gmap bytes NodeRow;        (* node(key primary key, ...) *)
  chan : gset (Z * sql_value)       (* chan(node, chan), primary key (node, chan) *)
}.

Definition set_config (c : list ConfigRow) (db : DB) : DB :=
  {| config := c; announce := announce db; channels := channels db;
     core := core db; node := node db; chan := chan db |}.
Definition set_announce (a : list AnnounceRow) (db : DB) : DB :=
  {| config := config db; announce := a; channels := channels db;
     core := core db; node := node db; chan := chan db |}.
Definition set_channels (c : gmap N Z) (db : DB) : DB :=
  {| config := config db; announce := announce db; channels := c;
     core := core db; node := node db; chan := chan db |}.
Definition set_core (c : gmap bytes CoreRow) (db : DB) : DB :=
  {| config := config db; announce := announce db; channels := channels db;
     core := c; node := node db; chan := chan db |}.
Definition set_node (n : gmap bytes NodeRow) (db : DB) : DB :=
  {| config := config db; announce := announce db; channels := channels db;
     core := core db; node := n; chan := chan db |}.
Definition set_chan (c : gset (Z * sql_value)) (db : DB) : DB :=
  {| config := config db; announce := announce db; channels := channels db;
     core := core db; node := node db; chan := c |}.

(** ** Transactions *)

(** The body of a transaction: it fails, or returns a value and the
    database as the transaction sees it. *)
Definition Tx (A : Type) : Type := DB → error + (A * DB).

Definition tx_ret {A} (a : A) : Tx A := λ db, inr (a, db).
Definition tx_fail {A} (e : error) : Tx A := λ _, inl e.
Definition tx_bind {A B} (m : Tx A) (k : A → Tx B) : Tx B :=
  λ db, match m db with
        | inl e => inl e
        | inr (a, db') => k a db'
        end.
Definition tx_modify (f : DB → DB) : Tx unit := λ db, inr (tt, f db).

#[global] Instance Tx_ret : MRet Tx := @tx_ret.
#[global] Instance Tx_bind : MBind Tx := λ A B k m, tx_bind m k.

(** [if err != nil { return fmt.Errorf(format, err) }] around a statement. *)
Definition tx_wrap {A} (format : string) (m : Tx A) : Tx A :=
  λ db, match m db with
        | inl e => inl (Errorf format e)
        | inr r => inr r
        end.

(** [doTxn]: run [work] in a transaction.  [Begin] and [Commit] succeed on
    a healthy engine, so the loop that retries a busy or locked database
    runs once.  When [work] fails, the deferred [tx.Rollback] restores the
    database and the error is returned; the named results of the caller,
    which [work] assigns, still have their zero value [zero] then, as every
    [work] below fails before it assigns one.  Otherwise the transaction
    commits what [work] wrote. *)
Definition doTxn {A} (zero : A) (work : Tx A) (db : DB) : (A * option error) * DB :=
  match work db with
  | inl e => ((zero, Some e), db)
  | inr (a, db') => ((a, None), db')
  end.

(** ** SQL statements *)

(** [SELECT dayc,last FROM config LIMIT 1], scanned. *)
Definition query_config : Tx (Z * Z) := λ db,
  match config db with
  | [] => inl ErrNoRows
  | r :: _ => inr ((cfg_dayc r, cfg_last r), db)
  end.

(** The scalar subquery [(SELECT dayc FROM config LIMIT 1)]: NULL on an
    empty table. *)
Definition subquery_dayc (db : DB) : option Z :=
  match config db with
  | [] => None
  | r :: _ => Some (cfg_dayc r)
  end.

(** [UPDATE config SET dayc=?,last=?] (every row of the table). *)
Definition exec_update_config (dayc last : Z) : Tx unit :=
  tx_modify (λ db,
    set_config (map (λ _, {| cfg_dayc := dayc; cfg_last := last |}) (config db)) db).

(** [DELETE FROM core WHERE dayc < ?], with [RowsAffected]. *)
Definition exec_delete_core (dayc : Z) : Tx Z := λ db,
  let gone := filter (λ kv, core_dayc kv.2 < dayc) (core db) in
  let kept := filter (λ kv, ¬ core_dayc kv.2 < dayc) (core db) in
  inr (Z.of_nat (size gone), set_core kept db).

(** [DELETE FROM node WHERE dayc < ?], with [RowsAffected]. *)
Definition exec_delete_node (dayc : Z) : Tx Z := λ db,
  let gone := filter (λ kv, node_dayc kv.2 < dayc) (node db) in
  let kept := filter (λ kv, ¬ node_dayc kv.2 < dayc) (node db) in
  inr (Z.of_nat (size gone), set_node kept db).

(** [DELETE FROM channels WHERE dayc < ?], with [RowsAffected]. *)
Definition exec_delete_channels (dayc : Z) : Tx Z := λ db,
  let gone := filter (λ kv : N * Z, kv.2 < dayc) (channels db) in
  let kept := filter (λ kv : N * Z, ¬ kv.2 < dayc) (channels db) in
  inr (Z.of_nat (size gone), set_channels kept db).

(** ** [TrimNodes] *)

(** The work of [TrimNodes]; [today] is the value [unixDayStamp()] returns.
    The result is [(advanced, remCore, remNode)]. *)
Definition TrimNodes_work (today : Z) : Tx (bool * Z * Z) :=
  '(dayc, last) ← tx_wrap "TrimNodes: SELECT config: %v" query_config;
  if decide (last ≠ today) then
    (* advance the day-count and save unix-daystamp *)
    let dayc := int64_add dayc 1 in
    exec_update_config dayc today;;
    (* expire core nodes *)
    remCore ← exec_delete_core dayc;
    (* expire net nodes *)
    remNode ← exec_delete_node dayc;
    (* expire channels *)
    remNode ← exec_delete_channels dayc;
    tx_ret (true, remCore, remNode)
  else tx_ret (false, 0, 0).

Definition TrimNodes (today : Z) (db : DB) : (bool * Z * Z * option error) * DB :=
  let '((advanced, remCore, remNode), err, db') :=
    doTxn (false, 0, 0) (TrimNodes_work today) db in
  ((advanced, remCore, remNode, err), db').

(** ** The gossip library *)

(** [dnet.Address]: a host (a [net.IP]) and a 16-bit port. *)
Record Address := { Host : bytes; Port : Z }.

Definition Address_zero : Address := {| Host := []; Port := 0 |}.

(** [node.Service] and [node.AddressMsg], with the fields the service
    reads and writes; the fields [Address] and [Port] of the message are
    [Addr] and [AddrPort] here. *)
Record Service := { svc_Tag : N; svc_Port : Z }.

Record AddressMsg := {
  Time : Z;
  Addr : bytes;
  AddrPort : Z;
  Owner : bytes;
  Channels : list N;
  Services : list Service
}.

Record KeyPair := { Priv : bytes; Pub : bytes }.

(** What the store and the service call in [code.dogecoin.org/gossip]
    ([dnet] and [node]): the codecs and the signing of messages; and the two
    rules of the SQL engine that the store meets beyond the tables.  Neither
    the library nor the engine is part of this repository; their functions
    are the fields of a class and the development holds for every
    instance. *)
Class Gossip := {
  Address_ToBytes : Address → bytes;            (* dnet.Address.ToBytes *)
  AddressFromBytes : bytes → error + Address;   (* dnet.AddressFromBytes *)
  AddrMsgMinSize : nat;                         (* node.AddrMsgMinSize *)
  AddrMsg_Encode : AddressMsg → bytes;          (* node.AddressMsg.Encode *)
  DecodeAddrMsg : bytes → AddressMsg;           (* node.DecodeAddrMsg *)
  ChannelNode : N;                              (* node.ChannelNode *)
  TagAddress : N;                               (* node.TagAddress *)
  ServiceCore : N;                              (* dnet.ServiceCore *)
  UnixToDoge : Z → Z;                           (* dnet.UnixToDoge *)
  (* dnet.EncodeMessage signs the payload and returns the whole message *)
  EncodeMessage : N → N → KeyPair → bytes → bytes;
  (* dnet.MsgView(msg).Signature() and .Header() *)
  Msg_Signature : bytes → bytes;
  Msg_Header : bytes → bytes;
  (* dnet.ReEncodeMessage builds a header around a signature it is given *)
  ReEncodeMessage : N → N → bytes → bytes → bytes → bytes;
  Tag4CC_String : N → string;                   (* dnet.Tag4CC.String *)
  (* the engine, on a text for a column of INTEGER affinity: a text that
     reads as a number is stored as the number, any other as it is *)
  integer_affinity : string → sql_value;
  (* the engine, on the sum of two integers that leaves the integers of 64
     bits: the sum of the two as floating-point numbers *)
  float_sum : Z → Z → Z
}.

(** ** The rest of the store *)

Definition MaxCoreNodeDays : Z := 3.

(** [ORDER BY RANDOM() LIMIT 1] over the rows [l]: the engine draws one of
    them; [seed] stands for its random numbers. *)
Definition random_row {A} (seed : nat) (l : list A) : option A :=
  l !! (seed `mod` length l)%nat.

Section Store.
Context `{Gossip}.

(** [initConfig]: insert the first row of [config] when there is none. *)
Definition initConfig_work (today : Z) : Tx unit := λ db,
  match query_config db with
  | inr _ => inr (tt, db)
  | inl e =>
      if errors_Is e ErrNoRows then
        (* INSERT INTO config (dayc,last) VALUES (1,?) *)
        inr (tt, set_config (config db ++ [{| cfg_dayc := 1; cfg_last := today |}]) db)
      else inl e
  end.

Definition initConfig (today : Z) (db : DB) : option error * DB :=
  let '((_, err), db') := doTxn tt (initConfig_work today) db in (err, db').

(** [a + b] on two integers of 64 bits: their sum when it is one, and
    otherwise the number that the engine computes in floating point. *)
Definition sql_add (a b : Z) : Z :=
  if decide (in_int64 (a + b)) then a + b else float_sum a b.

(** [database/sql] converts the arguments of a statement before the engine
    sees it, and refuses a [uint64] with the high bit set; [ordinal] is the
    place of the argument in the call. *)
Definition uint64_refused (ordinal : string) : error :=
  ErrText ("sql: converting argument $" ++ ordinal ++
           " type: uint64 values with high bit set are not supported").

(** [UPDATE core SET time=?, services=?,
      dayc=MAX(dayc,?+(SELECT dayc FROM config LIMIT 1)) WHERE address=?],
    with [RowsAffected]; [services] is a [uint64].  On an empty [config]
    the new [dayc] is NULL, which the column refuses. *)
Definition exec_update_core (time services remainDays : Z) (addrKey : bytes) : Tx Z := λ db,
  if decide (2 ^ 63 <= services) then inl (uint64_refused "2")
  else
    match core db !! addrKey with
    | None => inr (0, db)
    | Some r =>
        match subquery_dayc db with
        | None => inl ErrConstraint
        | Some d =>
            let r' := {| core_time := time; core_services := services;
                         core_isnew := core_isnew r;
                         core_dayc := Z.max (core_dayc r) (sql_add remainDays d) |} in
            inr (1, set_core (<[addrKey := r']> (core db)) db)
        end
    end.

(** [INSERT INTO core (address, time, services, isnew, dayc)
      VALUES (?1,?2,?3,true,?+(SELECT dayc FROM config LIMIT 1))]. *)
Definition exec_insert_core (addrKey : bytes) (time services remainDays : Z) : Tx unit := λ db,
  if decide (2 ^ 63 <= services) then inl (uint64_refused "3")
  else
    match core db !! addrKey, subquery_dayc db with
    | None, Some d =>
        let r := {| core_time := time; core_services := services;
                    core_isnew := true; core_dayc := sql_add remainDays d |} in
        inr (tt, set_core (<[addrKey := r]> (core db)) db)
    | _, _ => inl ErrConstraint
    end.

Definition AddCoreNode_work (address : Address) (unixTimeSec remainDays services : Z) : Tx unit :=
  let addrKey := Address_ToBytes address in
  num ← tx_wrap "update: %v" (exec_update_core unixTimeSec services remainDays addrKey);
  if decide (num = 0) then
    tx_wrap "insert: %v" (exec_insert_core addrKey unixTimeSec services remainDays)
  else tx_ret tt.

Definition AddCoreNode (address : Address) (unixTimeSec remainDays services : Z)
    (db : DB) : option error * DB :=
  let '((_, err), db') :=
    doTxn tt (AddCoreNode_work address unixTimeSec remainDays services) db in
  (err, db').

(** [UPDATE core SET time=?, dayc=?+(SELECT dayc FROM config LIMIT 1)
      WHERE address=?]. *)
Definition exec_update_core_time (time days : Z) (addrKey : bytes) : Tx unit := λ db,
  match core db !! addrKey with
  | None => inr (tt, db)
  | Some r =>
      match subquery_dayc db with
      | None => inl ErrConstraint
      | Some d =>
          let r' := {| core_time := time; core_services := core_services r;
                       core_isnew := core_isnew r; core_dayc := days + d |} in
          inr (tt, set_core (<[addrKey := r']> (core db)) db)
      end
  end.

Definition UpdateCoreTime (now : Z) (address : Address) (db : DB) : option error * DB :=
  let '((_, err), db') :=
    doTxn tt (tx_wrap "update: %v"
                (exec_update_core_time now MaxCoreNodeDays (Address_ToBytes address))) db in
  (err, db').

(** [SELECT address FROM core WHERE isnew=? ORDER BY RANDOM() LIMIT 1],
    scanned. *)
Definition query_core_random (isnew : bool) (seed : nat) : Tx bytes := λ db,
  let rows := map_to_list (filter (λ kv, core_isnew kv.2 = isnew) (core db)) in
  match random_row seed rows with
  | None => inl ErrNoRows
  | Some kv => inr (kv.1, db)
  end.

(** [seed1] and [seed2] are the random draws of the two queries. *)
Definition ChooseCoreNode_work (seed1 seed2 : nat) : Tx Address :=
  addr ← (λ db,
    match query_core_random true seed1 db with
    | inr r => inr r
    | inl err =>
        if errors_Is err ErrNoRows then
          tx_wrap "query-not-new: %v" (query_core_random false seed2) db
        else inl (Errorf "query-is-new: %v" err)
    end);
  match AddressFromBytes addr with
  | inl err => tx_fail (Errorf "invalid address: %v" err)
  | inr res => tx_ret res
  end.

Definition ChooseCoreNode (seed1 seed2 : nat) (db : DB) : (Address * option error) * DB :=
  doTxn Address_zero (ChooseCoreNode_work seed1 seed2) db.

(** [GetAnnounce]: [SELECT payload, sig, time FROM announce LIMIT 1]; no
    row leaves the results at their zero values and is no error. *)
Definition GetAnnounce_work : Tx (bytes * bytes * Z) := λ db,
  match announce db with
  | [] => inr (([], [], 0), db)
  | r :: _ => inr ((ann_payload r, ann_sig r, ann_time r), db)
  end.

Definition GetAnnounce (db : DB) : (bytes * bytes * Z * option error) * DB :=
  let '((payload, sig, time), err, db') := doTxn ([], [], 0) GetAnnounce_work db in
  ((payload, sig, time, err), db').

(** [UPDATE announce SET payload=?,sig=?,time=?] (every row), with
    [RowsAffected].  The columns refuse NULL, the value of a nil slice, in
    the rows there are. *)
Definition exec_update_announce (payload sig : slice) (time : Z) : Tx Z := λ db,
  match announce db with
  | [] => inr (0, db)
  | _ :: _ =>
      match payload, sig with
      | slice_of p, slice_of s =>
          let row := {| ann_payload := p; ann_sig := s; ann_time := time |} in
          inr (Z.of_nat (length (announce db)),
               set_announce (map (λ _, row) (announce db)) db)
      | _, _ => inl ErrConstraint
      end
  end.

(** [INSERT INTO announce (payload,sig,time) VALUES (?,?,?)]. *)
Definition exec_insert_announce (payload sig : slice) (time : Z) : Tx unit := λ db,
  match payload, sig with
  | slice_of p, slice_of s =>
      inr (tt, set_announce
                 (announce db ++ [{| ann_payload := p; ann_sig := s; ann_time := time |}])
                 db)
  | _, _ => inl ErrConstraint
  end.

Definition SetAnnounce_work (payload sig : slice) (time : Z) : Tx unit :=
  num ← exec_update_announce payload sig time;
  if decide (num = 0) then exec_insert_announce payload sig time
  else tx_ret tt.

Definition SetAnnounce (payload sig : slice) (time : Z) (db : DB) : option error * DB :=
  let '((_, err), db') := doTxn tt (SetAnnounce_work payload sig time) db in (err, db').

(** [UPDATE channels SET dayc=7+(SELECT dayc FROM config LIMIT 1)
      WHERE chan=?], with [RowsAffected]. *)
Definition exec_update_channel (channel : N) : Tx Z := λ db,
  match channels db !! channel with
  | None => inr (0, db)
  | Some _ =>
      match subquery_dayc db with
      | None => inl ErrConstraint
      | Some d => inr (1, set_channels (<[channel := 7 + d]> (channels db)) db)
      end
  end.

(** [INSERT INTO channels (chan,dayc)
      VALUES (?,7+(SELECT dayc FROM config LIMIT 1))]. *)
Definition exec_insert_channel (channel : N) : Tx unit := λ db,
  match channels db !! channel, subquery_dayc db with
  | None, Some d => inr (tt, set_channels (<[channel := 7 + d]> (channels db)) db)
  | _, _ => inl ErrConstraint
  end.

Definition AddChannel_work (channel : N) : Tx unit :=
  num ← exec_update_channel channel;
  if decide (num = 0) then exec_insert_channel channel
  else tx_ret tt.

Definition AddChannel (channel : N) (db : DB) : option error * DB :=
  let '((_, err), db') := doTxn tt (AddChannel_work channel) db in (err, db').

(** The rowid SQLite gives to a new row of [node]: one more than the
    largest in use, 1 in an empty table. *)
Definition next_rowid (rows : gmap bytes NodeRow) : Z :=
  1 + map_fold (λ _ r acc, Z.max (node_oid r) acc) 0 rows.

(** The row of [node] with the key [key]; NULL, the value of a nil slice,
    equals no key. *)
Definition node_row (key : slice) (db : DB) : option NodeRow :=
  match key with
  | nil_slice => None
  | slice_of k => node db !! k
  end.

(** [SELECT oid,payload FROM node WHERE key=? LIMIT 1], scanned. *)
Definition query_node (key : slice) : Tx (Z * bytes) := λ db,
  match node_row key db with
  | None => inl ErrNoRows
  | Some r => inr ((node_oid r, node_payload r), db)
  end.

(** [INSERT INTO node (key, address, time, owner, payload, sig, dayc)
      VALUES (?1,?2,?3,?4,?5,?6,30+(SELECT dayc FROM config LIMIT 1))],
    with [LastInsertId].  The columns refuse NULL, the value of a nil
    slice. *)
Definition exec_insert_node (key : slice) (address : bytes) (time : Z)
    (owner payload sig : slice) : Tx Z := λ db,
  match key, owner, payload, sig with
  | slice_of k, slice_of o, slice_of p, slice_of s =>
      match node db !! k, subquery_dayc db with
      | None, Some d =>
          let oid := next_rowid (node db) in
          let r := {| node_oid := oid; node_address := address; node_time := time;
                      node_owner := o; node_payload := p; node_sig := s;
                      node_dayc := 30 + d |} in
          inr (oid, set_node (<[k := r]> (node db)) db)
      | _, _ => inl ErrConstraint
      end
  | _, _, _, _ => inl ErrConstraint
  end.

(** [UPDATE node SET address=?, time=?, owner=?, payload=?, sig=?,
      dayc=30+(SELECT dayc FROM config LIMIT 1) WHERE key=?]. *)
Definition exec_update_node (address : bytes) (time : Z) (owner payload sig key : slice)
    : Tx unit := λ db,
  match key with
  | nil_slice => inr (tt, db)
  | slice_of k =>
      match node db !! k with
      | None => inr (tt, db)
      | Some r =>
          match owner, payload, sig, subquery_dayc db with
          | slice_of o, slice_of p, slice_of s, Some d =>
              let r' := {| node_oid := node_oid r; node_address := address;
                           node_time := time; node_owner := o;
                           node_payload := p; node_sig := s;
                           node_dayc := 30 + d |} in
              inr (tt, set_node (<[k := r']> (node db)) db)
          | _, _, _, _ => inl ErrConstraint
          end
      end
  end.

(** [DELETE FROM chan WHERE node=?]. *)
Definition exec_delete_chan (oid : Z) : Tx unit :=
  tx_modify (λ db, set_chan (filter (λ nc, nc.1 ≠ oid) (chan db)) db).

(** What the column [chan] stores for a tag: it receives the text
    [channel.String()] and has INTEGER affinity. *)
Definition chan_value (channel : N) : sql_value :=
  integer_affinity (Tag4CC_String channel).

(** [INSERT INTO chan (node,chan) VALUES (?,?)]: the pair is the primary
    key. *)
Definition exec_insert_chan (oid : Z) (channel : N) : Tx unit := λ db,
  if decide ((oid, chan_value channel) ∈ chan db) then inl ErrConstraint
  else inr (tt, set_chan ({[ (oid, chan_value channel) ]} ∪ chan db) db).

(** [for _, channel := range channels { ins.Exec(oid, channel.String()) }]. *)
Fixpoint insert_channels (oid : Z) (channels : list N) : Tx unit :=
  match channels with
  | [] => tx_ret tt
  | channel :: rest =>
      tx_wrap "insert channel: %v" (exec_insert_chan oid channel);;
      insert_channels oid rest
  end.

(** The work of [AddNetNode]; the result is [changed]. *)
Definition AddNetNode_work (key : slice) (address : Address) (time : Z) (owner : slice)
    (channels : list N) (payload sig : slice) : Tx bool := λ db,
  let replace_channels (oid : Z) : Tx bool :=
    exec_delete_chan oid;;
    insert_channels oid channels;;
    tx_ret true in
  match query_node key db with
  | inl e =>
      (* no rows found, or an error. *)
      if negb (errors_Is e ErrNoRows) then inl (Errorf "query: %v" e)
      else
        (* no rows found: must insert the node. *)
        (oid ← tx_wrap "insert: %v"
                 (exec_insert_node key (Address_ToBytes address) time owner payload sig);
         replace_channels oid) db
  | inr ((oid, stored), _) =>
      if bytes_Equal stored (slice_bytes payload) then
        inr (false, db) (* existing row has the same payload: no change. *)
      else
        (* payload is different: must update the row. *)
        (tx_wrap "update: %v"
           (exec_update_node (Address_ToBytes address) time owner payload sig key);;
         replace_channels oid) db
  end.

Definition AddNetNode (key : slice) (address : Address) (time : Z) (owner : slice)
    (channels : list N) (payload sig : slice) (db : DB) : (bool * option error) * DB :=
  doTxn false (AddNetNode_work key address time owner channels payload sig) db.

(** [UpdateNetTime]: [UPDATE node SET dayc=30+(SELECT dayc FROM config
    LIMIT 1) WHERE key=?]. *)
Definition exec_update_node_dayc (key : slice) : Tx unit := λ db,
  match key with
  | nil_slice => inr (tt, db)
  | slice_of k =>
      match node db !! k with
      | None => inr (tt, db)
      | Some r =>
          match subquery_dayc db with
          | None => inl ErrConstraint
          | Some d =>
              let r' := {| node_oid := node_oid r; node_address := node_address r;
                           node_time := node_time r; node_owner := node_owner r;
                           node_payload := node_payload r; node_sig := node_sig r;
                           node_dayc := 30 + d |} in
              inr (tt, set_node (<[k := r']> (node db)) db)
          end
      end
  end.

Definition UpdateNetTime (key : slice) (db : DB) : option error * DB :=
  let '((_, err), db') :=
    doTxn tt (tx_wrap "update: %v" (exec_update_node_dayc key)) db in
  (err, db').

(** Modelled from the spec: [spec.NodeInfo], whose declaration is not among
    the sources; a suggested peer is a NodeKey ([PubKey]) and an address
    ([Addr] in the source). *)
Record NodeInfo := { PubKey : bytes; NodeAddr : Address }.

Definition NodeInfo_zero : NodeInfo := {| PubKey := repeat x00 32; NodeAddr := Address_zero |}.

(** [SELECT key,address FROM node WHERE oid IN
      (SELECT oid FROM node ORDER BY RANDOM() LIMIT 1)], scanned. *)
Definition query_node_random (seed : nat) : Tx (bytes * bytes) := λ db,
  match random_row seed (map_to_list (node db)) with
  | None => inl ErrNoRows
  | Some kv => inr ((kv.1, node_address kv.2), db)
  end.

Definition ChooseNetNode_work (seed : nat) : Tx NodeInfo := λ db,
  match query_node_random seed db with
  | inl err =>
      if errors_Is err ErrNoRows then inl NotFoundError
      else inl (Errorf "query: %v" err)
  | inr ((key, addr), _) =>
      if decide (length key ≠ 32%nat) then
        inl (ErrText "invalid node key (should be 32 bytes)")
      else
        match AddressFromBytes addr with
        | inl err => inl (Errorf "invalid address: %v" err)
        | inr a => inr ({| PubKey := key; NodeAddr := a |}, db)
        end
  end.

Definition ChooseNetNode (seed : nat) (db : DB) : (NodeInfo * option error) * DB :=
  doTxn NodeInfo_zero (ChooseNetNode_work seed) db.

End Store.


(** ** The outcomes of a transaction *)

(** Two databases that differ at most in the [chan] table. *)
Definition same_but_chan (db db' : DB) : Prop :=
  config db' = config db ∧ announce db' = announce db ∧
  channels db' = channels db ∧ core db' = core db ∧ node db' = node db.

(** A transaction body that writes neither [config] nor [node]. *)
Definition keeps_nodes {A} (w : Tx A) : Prop :=
  ∀ db a db', w db = inr (a, db') → config db' = config db ∧ node db' = node db.

(** The rows of [core] with the given [isnew]. *)
Definition core_rows (isnew : bool) (db : DB) : list (bytes * CoreRow) :=
  map_to_list (filter (λ kv, core_isnew kv.2 = isnew) (core db)).

Section StoreCases.
Context `{Gossip}.

(** The three ways [AddNetNode_work] can end well. *)
Inductive AddNetNode_case (key : bytes) (address : Address) (time : Z) (owner : bytes)
    (channels : list N) (payload sig : bytes) (db : DB) : bool → DB → Prop :=
| ANN_same (r : NodeRow) :
    node db !! key = Some r → node_payload r = payload →
    AddNetNode_case key address time owner channels payload sig db false db
| ANN_insert (d : Z) (db1 db2 : DB) :
    node db !! key = None → subquery_dayc db = Some d →
    db1 = set_chan (filter (λ nc, nc.1 ≠ next_rowid (node db)) (chan db))
            (set_node (<[key := {| node_oid := next_rowid (node db);
                                   node_address := Address_ToBytes address;
                                   node_time := time; node_owner := owner;
                                   node_payload := payload; node_sig := sig;
                                   node_dayc := 30 + d |}]> (node db)) db) →
    insert_channels (next_rowid (node db)) channels db1 = inr (tt, db2) →
    AddNetNode_case key address time owner channels payload sig db true db2
| ANN_update (r : NodeRow) (d : Z) (db1 db2 : DB) :
    node db !! key = Some r → node_payload r ≠ payload → subquery_dayc db = Some d →
    db1 = set_chan (filter (λ nc, nc.1 ≠ node_oid r) (chan db))
            (set_node (<[key := {| node_oid := node_oid r;
                                   node_address := Address_ToBytes address;
                                   node_time := time; node_owner := owner;
                                   node_payload := payload; node_sig := sig;
                                   node_dayc := 30 + d |}]> (node db)) db) →
    insert_channels (node_oid r) channels db1 = inr (tt, db2) →
    AddNetNode_case key address time owner channels payload sig db true db2.

End StoreCases.

(** ** The store as a state machine *)

(** No stored expiry of an overlay node lies more than 30 days after the
    day counter: every write of [node.dayc] stores [30 + dayc], and [dayc]
    only grows. *)
Definition node_expiry_bounded (db : DB) : Prop :=
  match subquery_dayc db with
  | None => True
  | Some d => map_Forall (λ _ r, node_dayc r <= 30 + d) (node db)
  end.

(** [config] has a row, and the day counter is between 1 and [n]. *)
Definition day_counter_upto (n : Z) (db : DB) : Prop :=
  config db ≠ [] ∧ Forall (λ r, 1 <= cfg_dayc r <= n) (config db).

(** The calls of the [spec.Store] interface that write the database or
    draw from it, with the clock readings and random draws they make, and
    the opening of the store by a process that starts. *)
Inductive store_call : Type :=
| CallInitConfig (today : Z)            (* NewSQLiteStore on the existing file *)
| CallTrimNodes (today : Z)
| CallAddCoreNode (address : Address) (time remainDays services : Z)
| CallUpdateCoreTime (now : Z) (address : Address)
| CallChooseCoreNode (seed1 seed2 : nat)
| CallGetAnnounce
| CallSetAnnounce (payload sig : slice) (time : Z)
| CallAddChannel (channel : N)
| CallAddNetNode (key : slice) (address : Address) (time : Z) (owner : slice)
    (channels : list N) (payload sig : slice)
| CallUpdateNetTime (key : slice)
| CallChooseNetNode (seed : nat).

Definition DB_empty : DB :=
  {| config := []; announce := []; channels := ∅; core := ∅; node := ∅; chan := ∅ |}.

Section StoreMachine.
Context `{Gossip}.

(** The database a call leaves behind. *)
Definition store_exec (c : store_call) (db : DB) : DB :=
  match c with
  | CallInitConfig today => (initConfig today db).2
  | CallTrimNodes today => (TrimNodes today db).2
  | CallAddCoreNode a t r s => (AddCoreNode a t r s db).2
  | CallUpdateCoreTime now a => (UpdateCoreTime now a db).2
  | CallChooseCoreNode s1 s2 => (ChooseCoreNode s1 s2 db).2
  | CallGetAnnounce => (GetAnnounce db).2
  | CallSetAnnounce p s t => (SetAnnounce p s t db).2
  | CallAddChannel c => (AddChannel c db).2
  | CallAddNetNode k a t o cs p s => (AddNetNode k a t o cs p s db).2
  | CallUpdateNetTime k => (UpdateNetTime k db).2
  | CallChooseNetNode s => (ChooseNetNode s db).2
  end.

(** [NewSQLiteStore] on a new file: the schema, then [initConfig]. *)
Definition NewSQLiteStore (today : Z) : DB := (initConfig today DB_empty).2.

Definition store_run (today : Z) (calls : list store_call) : DB :=
  fold_left (λ db c, store_exec c db) calls (NewSQLiteStore today).

End StoreMachine.

(** * The net service *)

(** Connections, listeners and the sessions of peers and handlers are
    objects on the heap; the model names each by a number, and two
    pointers are equal when the numbers are. *)
Abbreviation Conn := nat.
Abbreviation Listener := nat.
Abbreviation PeerPtr := nat.
Abbreviation HandlerPtr := nat.

(** [time.Duration] is an [int64] count of nanoseconds. *)
Definition Second : Z := 1000000000.
Definition IdealPeers : Z := 8.
Definition PeerLockTime : Z := 300 * Second.
Definition AnnounceLongevity : Z := 5 * (60 * Second).

(** [time.Duration(n) * time.Second]. *)
Definition seconds (n : Z) : Z := int64_mul n Second.

Record RawMessage := { Header : bytes; Payload : bytes }.

(** A Go channel with its buffer; the nil channel is [None]. *)
Record Chan (A : Type) := { ch_buf : list A; ch_cap : nat }.
Arguments ch_buf {A} _.
Arguments ch_cap {A} _.

Definition make_chan {A} (cap : nat) : option (Chan A) :=
  Some {| ch_buf := []; ch_cap := cap |}.

(** [select { case ch <- x: default: }]: the value is queued when the
    buffer has room and dropped otherwise. *)
Definition try_send {A} (x : A) (ch : Chan A) : bool * Chan A :=
  if decide (length (ch_buf ch) < ch_cap ch)%nat
  then (true, {| ch_buf := ch_buf ch ++ [x]; ch_cap := ch_cap ch |})
  else (false, ch).

(** A receive [<-ch] can proceed when the channel holds a value; on the nil
    channel it never can. *)
Definition can_recv {A} (ch : option (Chan A)) : bool :=
  match ch with
  | Some c => match ch_buf c with [] => false | _ :: _ => true end
  | None => false
  end.

Definition recv {A} (ch : option (Chan A)) : option (A * option (Chan A)) :=
  match ch with
  | Some c =>
      match ch_buf c with
      | [] => None
      | x :: rest => Some (x, Some {| ch_buf := rest; ch_cap := ch_cap c |})
      end
  | None => None
  end.

(** Modelled from the spec: [peerConn] and [handlerConn] are declared in
    files of the package that are not among the sources.  A peer session
    has its connection, the key of the peer and a bounded queue of encoded
    messages to send; a handler session has its connection, the channel it
    declared and its queue.  These are the fields [service.go] reads. *)
Record peerConn := {
  pc_conn : Conn;
  pc_peerPub : bytes;
  pc_send : Chan RawMessage
}.

Record handlerConn := {
  hc_conn : Conn;
  hc_channel : N;
  hc_send : Chan RawMessage
}.

(** The fields of [NetService].  The store is the database, which the
    functions below take beside the service; the map [channels] is made by
    [New] and not used again. *)
Record NetService := {
  stopping : bool;                        (* ServiceCtx: Stopping(), Context.Done() *)
  bindAddrs : list Address;
  publicAddr : Address;
  allowLocal : bool;
  listen : list Listener;
  socket : option Listener;
  nodeKey : KeyPair;
  connections : list Conn;
  lockedPeers : gmap bytes Z;
  connectedPeers : gmap bytes PeerPtr;
  handlers : list HandlerPtr;
  newPeers : option (Chan NodeInfo);
  addrChange : option (Chan AddressMsg);
  nextAnnounce : AddressMsg;
  encAnnounce : RawMessage
}.

Definition NoPubKey : bytes := repeat x00 32.

(** [net.IP.To16]. *)
Definition IP_To16 (ip : bytes) : bytes :=
  if decide (length ip = 4%nat) then repeat x00 10 ++ [xff; xff] ++ ip
  else if decide (length ip = 16%nat) then ip
  else [].

Definition set_stopping (b : bool) (ns : NetService) : NetService :=
  {| stopping := b; bindAddrs := bindAddrs ns; publicAddr := publicAddr ns;
     allowLocal := allowLocal ns; listen := listen ns; socket := socket ns;
     nodeKey := nodeKey ns; connections := connections ns;
     lockedPeers := lockedPeers ns; connectedPeers := connectedPeers ns;
     handlers := handlers ns; newPeers := newPeers ns; addrChange := addrChange ns;
     nextAnnounce := nextAnnounce ns; encAnnounce := encAnnounce ns |}.
Definition set_listen (l : list Listener) (ns : NetService) : NetService :=
  {| stopping := stopping ns; bindAddrs := bindAddrs ns; publicAddr := publicAddr ns;
     allowLocal := allowLocal ns; listen := l; socket := socket ns;
     nodeKey := nodeKey ns; connections := connections ns;
     lockedPeers := lockedPeers ns; connectedPeers := connectedPeers ns;
     handlers := handlers ns; newPeers := newPeers ns; addrChange := addrChange ns;
     nextAnnounce := nextAnnounce ns; encAnnounce := encAnnounce ns |}.
Definition set_socket (l : option Listener) (ns : NetService) : NetService :=
  {| stopping := stopping ns; bindAddrs := bindAddrs ns; publicAddr := publicAddr ns;
     allowLocal := allowLocal ns; listen := listen ns; socket := l;
     nodeKey := nodeKey ns; connections := connections ns;
     lockedPeers := lockedPeers ns; connectedPeers := connectedPeers ns;
     handlers := handlers ns; newPeers := newPeers ns; addrChange := addrChange ns;
     nextAnnounce := nextAnnounce ns; encAnnounce := encAnnounce ns |}.
Definition set_connections (c : list Conn) (ns : NetService) : NetService :=
  {| stopping := stopping ns; bindAddrs := bindAddrs ns; publicAddr := publicAddr ns;
     allowLocal := allowLocal ns; listen := listen ns; socket := socket ns;
     nodeKey := nodeKey ns; connections := c;
     lockedPeers := lockedPeers ns; connectedPeers := connectedPeers ns;
     handlers := handlers ns; newPeers := newPeers ns; addrChange := addrChange ns;
     nextAnnounce := nextAnnounce ns; encAnnounce := encAnnounce ns |}.
Definition set_lockedPeers (m : gmap bytes Z) (ns : NetService) : NetService :=
  {| stopping := stopping ns; bindAddrs := bindAddrs ns; publicAddr := publicAddr ns;
     allowLocal := allowLocal ns; listen := listen ns; socket := socket ns;
     nodeKey := nodeKey ns; connections := connections ns;
     lockedPeers := m; connectedPeers := connectedPeers ns;
     handlers := handlers ns; newPeers := newPeers ns; addrChange := addrChange ns;
     nextAnnounce := nextAnnounce ns; encAnnounce := encAnnounce ns |}.
Definition set_connectedPeers (m : gmap bytes PeerPtr) (ns : NetService) : NetService :=
  {| stopping := stopping ns; bindAddrs := bindAddrs ns; publicAddr := publicAddr ns;
     allowLocal := allowLocal ns; listen := listen ns; socket := socket ns;
     nodeKey := nodeKey ns; connections := connections ns;
     lockedPeers := lockedPeers ns; connectedPeers := m;
     handlers := handlers ns; newPeers := newPeers ns; addrChange := addrChange ns;
     nextAnnounce := nextAnnounce ns; encAnnounce := encAnnounce ns |}.
Definition set_handlers (h : list HandlerPtr) (ns : NetService) : NetService :=
  {| stopping := stopping ns; bindAddrs := bindAddrs ns; publicAddr := publicAddr ns;
     allowLocal := allowLocal ns; listen := listen ns; socket := socket ns;
     nodeKey := nodeKey ns; connections := connections ns;
     lockedPeers := lockedPeers ns; connectedPeers := connectedPeers ns;
     handlers := h; newPeers := newPeers ns; addrChange := addrChange ns;
     nextAnnounce := nextAnnounce ns; encAnnounce := encAnnounce ns |}.
Definition set_newPeers (c : option (Chan NodeInfo)) (ns : NetService) : NetService :=
  {| stopping := stopping ns; bindAddrs := bindAddrs ns; publicAddr := publicAddr ns;
     allowLocal := allowLocal ns; listen := listen ns; socket := socket ns;
     nodeKey := nodeKey ns; connections := connections ns;
     lockedPeers := lockedPeers ns; connectedPeers := connectedPeers ns;
     handlers := handlers ns; newPeers := c; addrChange := addrChange ns;
     nextAnnounce := nextAnnounce ns; encAnnounce := encAnnounce ns |}.
Definition set_addrChange (c : option (Chan AddressMsg)) (ns : NetService) : NetService :=
  {| stopping := stopping ns; bindAddrs := bindAddrs ns; publicAddr := publicAddr ns;
     allowLocal := allowLocal ns; listen := listen ns; socket := socket ns;
     nodeKey := nodeKey ns; connections := connections ns;
     lockedPeers := lockedPeers ns; connectedPeers := connectedPeers ns;
     handlers := handlers ns; newPeers := newPeers ns; addrChange := c;
     nextAnnounce := nextAnnounce ns; encAnnounce := encAnnounce ns |}.
Definition set_nextAnnounce (m : AddressMsg) (ns : NetService) : NetService :=
  {| stopping := stopping ns; bindAddrs := bindAddrs ns; publicAddr := publicAddr ns;
     allowLocal := allowLocal ns; listen := listen ns; socket := socket ns;
     nodeKey := nodeKey ns; connections := connections ns;
     lockedPeers := lockedPeers ns; connectedPeers := connectedPeers ns;
     handlers := handlers ns; newPeers := newPeers ns; addrChange := addrChange ns;
     nextAnnounce := m; encAnnounce := encAnnounce ns |}.
Definition set_encAnnounce (m : RawMessage) (ns : NetService) : NetService :=
  {| stopping := stopping ns; bindAddrs := bindAddrs ns; publicAddr := publicAddr ns;
     allowLocal := allowLocal ns; listen := listen ns; socket := socket ns;
     nodeKey := nodeKey ns; connections := connections ns;
     lockedPeers := lockedPeers ns; connectedPeers := connectedPeers ns;
     handlers := handlers ns; newPeers := newPeers ns; addrChange := addrChange ns;
     nextAnnounce := nextAnnounce ns; encAnnounce := m |}.

Definition set_Time (t : Z) (m : AddressMsg) : AddressMsg :=
  {| Time := t; Addr := Addr m; AddrPort := AddrPort m; Owner := Owner m;
     Channels := Channels m; Services := Services m |}.

(** ** Tracking peers and handlers *)

(** [trackPeer]: the result and the service after the call. *)
Definition trackPeer (conn : Conn) (peer : PeerPtr) (pubKey : bytes) (ns : NetService)
    : bool * NetService :=
  if stopping ns then (false, ns)
  else
    (* begin tracking the connection *)
    let ns := set_connections (connections ns ++ [conn]) ns in
    (* check if connected before tracking the peer *)
    if decide (pubKey ≠ NoPubKey) then
      match connectedPeers ns !! pubKey with
      | Some _ => (false, ns) (* already connected to peer *)
      | None =>
          (* mark peer connected *)
          (true, set_connectedPeers (<[pubKey := peer]> (connectedPeers ns)) ns)
      end
    else (true, ns).

Definition adoptPeer (peer : PeerPtr) (pubKey : bytes) (ns : NetService)
    : bool * NetService :=
  match connectedPeers ns !! pubKey with
  | Some _ => (false, ns) (* already connected to peer *)
  | None =>
      (* mark peer connected *)
      (true, set_connectedPeers (<[pubKey := peer]> (connectedPeers ns)) ns)
  end.

(** [for i, c := range l { if c == x { l[i] = l[len(l)-1]; l = l[:len(l)-1];
    break } }]: remove from an unordered array. *)
Fixpoint index_of (x : nat) (l : list nat) : option nat :=
  match l with
  | [] => None
  | y :: l' => if decide (y = x) then Some O else S <$> index_of x l'
  end.

Definition remove_unordered (x : nat) (l : list nat) : list nat :=
  match index_of x l with
  | None => l
  | Some i =>
      match last l with
      | Some z => take (length l - 1) (<[i := z]> l)
      | None => l
      end
  end.

(** [closePeer]; [p] is the object [peer] points to. *)
Definition closePeer (peer : PeerPtr) (p : peerConn) (ns : NetService) : NetService :=
  let conn := pc_conn p in
  (* remove the peer connected status *)
  let key := pc_peerPub p in
  let ns :=
    match connectedPeers ns !! key with
    | Some q =>
        if decide (q = peer)
        then set_connectedPeers (delete key (connectedPeers ns)) ns
        else ns
    | None => ns
    end in
  (* remove the tracked connnection *)
  set_connections (remove_unordered conn (connections ns)) ns.

Definition trackHandler (conn : Conn) (hand : HandlerPtr) (ns : NetService)
    : bool * NetService :=
  if stopping ns then (false, ns)
  else
    let ns := set_connections (connections ns ++ [conn]) ns in
    (true, set_handlers (handlers ns ++ [hand]) ns).

Definition closeHandler (hand : HandlerPtr) (h : handlerConn) (ns : NetService)
    : NetService :=
  let conn := hc_conn h in
  let ns := set_connections (remove_unordered conn (connections ns)) ns in
  set_handlers (remove_unordered hand (handlers ns)) ns.

Definition countPeers (ns : NetService) : Z := Z.of_nat (size (connectedPeers ns)).

Definition havePeer (pubKey : bytes) (ns : NetService) : bool :=
  bool_decide (is_Some (connectedPeers ns !! pubKey)).

(** [lockPeer]; [now] is the clock, in nanoseconds. *)
Definition lockPeer (now : Z) (pubKey : bytes) (ns : NetService) : bool * NetService :=
  let locked :=
    match lockedPeers ns !! pubKey with
    | Some until => bool_decide (now < until)
    | None => false
    end in
  if locked then (false, ns) (* still locked *)
  else (true, set_lockedPeers (<[pubKey := now + PeerLockTime]> (lockedPeers ns)) ns).

Definition NetService_GetAnnounce (ns : NetService) : RawMessage := encAnnounce ns.

Definition setAnnounce (msg : RawMessage) (ns : NetService) : NetService :=
  set_encAnnounce msg ns.

(** [Stop] closes the listeners, the socket and the connections; it writes
    no field of the service. *)
Definition NetService_Stop (ns : NetService) : NetService := ns.

(** The sessions registered for a key. *)
Definition sessions_of (k : bytes) (ns : NetService) : list PeerPtr :=
  option_list (connectedPeers ns !! k).

(** The send queues of the sessions, by pointer. *)
Record Heap := {
  peers : gmap PeerPtr peerConn;
  hands : gmap HandlerPtr handlerConn
}.

Definition peer_offer (msg : RawMessage) (p : peerConn) : peerConn :=
  {| pc_conn := pc_conn p; pc_peerPub := pc_peerPub p;
     pc_send := (try_send msg (pc_send p)).2 |}.

(** [forwardToPeers]: a non-blocking send to every connected peer. *)
Definition forwardToPeers (msg : RawMessage) (ns : NetService) (h : Heap) : Heap :=
  {| peers :=
       map_fold (λ _ peer hp, alter (peer_offer msg) peer hp)
                (peers h) (connectedPeers ns);
     hands := hands h |}.

(** [forwardToHandlers]: a non-blocking send to every handler that listens
    on the channel; the result tells whether one of them took the message. *)
Definition forwardToHandlers (channel : N) (rawHdr payload : bytes)
    (ns : NetService) (h : Heap) : bool * Heap :=
  let msg := {| Header := rawHdr; Payload := payload |} in
  let '(found, hs) :=
    fold_left
      (λ '(found, hs) hand,
         match hs !! hand with
         | Some hc =>
             if decide (channel = hc_channel hc) then
               let '(sent, q) := try_send msg (hc_send hc) in
               (if sent then true else found,
                <[hand := {| hc_conn := hc_conn hc; hc_channel := hc_channel hc;
                             hc_send := q |}]> hs)
             else (found, hs)
         | None => (found, hs)
         end)
      (handlers ns) (false, hands h) in
  (found, {| peers := peers h; hands := hs |}).

(** ** How a goroutine ends *)

Inductive task_end : Type :=
| TaskReturned              (* the goroutine function returns *)
| ProcessExit (code : Z)    (* os.Exit, also through log.Fatal *)
| TaskWaiting.              (* blocked in Accept: the script of events is over *)

(** What [Accept] returns. *)
Inductive accept_result : Type :=
| Accepted (conn : Conn)
| AcceptFailed (err : error).

(** One wait in [Accept]: whether the governor stopped the service
    meanwhile ([Stop] closes the socket), what [Accept] returned, and the
    session object made for the connection. *)
Record accept_event := {
  ev_stopped : bool;
  ev_result : accept_result;
  ev_session : nat
}.

(** The governor stops a service: the context is cancelled and [Stop] runs. *)
Definition governor_stop (ns : NetService) : NetService :=
  NetService_Stop (set_stopping true ns).

(** The loop of [acceptHandlers] over a script of events. *)
Fixpoint acceptHandlers_loop (events : list accept_event) (ns : NetService)
    : task_end * NetService :=
  if stopping ns then (TaskReturned, ns)
  else
    match events with
    | [] => (TaskWaiting, ns)
    | ev :: events' =>
        (* Accept an incoming connection. *)
        let ns := if ev_stopped ev then governor_stop ns else ns in
        match ev_result ev with
        | AcceptFailed err => (ProcessExit 1, ns)       (* log.Fatal(err) *)
        | Accepted conn =>
            let hand := ev_session ev in
            let '(ok, ns) := trackHandler conn hand ns in
            if ok then acceptHandlers_loop events' ns   (* hand.start() *)
            else (TaskReturned, ns)                     (* conn.Close() *)
        end
    end.

(** [acceptHandlers]; [listened] is what [net.Listen] returned. *)
Definition acceptHandlers (listened : error + Listener) (events : list accept_event)
    (ns : NetService) : task_end * NetService :=
  match listened with
  | inl err => (TaskReturned, set_socket None ns)
  | inr l => acceptHandlers_loop events (set_socket (Some l) ns)
  end.

(** [acceptIncoming], the loop of a TCP listener. *)
Fixpoint acceptIncoming (events : list accept_event) (ns : NetService)
    : task_end * NetService :=
  match events with
  | [] => (TaskWaiting, ns)
  | ev :: events' =>
      let ns := if ev_stopped ev then governor_stop ns else ns in
      match ev_result ev with
      | AcceptFailed err => (TaskReturned, ns)          (* typically due to Stop() *)
      | Accepted conn =>
          let peer := ev_session ev in                  (* inbound connection *)
          let '(ok, ns) := trackPeer conn peer NoPubKey ns in
          if ok then acceptIncoming events' ns          (* peer.start() *)
          else (TaskReturned, ns)                       (* Stop was called *)
      end
  end.

(** ** Announcements *)

Section Announce.
Context `{Gossip}.

Definition New (bind : list Address) (public : Address) (idenPub : bytes)
    (nodeKey : KeyPair) (allowLocal : bool) : NetService :=
  {| stopping := false;
     bindAddrs := bind;
     publicAddr := Address_zero;
     allowLocal := allowLocal;
     listen := [];
     socket := None;
     nodeKey := nodeKey;
     connections := [];
     lockedPeers := ∅;
     connectedPeers := ∅;
     handlers := [];
     newPeers := make_chan 10;
     addrChange := None;
     nextAnnounce :=
       {| Time := 0; (* Time: is dynamically updated *)
          Addr := IP_To16 (Host public);
          AddrPort := Port public;
          Owner := idenPub;
          Channels := []; (* Channels: are dynamically updated *)
          Services := [{| svc_Tag := ServiceCore; svc_Port := 22556 |}] |};
     encAnnounce := {| Header := []; Payload := [] |} |}.

(** The outcome of making an announcement: the message, the time it stays
    valid, the store, and the payloads that were signed on the way. *)
Record announced := {
  an_msg : RawMessage;
  an_remain : Z;
  an_db : DB;
  an_signed : list bytes
}.

(** [generateAnnounce]; [now] is the clock in seconds.  An error of
    [SetAnnounce] is logged and otherwise ignored.  The payload and the
    signature are slices that the library made, not nil. *)
Definition generateAnnounce (ns : NetService) (newMsg : AddressMsg) (now : Z) (db : DB)
    : announced :=
  let newMsg := set_Time (UnixToDoge now) newMsg in
  let payload := AddrMsg_Encode newMsg in
  let msg := EncodeMessage ChannelNode TagAddress (nodeKey ns) payload in
  let '(err, db) := SetAnnounce payload (Msg_Signature msg) (now + 300) db in
  {| an_msg := {| Header := Msg_Header msg; Payload := payload |};
     an_remain := AnnounceLongevity;
     an_db := db;
     an_signed := [payload] |}.

(** [loadOrGenerateAnnounce]; [now] is its own reading of the clock and
    [gnow] the one [generateAnnounce] makes. *)
Definition loadOrGenerateAnnounce (ns : NetService) (now gnow : Z) (db : DB) : announced :=
  (* load the stored announcement from the database *)
  let '((oldPayload, sig, expires, err), db) := GetAnnounce db in
  let generate := generateAnnounce ns (nextAnnounce ns) gnow db in
  match err with
  | Some _ => generate
  | None =>
      if bool_decide (AddrMsgMinSize <= length oldPayload)%nat
         && bool_decide (length sig = 64%nat) && bool_decide (now < expires)
      then
        let oldMsg := DecodeAddrMsg oldPayload in    (* for Time *)
        let newMsg := nextAnnounce ns in             (* copy *)
        let newMsg := set_Time (Time oldMsg) newMsg in
        if bytes_Equal (AddrMsg_Encode newMsg) oldPayload then
          (* re-encode the stored announcement *)
          let hdr := ReEncodeMessage ChannelNode TagAddress (Pub (nodeKey ns))
                       sig oldPayload in
          {| an_msg := {| Header := hdr; Payload := oldPayload |};
             an_remain := seconds (int64_wrap (expires - now));
             an_db := db;
             an_signed := [] |}
        else generate
      else generate
  end.

(** The stored announcement [row] can be used again at time [now]: it is
    well-formed, not expired, and what the service would announce. *)
Definition reusable (ns : NetService) (now : Z) (row : AnnounceRow) : Prop :=
  (AddrMsgMinSize <= length (ann_payload row))%nat ∧
  length (ann_sig row) = 64%nat ∧
  now < ann_time row ∧
  AddrMsg_Encode (set_Time (Time (DecodeAddrMsg (ann_payload row))) (nextAnnounce ns))
    = ann_payload row.

(** ** The service as a state machine *)

(** Where the goroutine of [updateAnnounce] is: not started, waiting in its
    [select] with the timer set, or returned. *)
Inductive announce_pc : Type :=
| AnnInit
| AnnWaiting (timer : Z)
| AnnReturned.

Record World := {
  w_ns : NetService;
  w_db : DB;
  w_heap : Heap;
  w_pc : announce_pc;
  w_signed : list bytes   (* every payload signed so far, oldest first *)
}.

(** The cases of the [select] in [updateAnnounce]. *)
Inductive select_case : Type :=
| CaseAddrChange   (* case newMsg := <-ns.addrChange *)
| CaseTimer        (* case <-timer.C *)
| CaseDone.        (* case <-ns.Context.Done() *)

(** A case can be chosen when its channel is ready.  Time is not part of
    the model: the timer may fire at any moment. *)
Definition case_ready (c : select_case) (ns : NetService) : bool :=
  match c with
  | CaseAddrChange => can_recv (addrChange ns)
  | CaseTimer => true
  | CaseDone => stopping ns
  end.

(** What the goroutines do to the service, one step at a time. *)
Inductive action : Type :=
| ActNewPeer (peer : PeerPtr) (p : peerConn)          (* newPeer *)
| ActNewHandler (hand : HandlerPtr) (h : handlerConn) (* newHandler *)
| ActTrackPeer (conn : Conn) (peer : PeerPtr) (pubKey : bytes)
| ActAdoptPeer (peer : PeerPtr) (pubKey : bytes)
| ActClosePeer (peer : PeerPtr)
| ActTrackHandler (conn : Conn) (hand : HandlerPtr)
| ActCloseHandler (hand : HandlerPtr)
| ActLockPeer (now : Z) (pubKey : bytes)
| ActAddPeer (node : NodeInfo)                        (* ns.newPeers <- node *)
| ActTakePeer                                         (* np := <-ns.newPeers *)
| ActListen (l : Listener)                            (* startListeners *)
| ActSocket (l : Listener)                            (* acceptHandlers *)
| ActForwardToPeers (msg : RawMessage)
| ActForwardToHandlers (channel : N) (rawHdr payload : bytes)
| ActGovernorStop
| ActStore (c : store_call)                           (* a call of the store *)
| ActAnnounceStart (now gnow : Z)                     (* updateAnnounce, up to the loop *)
| ActAnnounceSelect (c : select_case) (gnow : Z)      (* one round of its select *)
| ActAnnounceLeave.                                   (* its loop finds Stopping() *)

Definition with_ns (ns : NetService) (w : World) : World :=
  {| w_ns := ns; w_db := w_db w; w_heap := w_heap w; w_pc := w_pc w;
     w_signed := w_signed w |}.
Definition with_heap (h : Heap) (w : World) : World :=
  {| w_ns := w_ns w; w_db := w_db w; w_heap := h; w_pc := w_pc w;
     w_signed := w_signed w |}.
Definition with_db (db : DB) (w : World) : World :=
  {| w_ns := w_ns w; w_db := db; w_heap := w_heap w; w_pc := w_pc w;
     w_signed := w_signed w |}.
Definition with_pc (pc : announce_pc) (w : World) : World :=
  {| w_ns := w_ns w; w_db := w_db w; w_heap := w_heap w; w_pc := pc;
     w_signed := w_signed w |}.

(** The world after an announcement was made, sent to the peers when
    [gossip] is set, and the timer set again. *)
Definition announce_done (gossip : bool) (a : announced) (w : World) : World :=
  let ns := setAnnounce (an_msg a) (w_ns w) in
  {| w_ns := ns;
     w_db := an_db a;
     w_heap := if gossip then forwardToPeers (an_msg a) ns (w_heap w) else w_heap w;
     w_pc := AnnWaiting (an_remain a);
     w_signed := w_signed w ++ an_signed a |}.

(** One round of the [select] of [updateAnnounce]. *)
Definition updateAnnounce_select (c : select_case) (gnow : Z) (w : World) : option World :=
  match w_pc w with
  | AnnWaiting _ =>
      if case_ready c (w_ns w) then
        match c with
        | CaseAddrChange =>
            match recv (addrChange (w_ns w)) with
            | Some (newMsg, ch) =>
                let ns := set_nextAnnounce newMsg (set_addrChange ch (w_ns w)) in
                Some (announce_done true (generateAnnounce ns newMsg gnow (w_db w))
                        (with_ns ns w))
            | None => None
            end
        | CaseTimer =>
            Some (announce_done true
                    (generateAnnounce (w_ns w) (nextAnnounce (w_ns w)) gnow (w_db w)) w)
        | CaseDone => Some (with_pc AnnReturned w)
        end
      else None
  | _ => None
  end.

(** A step of the world; [None] when the action cannot happen in [w]. *)
Definition step (a : action) (w : World) : option World :=
  let ns := w_ns w in
  let h := w_heap w in
  match a with
  | ActNewPeer peer p =>
      match peers h !! peer with
      | None => Some (with_heap {| peers := <[peer := p]> (peers h); hands := hands h |} w)
      | Some _ => None
      end
  | ActNewHandler hand hc =>
      match hands h !! hand with
      | None => Some (with_heap {| peers := peers h; hands := <[hand := hc]> (hands h) |} w)
      | Some _ => None
      end
  | ActTrackPeer conn peer pubKey => Some (with_ns (trackPeer conn peer pubKey ns).2 w)
  | ActAdoptPeer peer pubKey => Some (with_ns (adoptPeer peer pubKey ns).2 w)
  | ActClosePeer peer =>
      p ← peers h !! peer; Some (with_ns (closePeer peer p ns) w)
  | ActTrackHandler conn hand => Some (with_ns (trackHandler conn hand ns).2 w)
  | ActCloseHandler hand =>
      hc ← hands h !! hand; Some (with_ns (closeHandler hand hc ns) w)
  | ActLockPeer now pubKey => Some (with_ns (lockPeer now pubKey ns).2 w)
  | ActAddPeer node =>
      ch ← newPeers ns;
      let '(sent, ch) := try_send node ch in
      if sent then Some (with_ns (set_newPeers (Some ch) ns) w) else None
  | ActTakePeer =>
      '(_, ch) ← recv (newPeers ns); Some (with_ns (set_newPeers ch ns) w)
  | ActListen l => Some (with_ns (set_listen (listen ns ++ [l]) ns) w)
  | ActSocket l => Some (with_ns (set_socket (Some l) ns) w)
  | ActForwardToPeers msg => Some (with_heap (forwardToPeers msg ns h) w)
  | ActForwardToHandlers channel rawHdr payload =>
      Some (with_heap (forwardToHandlers channel rawHdr payload ns h).2 w)
  | ActGovernorStop => Some (with_ns (governor_stop ns) w)
  | ActStore c => Some (with_db (store_exec c (w_db w)) w)
  | ActAnnounceStart now gnow =>
      match w_pc w with
      | AnnInit => Some (announce_done false (loadOrGenerateAnnounce ns now gnow (w_db w)) w)
      | _ => None
      end
  | ActAnnounceSelect c gnow => updateAnnounce_select c gnow w
  | ActAnnounceLeave =>
      match w_pc w with
      | AnnWaiting _ => if stopping ns then Some (with_pc AnnReturned w) else None
      | _ => None
      end
  end.

Fixpoint run_actions (actions : list action) (w : World) : option World :=
  match actions with
  | [] => Some w
  | a :: rest => w' ← step a w; run_actions rest w'
  end.

(** The world in which a service made by [New] starts on the store [db]. *)
Definition start_world (ns : NetService) (db : DB) : World :=
  {| w_ns := ns; w_db := db; w_heap := {| peers := ∅; hands := ∅ |};
     w_pc := AnnInit; w_signed := [] |}.

End Announce.

(** ** A small instance of the library *)

(** The definitions run on concrete inputs once the library is
    instantiated.  [RefGossip] is a plain big-endian layout of the fields:
    an address is its host followed by the port; an address message is its
    time (4 bytes), address (16), port (2), owner (32), and the counted
    lists of channels and services; a message header is the two tags, the
    public key and a 64-byte signature. *)
Module Ref.

Definition byte_of_Z (z : Z) : byte :=
  default x00 (Byte.of_N (Z.to_N (z `mod` 256))).

Definition Z_of_byte (b : byte) : Z := Z.of_N (Byte.to_N b).

(** [n] bytes, most significant first. *)
Fixpoint be_bytes (n : nat) (z : Z) : bytes :=
  match n with
  | O => []
  | S n' => byte_of_Z (z / 256 ^ Z.of_nat n') :: be_bytes n' z
  end.

Definition be_value (b : bytes) : Z :=
  fold_left (λ acc x, 256 * acc + Z_of_byte x) b 0.

Definition ToBytes (a : Address) : bytes := Host a ++ be_bytes 2 (Port a).

Definition FromBytes (b : bytes) : error + Address :=
  if decide (length b = 18%nat)
  then inr {| Host := take 16 b; Port := be_value (drop 16 b) |}
  else inl (ErrText "address must be 18 bytes").

Definition encode_service (s : Service) : bytes :=
  be_bytes 4 (Z.of_N (svc_Tag s)) ++ be_bytes 2 (svc_Port s).

Definition Encode (m : AddressMsg) : bytes :=
  be_bytes 4 (Time m) ++ Addr m ++ be_bytes 2 (AddrPort m) ++ Owner m ++
  be_bytes 1 (Z.of_nat (length (Channels m))) ++
  concat (map (λ c, be_bytes 4 (Z.of_N c)) (Channels m)) ++
  be_bytes 1 (Z.of_nat (length (Services m))) ++
  concat (map encode_service (Services m)).

(** The first [n] chunks of [k] bytes of [b], and what follows them. *)
Fixpoint chunks (n k : nat) (b : bytes) : list bytes * bytes :=
  match n with
  | O => ([], b)
  | S n' => let '(cs, rest) := chunks n' k (drop k b) in (take k b :: cs, rest)
  end.

Definition Decode (b : bytes) : AddressMsg :=
  let nchan := Z.to_nat (be_value (take 1 (drop 54 b))) in
  let '(chans, rest) := chunks nchan 4 (drop 55 b) in
  let nsvc := Z.to_nat (be_value (take 1 rest)) in
  let '(svcs, _) := chunks nsvc 6 (drop 1 rest) in
  {| Time := be_value (take 4 b);
     Addr := take 16 (drop 4 b);
     AddrPort := be_value (take 2 (drop 20 b));
     Owner := take 32 (drop 22 b);
     Channels := map (λ c, Z.to_N (be_value c)) chans;
     Services := map (λ s, {| svc_Tag := Z.to_N (be_value (take 4 s));
                              svc_Port := be_value (drop 4 s) |}) svcs |}.

(** A stand-in for a signature: 64 bytes that depend on key and payload. *)
Definition sign (key : KeyPair) (payload : bytes) : bytes :=
  let sum := fold_left (λ acc x, acc + Z_of_byte x) (Priv key ++ payload) 0 in
  be_bytes 64 sum.

Definition header (channel tag : N) (pub sig : bytes) : bytes :=
  be_bytes 4 (Z.of_N channel) ++ be_bytes 4 (Z.of_N tag) ++ pub ++ sig.

(** The four characters of a tag. *)
Definition tag_string (c : N) : string := string_of_list_byte (be_bytes 4 (Z.of_N c)).

(** The number that a text of decimal digits reads as. *)
Fixpoint digits_value (acc : Z) (s : string) : option Z :=
  match s with
  | EmptyString => Some acc
  | String c rest =>
      let n := Ascii.N_of_ascii c in
      if decide (48 <= n <= 57)%N
      then digits_value (10 * acc + Z.of_N (n - 48)) rest
      else None
  end.

Fixpoint skip_spaces (s : string) : string :=
  match s with
  | String c rest => if Ascii.eqb c Ascii.Space then skip_spaces rest else s
  | EmptyString => s
  end.

Fixpoint drop_spaces_end (s : string) : string :=
  match s with
  | EmptyString => EmptyString
  | String c rest =>
      match drop_spaces_end rest with
      | EmptyString => if Ascii.eqb c Ascii.Space then EmptyString
                       else String c EmptyString
      | rest' => String c rest'
      end
  end.

(** Digits with a sign or none. *)
Definition signed_value (s : string) : option Z :=
  match s with
  | EmptyString => None
  | String c rest =>
      let n := Ascii.N_of_ascii c in
      if decide (n = 45)%N then          (* minus *)
        match rest with
        | EmptyString => None
        | _ => Z.opp <$> digits_value 0 rest
        end
      else if decide (n = 43)%N then     (* plus *)
        match rest with
        | EmptyString => None
        | _ => digits_value 0 rest
        end
      else digits_value 0 s
  end.

(** A reference engine for the texts of four characters that tags are:
    decimal digits with a sign or none, between spaces or not, are stored
    as their number, and every other text is stored as it is.  (The
    engine reads texts with a fraction or an exponent, and other blanks
    than the space, as numbers too; this instance keeps them as text.) *)
Definition affinity (s : string) : sql_value :=
  match signed_value (drop_spaces_end (skip_spaces s)) with
  | Some z => SqlInteger z
  | None => SqlText s
  end.

(** The nearest floating-point number of 64 bits to an integer (53 bits of
    mantissa, a tie goes to the even one). *)
Definition round53 (z : Z) : Z :=
  let a := Z.abs z in
  if decide (a < 2 ^ 53) then z
  else
    let e := Z.log2 a - 52 in
    let q := a / 2 ^ e in
    let r := a mod 2 ^ e in
    let half := 2 ^ (e - 1) in
    let q' := if decide (r < half) then q
              else if decide (half < r) then q + 1
              else if Z.even q then q else q + 1 in
    Z.sgn z * (q' * 2 ^ e).

#[export] Instance RefGossip : Gossip := {|
  Address_ToBytes := ToBytes;
  AddressFromBytes := FromBytes;
  AddrMsgMinSize := 56;
  AddrMsg_Encode := Encode;
  DecodeAddrMsg := Decode;
  ChannelNode := 0x6e6f6465;   (* "node" *)
  TagAddress := 0x41646472;    (* "Addr" *)
  ServiceCore := 0x436f7265;   (* "Core" *)
  UnixToDoge := λ t, t - 1386325540;
  EncodeMessage := λ channel tag key payload,
    header channel tag (Pub key) (sign key payload) ++ payload;
  Msg_Signature := λ msg, take 64 (drop 40 msg);
  Msg_Header := λ msg, take 104 msg;
  ReEncodeMessage := λ channel tag pub sig _, header channel tag pub sig;
  Tag4CC_String := tag_string;
  integer_affinity := affinity;
  float_sum := λ a b, round53 (round53 a + round53 b)
|}.

End Ref.

(** ** Example databases *)

Definition example_key : bytes := repeat x01 32.
Definition example_addr : Address :=
  {| Host := repeat x00 10 ++ [xff; xff; xcb; x00; x71; x05]; Port := 42069 |}.

Definition example_node_row (dayc : Z) : NodeRow :=
  {| node_oid := 1; node_address := Ref.ToBytes example_addr; node_time := 0;
     node_owner := repeat x02 32; node_payload := [x0a]; node_sig := repeat x03 64;
     node_dayc := dayc |}.

Definition example_core_row (dayc : Z) : CoreRow :=
  {| core_time := 0; core_services := 1; core_isnew := false; core_dayc := dayc |}.

(** The day-rollover scenario: [dayc = 5], [last = 1000], one core node and
    one overlay node that expire at day-count 5, no channel. *)
Definition db_rollover : DB :=
  {| config := [{| cfg_dayc := 5; cfg_last := 1000 |}];
     announce := [];
     channels := ∅;
     core := {[ Ref.ToBytes example_addr := example_core_row 5 ]};
     node := {[ example_key := example_node_row 5 ]};
     chan := ∅ |}.

(** A short life of a store: a node is announced, a day passes, and the
    node is seen again. *)
Definition example_calls : list store_call :=
  [CallAddNetNode example_key example_addr 0 (repeat x02 32) [] [x0a] (repeat x03 64);
   CallTrimNodes 1001;
   CallUpdateNetTime example_key].

(** An announcement of the example node with a new payload and two
    channels, and the same announcement once more. *)
Definition example_AddNetNode (payload : bytes) (db : DB) : (bool * option error) * DB :=
  AddNetNode (H := Ref.RefGossip) example_key example_addr 7 (repeat x02 32)
    [0x43686174%N; 0x50696e67%N] payload (repeat x04 64) db.

(** ** An example service *)

Definition example_nodeKey : KeyPair :=
  {| Priv := repeat x05 32 ++ example_key; Pub := example_key |}.

(** The service of the cold-start scenario: public address
    203.0.113.5:42069. *)
Definition example_ns : NetService :=
  New (H := Ref.RefGossip) [] {| Host := [xcb; x00; x71; x05]; Port := 42069 |}
    (repeat x02 32) example_nodeKey false.

(** A store whose announcement is the one [example_ns] would make at time
    100, valid until 2000 and signed with [sig]. *)
Definition db_announced (sig : bytes) : DB :=
  {| config := [{| cfg_dayc := 1; cfg_last := 1000 |}];
     announce := [{| ann_payload := Ref.Encode (set_Time 100 (nextAnnounce example_ns));
                     ann_sig := sig; ann_time := 2000 |}];
     channels := ∅; core := ∅; node := ∅; chan := ∅ |}.

(** [Accept] fails because [Stop] closed the socket. *)
Definition shutdown_event : accept_event :=
  {| ev_stopped := true; ev_result := AcceptFailed ErrClosed; ev_session := 0%nat |}.

(** The actions in which [updateAnnounce] may sign an announcement without
    a message from [addrChange]: its start and the rounds of the timer. *)
Definition start_or_timer (a : action) : bool :=
  match a with
  | ActAnnounceStart _ _ => true
  | ActAnnounceSelect CaseTimer _ => true
  | _ => false
  end.

(** ** Tactics *)

(** Closes a goal of [keeps_nodes] once the statement is unfolded: the
    result is either an error or a database with the same two tables. *)
Ltac keeps_by_inversion :=
  let E := fresh "E" in
  intros E; first [discriminate E | inversion E; subst; split; reflexivity].

(** Reads a field of a world that was just updated. *)
Ltac world_simpl :=
  cbn [w_ns w_db w_heap w_pc w_signed with_ns with_heap with_db with_pc
       addrChange set_newPeers set_listen set_socket set_stopping
       governor_stop NetService_Stop].

(** * More of the store *)

(** ** The calendar day *)

Definition SecondsPerDay : Z := 24 * 60 * 60.

(** [unixDayStamp]: the number of whole days since the unix epoch; [now] is
    [time.Now().Unix()], and the division of Go truncates towards zero. *)
Definition unixDayStamp (now : Z) : Z := now ÷ SecondsPerDay.

(** ** Statistics and lists *)

(** [CoreStats]: the one row of counts the query returns. *)
Definition CoreStats (db : DB) : (Z * Z * option error) * DB :=
  let '((mapSize, newNodes), err, db') :=
    doTxn (0, 0)
      (λ db, inr ((Z.of_nat (size (core db)),
                   Z.of_nat (size (filter (λ kv, core_isnew kv.2 = true) (core db)))), db))
      db in
  ((mapSize, newNodes, err), db').

(** [NetStats]: [SELECT COUNT(key) AS num FROM node]. *)
Definition NetStats (db : DB) : (Z * option error) * DB :=
  doTxn 0 (λ db, inr (Z.of_nat (size (node db)), db)) db.

(** [GetChannels]: [SELECT chan FROM channels], every row scanned; the
    order of the rows is the engine's.  The rows are the tags that
    [AddChannel] wrote, so the scan into a [uint32] does not fail. *)
Definition GetChannels (db : DB) : (list N * option error) * DB :=
  doTxn [] (λ db, inr ((map_to_list (channels db)).*1, db)) db.

(** Modelled from the spec: [spec.NodeRecord], whose declaration is not
    among the sources; [ChooseNetNodeMsg] fills its key, payload and
    signature. *)
Record NodeRecord := { rec_PubKey : bytes; rec_Payload : bytes; rec_Sig : bytes }.

Definition NodeRecord_zero : NodeRecord :=
  {| rec_PubKey := []; rec_Payload := []; rec_Sig := [] |}.

(** [ChooseNetNodeMsg]: [SELECT key,payload,sig FROM node WHERE oid IN
    (SELECT oid FROM node ORDER BY RANDOM() LIMIT 1)]. *)
Definition ChooseNetNodeMsg_work (seed : nat) : Tx NodeRecord := λ db,
  match random_row seed (map_to_list (node db)) with
  | None => inl NotFoundError
  | Some kv =>
      inr ({| rec_PubKey := kv.1; rec_Payload := node_payload kv.2;
              rec_Sig := node_sig kv.2 |}, db)
  end.

Definition ChooseNetNodeMsg (seed : nat) (db : DB) : (NodeRecord * option error) * DB :=
  doTxn NodeRecord_zero (ChooseNetNodeMsg_work seed) db.

(** ** The store trimmer *)

(** A line of the log of [StoreTrimmer.Run]. *)
Inductive trimmer_log : Type :=
| LogTrimError (err : error)           (* [store] TrimNodes: %v *)
| LogAdvanced                          (* day-count has advanced. *)
| LogTrimmed (remCore remNode : Z).    (* trimmed %v core nodes, %d network nodes *)

(** [StoreTrimmer.Run]: [ticks] are the readings of the clock at the calls
    of [TrimNodes], one for each sleep of a minute that ends without the
    service stopping; the loop returns when the list is over. *)
Fixpoint StoreTrimmer_Run (ticks : list Z) (db : DB) : list trimmer_log * DB :=
  match ticks with
  | [] => ([], db)
  | now :: rest =>
      let '((advanced, remCore, remNode, err), db) := TrimNodes (unixDayStamp now) db in
      let lines :=
        match err with
        | Some e => [LogTrimError e]
        | None => (if advanced then [LogAdvanced] else []) ++ [LogTrimmed remCore remNode]
        end in
      let '(more, db) := StoreTrimmer_Run rest db in
      (lines ++ more, db)
  end.

(** The number of changes of day in a sequence of days that follows the
    day [last]. *)
Fixpoint day_changes (last : Z) (days : list Z) : nat :=
  match days with
  | [] => O
  | day :: rest => ((if decide (day ≠ last) then 1 else 0) + day_changes day rest)%nat
  end.

(** The lines of the log that say the day-count has advanced, and those
    that report an error. *)
Definition is_LogAdvanced (l : trimmer_log) : bool :=
  match l with LogAdvanced => true | _ => false end.

Definition is_LogTrimError (l : trimmer_log) : bool :=
  match l with LogTrimError _ => true | _ => false end.

(** ** Rowids *)

(** The rows of [chan] name their node by its rowid: no two rows of [node]
    have the same. *)
Definition rowid_unique (db : DB) : Prop :=
  ∀ k1 k2 r1 r2,
    node db !! k1 = Some r1 → node db !! k2 = Some r2 →
    node_oid r1 = node_oid r2 → k1 = k2.

(** ** The retries of [doTxn] *)

(** The result codes of the engine that the store looks at. *)
Inductive sqlite3_code : Type := ErrBusy | ErrLocked | ErrOtherCode.

(** An error of [Begin], of the work or of [Commit]: a [sqlite3.Error]
    with its code, or an error of another type. *)
Inductive sql_error : Type :=
| Sqlite3Error (code : sqlite3_code)
| OtherError (e : error).

(** [IsConflict]. *)
Definition IsConflict (err : sql_error) : bool :=
  match err with
  | Sqlite3Error ErrBusy | Sqlite3Error ErrLocked => true
  | _ => false
  end.

(** What the engine answers to one round of the loop of [doTxn]: the
    first call that fails, or a commit. *)
Inductive attempt : Type :=
| BeginError (err : sql_error)
| WorkError (err : sql_error)
| CommitError (err : sql_error)
| Committed.

Definition attempt_conflict (a : attempt) : bool :=
  match a with
  | BeginError err | WorkError err | CommitError err => IsConflict err
  | Committed => false
  end.

(** What [doTxn] returns: [nil], the error of the work, or [dbErr(err,
    where)]. *)
Inductive txn_return : Type :=
| ReturnNil
| ReturnErr (err : sql_error)
| ReturnDbErr (err : sql_error) (where_ : string).

(** A conflict in [Begin] or in [Commit], after which the connection is
    free again. *)
Definition retry_conflict (a : attempt) : bool :=
  match a with
  | BeginError err | CommitError err => IsConflict err
  | WorkError _ | Committed => false
  end.

(** What [doTxn] returns when it returns from a round with this answer. *)
Definition round_return (name : string) (a : attempt) : txn_return :=
  match a with
  | BeginError err => ReturnDbErr err ("cannot begin transaction: " ++ name)
  | WorkError err => ReturnErr err
  | CommitError err => ReturnDbErr err ("cannot commit: " ++ name)
  | Committed => ReturnNil
  end.

(** How a call of [doTxn] ends: it returns, or it waits in [Begin] and
    never returns. *)
Inductive txn_end : Type :=
| TxnReturns (r : txn_return)
| TxnBlocks.

(** The loop of [doTxn], from a value of [limit] on: [answers] are the
    answers of the engine to the successive rounds; the result is how the
    call ends and the number of calls of [Sleep], of 250 ms each.  There
    is no result if the answers end before the loop does.  [limit] is an
    [int] that only counts down from 120.

    [NewSQLiteStore] limits the pool to one connection.  A transaction
    gives it back when [Begin] or [Commit] fails, but the rollback of one
    whose work failed is deferred to the return of [doTxn]: when the loop
    goes on after a conflict in the work, the connection is still taken,
    and [Begin] waits for it for ever. *)
Fixpoint doTxn_loop (name : string) (limit : Z) (answers : list attempt)
    : option (txn_end * nat) :=
  match answers with
  | [] => None
  | a :: rest =>
      let again (err : sql_error) (ret : txn_return) (next : option (txn_end * nat)) :=
        if IsConflict err then
          let limit := limit - 1 in
          if decide (limit ≠ 0) then
            match next with
            | Some (r, sleeps) => Some (r, S sleeps)
            | None => None
            end
          else Some (TxnReturns ret, 1%nat)
        else Some (TxnReturns ret, 0%nat) in
      match a with
      | BeginError err =>
          again err (ReturnDbErr err ("cannot begin transaction: " ++ name))
            (doTxn_loop name (limit - 1) rest)
      | WorkError err => again err (ReturnErr err) (Some (TxnBlocks, 0%nat))
      | CommitError err =>
          again err (ReturnDbErr err ("cannot commit: " ++ name))
            (doTxn_loop name (limit - 1) rest)
      | Committed => Some (TxnReturns ReturnNil, 0%nat)
      end
  end.

Definition doTxn_retry (name : string) (answers : list attempt)
    : option (txn_end * nat) :=
  doTxn_loop name 120 answers.

(** ** Queues *)

(** A session whose queue has received [n] more copies of [msg]. *)
Definition peer_queued (msg : RawMessage) (n : nat) (p : peerConn) : peerConn :=
  {| pc_conn := pc_conn p; pc_peerPub := pc_peerPub p;
     pc_send := {| ch_buf := ch_buf (pc_send p) ++ repeat msg n;
                   ch_cap := ch_cap (pc_send p) |} |}.

(** A handler that listens on [channel] and whose queue has room. *)
Definition handler_takes (channel : N) (hc : handlerConn) : Prop :=
  hc_channel hc = channel ∧ (length (ch_buf (hc_send hc)) < ch_cap (hc_send hc))%nat.

(** ** Accepting *)


(** * The network map of the crawler (package [dogenet]) *)

Module dogenet.

Record NodeInfo := {
  Time : N;       (* uint32 *)
  Services : N    (* msg.LocalNodeServices *)
}.

Record NetMapState := {
  Nodes : gmap string NodeInfo;   (* node address -> timestamp, services *)
  NewNodes : list string;         (* queue of newly discovered nodes *)
  SeedNodes : list string         (* queue of seed nodes *)
}.

Record NetMap := {
  state : NetMapState;
  sample : list string
}.

Definition NewNetMap : NetMap :=
  {| state := {| Nodes := ∅; NewNodes := []; SeedNodes := [] |}; sample := [] |}.

Definition Stats (t : NetMap) : Z * Z :=
  (Z.of_nat (size (Nodes (state t))), Z.of_nat (length (NewNodes (state t)))).

(** [AddNode] reads and writes the package variable [Map], whatever its
    receiver is; [key] is the string it makes of the address and the
    port. *)
Definition AddNode (key : string) (time services : N) (Map : NetMap) : NetMap :=
  let old := Nodes (state Map) !! key in
  let nodes :=
    match old with
    | Some info =>
        if decide (Time info < time)%N
        then <[key := {| Time := time; Services := services |}]> (Nodes (state Map))
        else Nodes (state Map)
    | None => <[key := {| Time := time; Services := services |}]> (Nodes (state Map))
    end in
  let queue :=
    match old with
    | Some _ => NewNodes (state Map)
    | None => NewNodes (state Map) ++ [key]
    end in
  {| state := {| Nodes := nodes; NewNodes := queue;
                 SeedNodes := SeedNodes (state Map) |};
     sample := sample Map |}.

Definition AddNewNode (key : string) (Map : NetMap) : NetMap :=
  {| state := {| Nodes := Nodes (state Map);
                 NewNodes := NewNodes (state Map) ++ [key];
                 SeedNodes := SeedNodes (state Map) |};
     sample := sample Map |}.

(** [pluckRandom]; [idx] is what [rand.Intn(len)] returns.  On an empty
    array [rand.Intn] panics, and there is no result. *)
Definition pluckRandom (idx : nat) (arr : list string) : option (list string * string) :=
  match arr !! idx, last arr with
  | Some val, Some z => Some (take (length arr - 1) (<[idx := z]> arr), val)
  | _, _ => None
  end.

(** A call of [AddNode]: key, time and services. *)
Definition AddNode_calls (calls : list (string * N * N)) (Map : NetMap) : NetMap :=
  fold_left (λ m '(key, time, services), AddNode key time services m) calls Map.

End dogenet.

(** * The keys of the node ([main]) *)

(** [encoding/hex]: the value of a hexadecimal digit. *)
Definition fromHexChar (c : Ascii.ascii) : option N :=
  let n := Ascii.N_of_ascii c in
  if decide (48 <= n <= 57)%N then Some (n - 48)%N
  else if decide (97 <= n <= 102)%N then Some (n - 97 + 10)%N
  else if decide (65 <= n <= 70)%N then Some (n - 65 + 10)%N
  else None.

(** [hex.DecodeString]: two digits make a byte; a character that is no
    digit, or a digit left over, is an error. *)
Fixpoint hex_DecodeString (s : string) : error + bytes :=
  match s with
  | EmptyString => inr []
  | String a EmptyString =>
      match fromHexChar a with
      | Some _ => inl (ErrText "encoding/hex: odd length hex string")
      | None => inl (ErrText "encoding/hex: invalid byte")
      end
  | String a (String b rest) =>
      match fromHexChar a, fromHexChar b with
      | Some x, Some y =>
          match hex_DecodeString rest with
          | inr bs => inr (default x00 (Byte.of_N (16 * x + y)) :: bs)
          | inl e => inl e
          end
      | _, _ => inl (ErrText "encoding/hex: invalid byte")
      end
  end.

(** A string of hexadecimal digits. *)
Fixpoint is_hex (s : string) : bool :=
  match s with
  | EmptyString => true
  | String c rest =>
      match fromHexChar c with Some _ => is_hex rest | None => false end
  end.

(** [os.Getenv]: the empty string for a variable that is not set. *)
Definition Getenv (name : string) (env : gmap string string) : string :=
  default EmptyString (env !! name).

Section Keys.
(** [dnet.KeyPairFromPrivKey]. *)
Variable KeyPairFromPrivKey : bytes → KeyPair.

(** [keysFromEnv]: the exit code of [os.Exit], or the keys; and the
    environment it leaves. *)
Definition keysFromEnv (env : gmap string string)
    : (Z + KeyPair * bytes) * gmap string string :=
  let nodeHex := Getenv "KEY" env in
  let env := <["KEY" := EmptyString]> env in (* don't leave the key in the environment *)
  if decide (nodeHex = EmptyString) then (inl 3, env)
  else
    match hex_DecodeString nodeHex with
    | inl err => (inl 3, env)
    | inr nodeKey =>
        if decide (length nodeKey ≠ 64%nat) then (inl 3, env)
        else
          let idenHex := Getenv "IDENT" env in
          if decide (idenHex = EmptyString) then (inl 3, env)
          else
            match hex_DecodeString idenHex with
            | inl err => (inl 3, env)
            | inr idenPub =>
                if decide (length idenPub ≠ 32%nat) then (inl 3, env)
                else (inr (KeyPairFromPrivKey nodeKey, idenPub), env)
            end
    end.

End Keys.

(** * The version message (package [msg]) *)

Module msg.

(** Go's conversions between signed and unsigned integers of one size. *)
Definition uint32 (z : Z) : Z := z mod 2 ^ 32.
Definition int32 (z : Z) : Z := (z + 2 ^ 31) mod 2 ^ 32 - 2 ^ 31.
Definition uint64 (z : Z) : Z := z mod 2 ^ 64.
Definition int64 (z : Z) : Z := int64_wrap z.

(** The encoder and the decoder of the package, which this file uses and
    does not define: each [enc_] function is what the method of the
    encoder appends to its buffer, each [dec_] function what the method of
    the decoder reads and the bytes it leaves.  [EncodeNetAddr] and
    [DecodeNetAddr] are the two at version 0. *)
Class Codec := {
  NetAddr : Type;
  NetAddr_zero : NetAddr;
  enc_uint32le : Z → bytes;
  dec_uint32le : bytes → Z * bytes;
  enc_uint64le : Z → bytes;
  dec_uint64le : bytes → Z * bytes;
  enc_var_string : string → bytes;
  dec_var_string : bytes → string * bytes;
  enc_bool : bool → bytes;
  dec_bool : bytes → bool * bytes;
  EncodeNetAddr : NetAddr → bytes;
  DecodeNetAddr : bytes → NetAddr * bytes
}.

(** The decoder reads back what the encoder wrote, and leaves what
    follows. *)
Record Codec_laws `{Codec} : Prop := {
  uint32le_law : ∀ x rest,
    0 <= x < 2 ^ 32 → dec_uint32le (enc_uint32le x ++ rest) = (x, rest);
  uint64le_law : ∀ x rest,
    0 <= x < 2 ^ 64 → dec_uint64le (enc_uint64le x ++ rest) = (x, rest);
  var_string_law : ∀ s rest, dec_var_string (enc_var_string s ++ rest) = (s, rest);
  bool_law : ∀ b rest, dec_bool (enc_bool b ++ rest) = (b, rest);
  NetAddr_law : ∀ a rest, DecodeNetAddr (EncodeNetAddr a ++ rest) = (a, rest)
}.

Section Version.
Context `{Codec}.

Record VersionMessage := {
  Version : Z;           (* int32: PROTOCOL_VERSION *)
  Services : Z;          (* uint64 *)
  Timestamp : Z;         (* int64: UNIX time in seconds *)
  RemoteAddr : NetAddr;
  (* version ≥ 106 *)
  LocalAddr : NetAddr;
  Nonce : Z;             (* uint64 *)
  Agent : string;
  Height : Z;            (* int32 *)
  (* version ≥ 70001 *)
  Relay : bool
}.

Definition DecodeVersion (payload : bytes) : VersionMessage :=
  let d := payload in
  let '(x, d) := dec_uint32le d in
  let Version := int32 x in
  let '(Services, d) := dec_uint64le d in
  let '(x, d) := dec_uint64le d in
  let Timestamp := int64 x in
  let '(RemoteAddr, d) := DecodeNetAddr d in
  if decide (106 <= Version) then
    let '(LocalAddr, d) := DecodeNetAddr d in
    let '(Nonce, d) := dec_uint64le d in
    let '(Agent, d) := dec_var_string d in
    let '(x, d) := dec_uint32le d in
    let Height := int32 x in
    if decide (70001 <= Version) then
      let '(Relay, d) := dec_bool d in
      {| Version := Version; Services := Services; Timestamp := Timestamp;
         RemoteAddr := RemoteAddr; LocalAddr := LocalAddr; Nonce := Nonce;
         Agent := Agent; Height := Height; Relay := Relay |}
    else
      {| Version := Version; Services := Services; Timestamp := Timestamp;
         RemoteAddr := RemoteAddr; LocalAddr := LocalAddr; Nonce := Nonce;
         Agent := Agent; Height := Height; Relay := false |}
  else
    {| Version := Version; Services := Services; Timestamp := Timestamp;
       RemoteAddr := RemoteAddr; LocalAddr := NetAddr_zero; Nonce := 0;
       Agent := EmptyString; Height := 0; Relay := false |}.

Definition EncodeVersion (version : VersionMessage) : bytes :=
  enc_uint32le (uint32 (Version version)) ++
  enc_uint64le (Services version) ++
  enc_uint64le (uint64 (Timestamp version)) ++
  EncodeNetAddr (RemoteAddr version) ++
  (if decide (106 <= Version version) then
     EncodeNetAddr (LocalAddr version) ++
     enc_uint64le (Nonce version) ++
     enc_var_string (Agent version) ++
     enc_uint32le (uint32 (Height version)) ++
     (if decide (70001 <= Version version) then enc_bool (Relay version) else [])
   else []).

(** The fields are of their Go types. *)
Definition well_typed (v : VersionMessage) : Prop :=
  - 2 ^ 31 <= Version v < 2 ^ 31 ∧ 0 <= Services v < 2 ^ 64 ∧
  - 2 ^ 63 <= Timestamp v < 2 ^ 63 ∧ 0 <= Nonce v < 2 ^ 64 ∧
  - 2 ^ 31 <= Height v < 2 ^ 31.

(** The message with the fields that its version does not have at their
    zero values. *)
Definition of_its_version (v : VersionMessage) : VersionMessage :=
  if decide (106 <= Version v) then
    {| Version := Version v; Services := Services v; Timestamp := Timestamp v;
       RemoteAddr := RemoteAddr v; LocalAddr := LocalAddr v; Nonce := Nonce v;
       Agent := Agent v; Height := Height v;
       Relay := if decide (70001 <= Version v) then Relay v else false |}
  else
    {| Version := Version v; Services := Services v; Timestamp := Timestamp v;
       RemoteAddr := RemoteAddr v; LocalAddr := NetAddr_zero; Nonce := 0;
       Agent := EmptyString; Height := 0; Relay := false |}.

End Version.

End msg.

(** ** A small instance of the codec *)

(** Integers as little-endian bytes, a string as its characters, each
    after a byte 1, up to a byte 0, a boolean as a byte, and a network
    address as a port of four bytes.  The definitions run on concrete
    messages with it. *)
Module RefCodec.

(** [n] bytes, least significant first. *)
Fixpoint le_bytes (n : nat) (z : Z) : bytes :=
  match n with
  | O => []
  | S n' => Ref.byte_of_Z z :: le_bytes n' (z / 256)
  end.

Definition le_value (b : bytes) : Z :=
  foldr (λ x acc, Ref.Z_of_byte x + 256 * acc) 0 b.

Definition dec_le (n : nat) (b : bytes) : Z * bytes := (le_value (take n b), drop n b).

Fixpoint enc_string (s : string) : bytes :=
  match s with
  | EmptyString => [x00]
  | String c rest => x01 :: Ascii.byte_of_ascii c :: enc_string rest
  end.

Fixpoint dec_string (b : bytes) : string * bytes :=
  match b with
  | m :: c :: rest =>
      if decide (m = x01)
      then let '(s, r) := dec_string rest in (String (Ascii.ascii_of_byte c) s, r)
      else (EmptyString, c :: rest)
  | _ :: rest => (EmptyString, rest)
  | [] => (EmptyString, [])
  end.

Definition enc_flag (b : bool) : bytes := [if b then x01 else x00].

Definition dec_flag (b : bytes) : bool * bytes :=
  match b with
  | x :: rest => (bool_decide (x ≠ x00), rest)
  | [] => (false, [])
  end.

#[export] Instance codec : msg.Codec := {|
  msg.NetAddr := bool;
  msg.NetAddr_zero := false;
  msg.enc_uint32le := le_bytes 4;
  msg.dec_uint32le := dec_le 4;
  msg.enc_uint64le := le_bytes 8;
  msg.dec_uint64le := dec_le 8;
  msg.enc_var_string := enc_string;
  msg.dec_var_string := dec_string;
  msg.enc_bool := enc_flag;
  msg.dec_bool := dec_flag;
  msg.EncodeNetAddr := enc_flag;
  msg.DecodeNetAddr := dec_flag
|}.

(** A version message of an old node and one of a new node. *)
Definition old_version : msg.VersionMessage :=
  {| msg.Version := 105; msg.Services := 1; msg.Timestamp := -1;
     msg.RemoteAddr := true; msg.LocalAddr := true; msg.Nonce := 7;
     msg.Agent := "/old/"; msg.Height := 12; msg.Relay := true |}.

Definition new_version : msg.VersionMessage :=
  {| msg.Version := 70015; msg.Services := 1; msg.Timestamp := 1700000000;
     msg.RemoteAddr := true; msg.LocalAddr := false; msg.Nonce := 2 ^ 64 - 1;
     msg.Agent := "/dogenet/"; msg.Height := -1; msg.Relay := true |}.

End RefCodec.

(** * The list of the nodes *)

(** [hex.EncodeToString]: two lower-case digits for a byte. *)
Definition toHexChar (n : N) : Ascii.ascii :=
  Ascii.ascii_of_N (if decide (n < 10)%N then 48 + n else 97 + (n - 10))%N.

Fixpoint hex_EncodeToString (b : bytes) : string :=
  match b with
  | [] => EmptyString
  | x :: rest =>
      String (toHexChar (Byte.to_N x / 16))
        (String (toHexChar (Byte.to_N x mod 16)) (hex_EncodeToString rest))
  end.

(** The method [String] of an address. *)
Class Printing := {
  Address_String : Address → string
}.

(** Modelled from the spec: [spec.CoreNode], [spec.NetNode] and
    [spec.NodeListRes], whose declarations are not among the sources, with
    the fields that [coreNodeList], [netNodeList] and [NodeList] fill. *)
Record CoreNode := { cn_Address : string; cn_Time : Z; cn_Services : Z }.

Record NetNode := {
  nn_PubKey : string;
  nn_Address : string;
  nn_Time : Z;
  nn_Channels : list string;
  nn_Identity : string
}.

Record NodeListRes := { res_Core : list CoreNode; res_Net : list NetNode }.

Section NodeList.
Context `{Gossip} `{Printing}.

(** [coreNodeList]: a row whose address does not decode is logged and
    left out. *)
Definition core_entry (kv : bytes * CoreRow) : option CoreNode :=
  match AddressFromBytes kv.1 with
  | inl _ => None
  | inr s_adr =>
      Some {| cn_Address := Address_String s_adr; cn_Time := core_time kv.2;
              cn_Services := core_services kv.2 |}
  end.

Definition coreNodeList : Tx (list CoreNode) := λ db,
  inr (omap core_entry (map_to_list (core db)), db).

(** [netNodeList]: the address, the channels and the owner are those of
    the payload. *)
Definition net_entry (kv : bytes * NodeRow) : NetNode :=
  let amsg := DecodeAddrMsg (node_payload kv.2) in
  let addr := {| Host := Addr amsg; Port := AddrPort amsg |} in
  {| nn_PubKey := hex_EncodeToString kv.1;
     nn_Address := Address_String addr;
     nn_Time := node_time kv.2;
     nn_Channels := map Tag4CC_String (Channels amsg);
     nn_Identity := hex_EncodeToString (Owner amsg) |}.

Definition netNodeList : Tx (list NetNode) := λ db,
  inr (map net_entry (map_to_list (node db)), db).

Definition NodeList (db : DB) : (NodeListRes * option error) * DB :=
  doTxn {| res_Core := []; res_Net := [] |}
    (core ← coreNodeList;
     net ← netNodeList;
     tx_ret {| res_Core := core; res_Net := net |}) db.

End NodeList.

(** * More examples *)

(** Four rounds of the trimmer: two on day 1000, two on day 1001. *)
Definition example_ticks : list Z := [86400000; 86460000; 86486400; 86490000].

(** An engine that is busy at the start of every transaction, and one
    that is busy once, at a statement of the work. *)
Definition example_busy : list attempt := repeat (BeginError (Sqlite3Error ErrBusy)) 120.

Definition example_busy_work : list attempt :=
  WorkError (Sqlite3Error ErrBusy) :: repeat Committed 119.

(** A session of a handler and one of a peer, on the connection 3. *)
Definition example_handler : handlerConn :=
  {| hc_conn := 3%nat; hc_channel := 0x43686174%N;
     hc_send := {| ch_buf := []; ch_cap := 1%nat |} |}.

Definition example_peer : peerConn :=
  {| pc_conn := 3%nat; pc_peerPub := example_key;
     pc_send := {| ch_buf := []; ch_cap := 1%nat |} |}.
(** * Properties of the store *)

(** ** Integers *)

Lemma int64_wrap_in_range (z : Z) : in_int64 z → int64_wrap z = z.
Proof.
  unfold in_int64, int64_wrap, int64_min, int64_max. intros Hz.
  rewrite Z.mod_small by lia. lia.
Qed.

Lemma int64_add_succ (dayc : Z) :
  int64_min <= dayc < int64_max → int64_add dayc 1 = dayc + 1.
Proof.
  intros Hd. apply int64_wrap_in_range.
  unfold in_int64, int64_min, int64_max in *. lia.
Qed.

(** ** Errors *)

Lemma errors_Is_refl (e : error) : errors_Is e e = true.
Proof. unfold errors_Is. now apply bool_decide_eq_true. Qed.

Lemma errors_Is_true (e target : error) : errors_Is e target = true ↔ e = target.
Proof. unfold errors_Is. apply bool_decide_eq_true. Qed.

(** ** Transactions *)

Lemma doTxn_rollback {A} (zero : A) (work : Tx A) (db : DB) (e : error) :
  work db = inl e → doTxn zero work db = ((zero, Some e), db).
Proof. unfold doTxn. now intros ->. Qed.

Lemma doTxn_commit {A} (zero : A) (work : Tx A) (db db' : DB) (a : A) :
  work db = inr (a, db') → doTxn zero work db = ((a, None), db').
Proof. unfold doTxn. now intros ->. Qed.

(** A failed transaction leaves the database as it was. *)
Lemma doTxn_error_unchanged {A} (zero : A) (work : Tx A) (db db' : DB) (a : A) (e : error) :
  doTxn zero work db = ((a, Some e), db') → db' = db ∧ a = zero.
Proof. unfold doTxn. destruct (work db) as [e'|[a' db'']]; intros [= <- <- <-]; auto. Qed.

(** ** [TrimNodes] *)

(** What the work of [TrimNodes] computes once [config] has a row. *)
Lemma TrimNodes_work_advance (today : Z) (db : DB) (dayc last : Z) (rest : list ConfigRow) :
  config db = {| cfg_dayc := dayc; cfg_last := last |} :: rest →
  last ≠ today →
  let dayc' := int64_add dayc 1 in
  let row' := {| cfg_dayc := dayc'; cfg_last := today |} in
  TrimNodes_work today db =
    inr ((true,
          Z.of_nat (size (filter (λ kv, core_dayc kv.2 < dayc') (core db))),
          Z.of_nat (size (filter (λ kv : N * Z, kv.2 < dayc') (channels db)))),
         {| config := row' :: map (λ _, row') rest;
            announce := announce db;
            channels := filter (λ kv : N * Z, ¬ kv.2 < dayc') (channels db);
            core := filter (λ kv, ¬ core_dayc kv.2 < dayc') (core db);
            node := filter (λ kv, ¬ node_dayc kv.2 < dayc') (node db);
            chan := chan db |}).
Proof.
  intros Hcfg Hne. unfold TrimNodes_work, mbind, Tx_bind, tx_bind, tx_wrap, query_config.
  rewrite Hcfg. cbn [cfg_dayc cfg_last].
  destruct (decide (last ≠ today)) as [_|]; [|contradiction].
  unfold exec_update_config, tx_modify, exec_delete_core, exec_delete_node,
    exec_delete_channels, tx_ret, set_config, set_core, set_node, set_channels.
  cbn. rewrite Hcfg. reflexivity.
Qed.

Lemma TrimNodes_work_same_day (today : Z) (db : DB) (dayc : Z) (rest : list ConfigRow) :
  config db = {| cfg_dayc := dayc; cfg_last := today |} :: rest →
  TrimNodes_work today db = inr ((false, 0, 0), db).
Proof.
  intros Hcfg. unfold TrimNodes_work, mbind, Tx_bind, tx_bind, tx_wrap, query_config.
  rewrite Hcfg. cbn [cfg_dayc cfg_last].
  destruct (decide (today ≠ today)) as [Hne|_]; [now destruct Hne|reflexivity].
Qed.

(** Without a [config] row the first statement fails and nothing changes. *)
Lemma TrimNodes_no_config (today : Z) (db : DB) :
  config db = [] →
  TrimNodes today db =
    ((false, 0, 0, Some (Errorf "TrimNodes: SELECT config: %v" ErrNoRows)), db).
Proof.
  intros Hcfg. unfold TrimNodes, doTxn, TrimNodes_work, mbind, Tx_bind, tx_bind, tx_wrap, query_config.
  now rewrite Hcfg.
Qed.

(** C2: [TrimNodes] does nothing on the day stored in [last]; on another day
    it adds one to [dayc], stores the day in [last] and deletes from
    [core], [node] and [channels] exactly the rows whose day-count is
    below the new [dayc], as one committed transaction that touches no
    other table.  The new counter is [dayc + 1] for every [int64] but the
    largest, after which the addition of Go wraps around to the
    smallest. *)
Theorem TrimNodes_day_counter (today : Z) (db : DB) (dayc last : Z) (rest : list ConfigRow) :
  config db = {| cfg_dayc := dayc; cfg_last := last |} :: rest →
  (last = today → TrimNodes today db = ((false, 0, 0, None), db)) ∧
  (last ≠ today →
     ∃ (remCore remNode : Z) (db' : DB) (newdayc : Z),
       newdayc = int64_add dayc 1 ∧
       (int64_min <= dayc < int64_max → newdayc = dayc + 1) ∧
       (dayc = int64_max → newdayc = int64_min) ∧
       TrimNodes today db = ((true, remCore, remNode, None), db') ∧
       query_config db' = inr ((newdayc, today), db') ∧
       (∀ k r, core db' !! k = Some r ↔
               core db !! k = Some r ∧ ¬ core_dayc r < newdayc) ∧
       (∀ k r, node db' !! k = Some r ↔
               node db !! k = Some r ∧ ¬ node_dayc r < newdayc) ∧
       (∀ k d, channels db' !! k = Some d ↔
               channels db !! k = Some d ∧ ¬ d < newdayc) ∧
       announce db' = announce db ∧ chan db' = chan db).
Proof.
  intros Hcfg. split.
  - intros ->. unfold TrimNodes, doTxn.
    now rewrite (TrimNodes_work_same_day _ _ _ _ Hcfg).
  - intros Hne. unfold TrimNodes, doTxn.
    rewrite (TrimNodes_work_advance _ _ _ _ _ Hcfg Hne).
    eexists _, _, _, (int64_add dayc 1). split; [reflexivity|].
    split; [apply int64_add_succ|].
    split; [intros ->; vm_compute; reflexivity|].
    split; [reflexivity|].
    cbn [config core node channels announce chan].
    split; [reflexivity|].
    split; [|split; [|split; [|split; reflexivity]]].
    + intros k r. rewrite map_lookup_filter_Some. reflexivity.
    + intros k r. rewrite map_lookup_filter_Some. reflexivity.
    + intros k d. rewrite map_lookup_filter_Some. reflexivity.
Qed.

(** The second call on the same day finds [last = today] and does nothing. *)
Lemma TrimNodes_twice_same_day (today : Z) (db db1 : DB) (r1 : bool * Z * Z * option error) :
  config db ≠ [] →
  TrimNodes today db = (r1, db1) →
  TrimNodes today db1 = ((false, 0, 0, None), db1).
Proof.
  intros Hne Hrun.
  destruct (config db) as [|[dayc last] rest] eqn:Hcfg; [contradiction|].
  assert (∃ d rest', config db1 = {| cfg_dayc := d; cfg_last := today |} :: rest')
    as (d & rest' & Hcfg1).
  { unfold TrimNodes, doTxn in Hrun.
    destruct (decide (last = today)) as [->|Hd].
    - rewrite (TrimNodes_work_same_day _ _ _ _ Hcfg) in Hrun.
      injection Hrun as <- <-. eauto.
    - rewrite (TrimNodes_work_advance _ _ _ _ _ Hcfg Hd) in Hrun.
      injection Hrun as <- <-. cbn [config]. eauto. }
  unfold TrimNodes, doTxn. now rewrite (TrimNodes_work_same_day _ _ _ _ Hcfg1).
Qed.

(** The rows a [DELETE ... WHERE dayc < ?] removes and the rows it keeps
    make up the table. *)
Lemma size_filter_split {K V} `{Countable K} (P : K * V → Prop)
    `{!∀ kv, Decision (P kv)} (m : gmap K V) :
  (size (filter P m) + size (filter (λ kv, ¬ P kv) m) = size m)%nat.
Proof.
  rewrite <- (map_filter_union_complement P m) at 3.
  rewrite map_size_disj_union; [reflexivity|].
  apply map_disjoint_filter_complement.
Qed.

(** ** [AddNetNode] *)

Section StoreProperties.
Context `{Gossip}.

Lemma same_but_chan_refl (db : DB) : same_but_chan db db.
Proof. repeat split. Qed.

Lemma same_but_chan_trans (a b c : DB) :
  same_but_chan a b → same_but_chan b c → same_but_chan a c.
Proof. unfold same_but_chan. intuition congruence. Qed.

(** The insertion loop succeeds on a list of tags whose stored values are
    distinct and not in the table for this row yet, and adds exactly these
    values. *)
Lemma insert_channels_inr (oid : Z) (cs : list N) :
  ∀ (db db' : DB) (u : unit),
    insert_channels oid cs db = inr (u, db') →
    NoDup (chan_value <$> cs) ∧
    (∀ c, c ∈ cs → (oid, chan_value c) ∉ chan db) ∧
    same_but_chan db db' ∧
    (∀ x, x ∈ chan db' ↔ (∃ c, c ∈ cs ∧ x = (oid, chan_value c)) ∨ x ∈ chan db).
Proof.
  induction cs as [|c cs IH]; intros db db' u Hrun.
  - destruct u. cbn in Hrun. unfold tx_ret in Hrun. injection Hrun as <-.
    split; [constructor|]. split; [intros c Hc; inversion Hc|].
    split; [apply same_but_chan_refl|].
    intros x. split; [now right|]. intros [(c & Hc & _)|Hx]; [inversion Hc|exact Hx].
  - cbn in Hrun. unfold mbind, Tx_bind, tx_bind, tx_wrap, exec_insert_chan in Hrun.
    destruct (decide ((oid, chan_value c) ∈ chan db)) as [Hin|Hnin]; [discriminate|].
    apply IH in Hrun as (Hnd & Hfresh & Hsame & Hchan).
    cbn [chan set_chan] in Hfresh, Hchan.
    split; [|split; [|split]].
    + cbn [fmap list_fmap]. constructor; [|exact Hnd].
      intros Hc. apply list_elem_of_fmap in Hc as (c' & Heq & Hc').
      apply (Hfresh c' Hc'). rewrite <- Heq.
      apply elem_of_union. left. now apply elem_of_singleton.
    + intros c' Hc'. apply elem_of_cons in Hc' as [->|Hc']; [exact Hnin|].
      intros Hin. apply (Hfresh c' Hc'). apply elem_of_union. now right.
    + destruct Hsame as (? & ? & ? & ? & ?). repeat split; assumption.
    + intros x. rewrite Hchan. split.
      * intros [(c' & Hc' & ->)|Hx].
        -- left. exists c'. split; [apply elem_of_cons; now right|reflexivity].
        -- apply elem_of_union in Hx as [Hx|Hx]; [|now right].
           apply elem_of_singleton in Hx as ->. left. exists c.
           split; [apply elem_of_cons; now left|reflexivity].
      * intros [(c' & Hc' & ->)|Hx].
        -- apply elem_of_cons in Hc' as [->|Hc'].
           ++ right. apply elem_of_union. left. now apply elem_of_singleton.
           ++ left. now exists c'.
        -- right. apply elem_of_union. now right.
Qed.

Lemma insert_channels_total (oid : Z) (cs : list N) :
  ∀ db : DB,
    NoDup (chan_value <$> cs) → (∀ c, c ∈ cs → (oid, chan_value c) ∉ chan db) →
    ∃ db', insert_channels oid cs db = inr (tt, db').
Proof.
  induction cs as [|c cs IH]; intros db Hnd Hfresh.
  - now exists db.
  - cbn [fmap list_fmap] in Hnd. apply NoDup_cons in Hnd as [Hc Hnd].
    cbn. unfold mbind, Tx_bind, tx_bind, tx_wrap, exec_insert_chan.
    destruct (decide ((oid, chan_value c) ∈ chan db)) as [Hin|Hnin].
    + exfalso. apply (Hfresh c); [apply elem_of_cons; now left|exact Hin].
    + apply IH; [exact Hnd|].
      intros c' Hc'. cbn [chan set_chan]. intros Hin.
      apply elem_of_union in Hin as [Hin|Hin].
      * apply elem_of_singleton in Hin. injection Hin as Heq.
        apply Hc. rewrite <- Heq. apply list_elem_of_fmap. eauto.
      * apply (Hfresh c'); [apply elem_of_cons; now right|exact Hin].
Qed.

(** The loop fails only with the wrapped constraint error. *)
Lemma insert_channels_inl (oid : Z) (cs : list N) :
  ∀ (db : DB) (e : error),
    insert_channels oid cs db = inl e → e = Errorf "insert channel: %v" ErrConstraint.
Proof.
  induction cs as [|c cs IH]; intros db e Hrun; [discriminate|].
  cbn in Hrun. unfold mbind, Tx_bind, tx_bind, tx_wrap, exec_insert_chan in Hrun.
  destruct (decide ((oid, chan_value c) ∈ chan db)); [now injection Hrun as <-|].
  now apply IH in Hrun.
Qed.

Lemma AddNetNode_work_inr (key : bytes) (address : Address) (time : Z) (owner : bytes)
    (chans : list N) (payload sig : bytes) (db : DB) (changed : bool) (db' : DB) :
  AddNetNode_work key address time owner chans payload sig db = inr (changed, db') →
  AddNetNode_case key address time owner chans payload sig db changed db'.
Proof.
  unfold AddNetNode_work, query_node. cbn [node_row slice_bytes].
  destruct (node db !! key) as [r|] eqn:Hrow.
  - unfold bytes_Equal. case_bool_decide as Heq.
    + intros [= <- <-]. now apply (ANN_same _ _ _ _ _ _ _ _ r).
    + unfold mbind, Tx_bind, tx_bind, tx_wrap, exec_update_node. rewrite Hrow.
      destruct (subquery_dayc db) as [d|] eqn:Hd; [|discriminate].
      unfold exec_delete_chan, tx_modify. cbn [chan set_node set_chan].
      match goal with |- context [insert_channels ?o ?c ?x] =>
        destruct (insert_channels o c x) as [e|[[] db2]] eqn:Hins end;
        [discriminate|].
      unfold tx_ret. intros [= <- <-].
      eapply ANN_update; eauto.
  - cbn. unfold mbind, Tx_bind, tx_bind, tx_wrap, exec_insert_node. rewrite Hrow.
    destruct (subquery_dayc db) as [d|] eqn:Hd; [|discriminate].
    unfold exec_delete_chan, tx_modify. cbn [chan set_node set_chan].
    match goal with |- context [insert_channels ?o ?c ?x] =>
      destruct (insert_channels o c x) as [e|[[] db2]] eqn:Hins end;
      [discriminate|].
    unfold tx_ret. intros [= <- <-].
    eapply ANN_insert; eauto.
Qed.

Lemma AddNetNode_inr (key : bytes) (address : Address) (time : Z) (owner : bytes)
    (chans : list N) (payload sig : bytes) (db : DB) (changed : bool) (db' : DB) :
  AddNetNode key address time owner chans payload sig db = ((changed, None), db') →
  AddNetNode_case key address time owner chans payload sig db changed db'.
Proof.
  unfold AddNetNode, doTxn.
  destruct (AddNetNode_work key address time owner chans payload sig db)
    as [e|[c db2]] eqn:Hwork; [discriminate|].
  intros [= <- <-]. now apply AddNetNode_work_inr.
Qed.

(** A call that ends well was given a key that is not nil; when it wrote,
    the owner, the payload and the signature were not nil either. *)
Lemma AddNetNode_slices (key : slice) (address : Address) (time : Z) (owner : slice)
    (chans : list N) (payload sig : slice) (db : DB) (changed : bool) (db' : DB) :
  AddNetNode key address time owner chans payload sig db = ((changed, None), db') →
  ∃ k, key = slice_of k ∧
    ((changed = false ∧ db' = db ∧
      ∃ r, node db !! k = Some r ∧ node_payload r = slice_bytes payload) ∨
     (changed = true ∧
      ∃ o p s, owner = slice_of o ∧ payload = slice_of p ∧ sig = slice_of s)).
Proof.
  unfold AddNetNode, doTxn, AddNetNode_work, query_node.
  destruct key as [|k]; cbn [node_row]; [discriminate|].
  intros Hrun. exists k. split; [reflexivity|].
  destruct (node db !! k) as [r|] eqn:Hrow.
  - unfold bytes_Equal in Hrun. case_bool_decide as Heq.
    + injection Hrun as <- <-. left. eauto.
    + unfold mbind, Tx_bind, tx_bind, tx_wrap, exec_update_node in Hrun.
      rewrite Hrow in Hrun.
      destruct owner as [|o], payload as [|p], sig as [|s]; try discriminate.
      destruct (subquery_dayc db) as [d|]; [|discriminate].
      unfold exec_delete_chan, tx_modify in Hrun.
      match type of Hrun with context [insert_channels ?o ?c ?x] =>
        destruct (insert_channels o c x) as [e|[[] db2]] end; [discriminate|].
      unfold tx_ret in Hrun. injection Hrun as <- <-. right. eauto 10.
  - cbn in Hrun.
    unfold mbind, Tx_bind, tx_bind, tx_wrap, exec_insert_node in Hrun.
    destruct owner as [|o], payload as [|p], sig as [|s]; try discriminate.
    rewrite Hrow in Hrun.
    destruct (subquery_dayc db) as [d|]; [|discriminate].
    unfold exec_delete_chan, tx_modify in Hrun.
    match type of Hrun with context [insert_channels ?o ?c ?x] =>
      destruct (insert_channels o c x) as [e|[[] db2]] end; [discriminate|].
    unfold tx_ret in Hrun. injection Hrun as <- <-. right. eauto 10.
Qed.

(** With a day counter in [config] and channels that are stored as
    distinct values the call succeeds. *)
Lemma AddNetNode_succeeds (key : bytes) (address : Address) (time : Z) (owner : bytes)
    (chans : list N) (payload sig : bytes) (db : DB) (d : Z) :
  subquery_dayc db = Some d → NoDup (chan_value <$> chans) →
  ∃ changed db',
    AddNetNode key address time owner chans payload sig db = ((changed, None), db').
Proof.
  intros Hd Hnd. unfold AddNetNode, doTxn, AddNetNode_work, query_node.
  cbn [node_row slice_bytes].
  destruct (node db !! key) as [r|] eqn:Hrow.
  - unfold bytes_Equal. case_bool_decide as Heq; [eauto|].
    unfold mbind, Tx_bind, tx_bind, tx_wrap, exec_update_node. rewrite Hrow, Hd.
    unfold exec_delete_chan, tx_modify. cbn [chan set_node set_chan].
    match goal with |- context [insert_channels ?o ?c ?x] =>
      destruct (insert_channels_total o c x Hnd) as [db2 ->] end; [|eauto].
    intros c _. cbn [chan set_chan]. rewrite elem_of_filter. cbn. tauto.
  - cbn. unfold mbind, Tx_bind, tx_bind, tx_wrap, exec_insert_node. rewrite Hrow, Hd.
    unfold exec_delete_chan, tx_modify. cbn [chan set_node set_chan].
    match goal with |- context [insert_channels ?o ?c ?x] =>
      destruct (insert_channels_total o c x Hnd) as [db2 ->] end; [|eauto].
    intros c _. cbn [chan set_chan]. rewrite elem_of_filter. cbn. tauto.
Qed.

(** What a call that wrote left behind. *)
Lemma AddNetNode_wrote (key : bytes) (address : Address) (time : Z) (owner : bytes)
    (chans : list N) (payload sig : bytes) (db : DB) (db' : DB) :
  AddNetNode_case key address time owner chans payload sig db true db' →
  ∃ r' d,
    node db' !! key = Some r' ∧ subquery_dayc db = Some d ∧
    r' = {| node_oid := match node db !! key with
                        | Some r => node_oid r
                        | None => next_rowid (node db)
                        end;
            node_address := Address_ToBytes address; node_time := time;
            node_owner := owner; node_payload := payload; node_sig := sig;
            node_dayc := 30 + d |} ∧
    (∀ k, k ≠ key → node db' !! k = node db !! k) ∧
    (∀ v, (node_oid r', v) ∈ chan db' ↔ ∃ c, c ∈ chans ∧ v = chan_value c) ∧
    NoDup (chan_value <$> chans) ∧
    (∀ o v, o ≠ node_oid r' → (o, v) ∈ chan db' ↔ (o, v) ∈ chan db) ∧
    config db' = config db ∧ announce db' = announce db ∧
    channels db' = channels db ∧ core db' = core db.
Proof.
  intros Hrun. inversion Hrun as [| d db1 db2 Hrow Hd Hdb1 Hins
                                 | r d db1 db2 Hrow Hpay Hd Hdb1 Hins]; subst db2.
  - apply insert_channels_inr in Hins as (Hnd & _ & Hsame & Hchan).
    destruct Hsame as (Hc & Ha & Hch & Hco & Hn). subst db1.
    cbn [config announce channels core node chan set_chan set_node]
      in Hc, Ha, Hch, Hco, Hn, Hchan.
    eexists _, d. rewrite Hn, Hrow. split; [apply lookup_insert_eq|].
    split; [exact Hd|]. split; [reflexivity|]. cbn [node_oid].
    split; [intros k Hk; now rewrite lookup_insert_ne|].
    split; [|split; [exact Hnd|split; [|repeat split; assumption]]].
    + intros v. rewrite Hchan, elem_of_filter. cbn. split.
      * intros [(c' & Hc' & [= ->])|[Hne _]]; [eauto|contradiction].
      * intros (c' & Hc' & ->). left. eauto.
    + intros o v Ho. rewrite Hchan, elem_of_filter. cbn. split.
      * intros [(c' & _ & [= -> _])|[_ Hin]]; [contradiction|exact Hin].
      * intros Hin. right. split; assumption.
  - apply insert_channels_inr in Hins as (Hnd & _ & Hsame & Hchan).
    destruct Hsame as (Hc & Ha & Hch & Hco & Hn). subst db1.
    cbn [config announce channels core node chan set_chan set_node]
      in Hc, Ha, Hch, Hco, Hn, Hchan.
    eexists _, d. rewrite Hn, Hrow. split; [apply lookup_insert_eq|].
    split; [exact Hd|]. split; [reflexivity|]. cbn [node_oid].
    split; [intros k Hk; now rewrite lookup_insert_ne|].
    split; [|split; [exact Hnd|split; [|repeat split; assumption]]].
    + intros v. rewrite Hchan, elem_of_filter. cbn. split.
      * intros [(c' & Hc' & [= ->])|[Hne _]]; [eauto|contradiction].
      * intros (c' & Hc' & ->). left. eauto.
    + intros o v Ho. rewrite Hchan, elem_of_filter. cbn. split.
      * intros [(c' & _ & [= -> _])|[_ Hin]]; [contradiction|exact Hin].
      * intros Hin. right. split; assumption.
Qed.

(** C4: a successful [AddNetNode] returns [changed = false] exactly when the
    key has a row whose stored payload equals the supplied one (for
    [bytes.Equal] a nil payload equals the empty one); in every other
    successful case none of the key, the owner, the payload and the
    signature is nil, the row of the key holds the supplied values with
    expiry [30 + dayc], the [chan] rows of that row are exactly the
    supplied channels, each as the value that the column stores for it and
    no two as the same, and [changed = true]. *)
Theorem AddNetNode_changed (key : slice) (address : Address) (time : Z) (owner : slice)
    (chans : list N) (payload sig : slice) (db : DB) (changed : bool) (db' : DB) :
  AddNetNode key address time owner chans payload sig db = ((changed, None), db') →
  (changed = false ↔
     ∃ r, node_row key db = Some r ∧ node_payload r = slice_bytes payload) ∧
  (changed = true →
     ∃ k o p s r' d,
       key = slice_of k ∧ owner = slice_of o ∧ payload = slice_of p ∧
       sig = slice_of s ∧
       node db' !! k = Some r' ∧ subquery_dayc db = Some d ∧
       r' = {| node_oid := match node db !! k with
                           | Some r => node_oid r
                           | None => next_rowid (node db)
                           end;
               node_address := Address_ToBytes address; node_time := time;
               node_owner := o; node_payload := p; node_sig := s;
               node_dayc := 30 + d |} ∧
       (∀ k', k' ≠ k → node db' !! k' = node db !! k') ∧
       (∀ v, (node_oid r', v) ∈ chan db' ↔ ∃ c, c ∈ chans ∧ v = chan_value c) ∧
       NoDup (chan_value <$> chans) ∧
       (∀ o' v, o' ≠ node_oid r' → (o', v) ∈ chan db' ↔ (o', v) ∈ chan db) ∧
       config db' = config db ∧ announce db' = announce db ∧
       channels db' = channels db ∧ core db' = core db).
Proof.
  intros Hrun.
  destruct (AddNetNode_slices _ _ _ _ _ _ _ _ _ _ Hrun)
    as (k & -> & [(-> & -> & r & Hr & Hp)|(-> & o & p & s & -> & -> & ->)]).
  - split; [|discriminate]. split; [|reflexivity]. intros _. exists r. now split.
  - apply AddNetNode_inr in Hrun. split.
    + split; [discriminate|]. intros (r & Hr & Hp). cbn [node_row slice_bytes] in Hr, Hp.
      inversion Hrun; congruence.
    + intros _. apply AddNetNode_wrote in Hrun as (r' & d & Hrest).
      exists k, o, p, s, r', d. repeat (split; [reflexivity|]). exact Hrest.
Qed.

(** C9: when [AddNetNode] returns [changed = false], with or without an
    error, it hands back the database it was given: no row of [node] and
    no row of [chan] is written, deleted or inserted. *)
Theorem AddNetNode_unchanged (key : slice) (address : Address) (time : Z) (owner : slice)
    (chans : list N) (payload sig : slice) (db : DB)
    (err : option error) (db' : DB) :
  AddNetNode key address time owner chans payload sig db = ((false, err), db') →
  db' = db.
Proof.
  destruct err as [e|].
  - unfold AddNetNode. intros Hrun. now apply doTxn_error_unchanged in Hrun as [-> _].
  - intros Hrun.
    destruct (AddNetNode_slices _ _ _ _ _ _ _ _ _ _ Hrun)
      as (k & _ & [(_ & -> & _)|(Hc & _)]); [reflexivity|discriminate].
Qed.

(** ** [AddCoreNode] *)

Lemma AddCoreNode_inr (address : Address) (time remainDays services : Z) (db db' : DB) :
  AddCoreNode address time remainDays services db = (None, db') →
  services < 2 ^ 63 ∧
  ∃ d, subquery_dayc db = Some d ∧
       db' = set_core
               (<[Address_ToBytes address :=
                    match core db !! Address_ToBytes address with
                    | Some r => {| core_time := time; core_services := services;
                                   core_isnew := core_isnew r;
                                   core_dayc := Z.max (core_dayc r)
                                                  (sql_add remainDays d) |}
                    | None => {| core_time := time; core_services := services;
                                 core_isnew := true;
                                 core_dayc := sql_add remainDays d |}
                    end]> (core db)) db.
Proof.
  unfold AddCoreNode, doTxn, AddCoreNode_work, mbind, Tx_bind, tx_bind, tx_wrap, exec_update_core.
  destruct (decide (2 ^ 63 <= services)) as [Hs|Hs]; [discriminate|].
  destruct (core db !! Address_ToBytes address) as [r|] eqn:Hrow.
  - destruct (subquery_dayc db) as [d|]; [|discriminate].
    destruct (decide (1 = 0)); [discriminate|]. unfold tx_ret.
    intros [= <-]. split; [lia|]. eauto.
  - destruct (decide (0 = 0)) as [_|]; [|contradiction].
    unfold exec_insert_core. rewrite Hrow.
    destruct (decide (2 ^ 63 <= services)) as [|_]; [contradiction|].
    destruct (subquery_dayc db) as [d|]; [|discriminate].
    intros [= <-]. split; [lia|]. eauto.
Qed.

(** ** The expiry invariant of [node] *)

Lemma keeps_nodes_bind {A B} (m : Tx A) (k : A → Tx B) :
  keeps_nodes m → (∀ a, keeps_nodes (k a)) → keeps_nodes (m ≫= k).
Proof.
  intros Hm Hk db b db'. unfold mbind, Tx_bind, tx_bind.
  destruct (m db) as [e|[a db1]] eqn:Em; [discriminate|].
  intros Ek. destruct (Hm _ _ _ Em) as [Hc Hn].
  destruct (Hk a _ _ _ Ek) as [Hc' Hn']. split; congruence.
Qed.

Lemma keeps_nodes_wrap {A} (format : string) (m : Tx A) :
  keeps_nodes m → keeps_nodes (tx_wrap format m).
Proof.
  intros Hm db a db'. unfold tx_wrap.
  destruct (m db) as [e|r] eqn:Em; [discriminate|].
  intros [= ->]. exact (Hm _ _ _ Em).
Qed.

Lemma keeps_nodes_ret {A} (a : A) : keeps_nodes (tx_ret a).
Proof. intros db a' db' [= _ <-]. now split. Qed.

Lemma doTxn_keeps_nodes {A} (zero : A) (w : Tx A) (db : DB) :
  keeps_nodes w →
  config (doTxn zero w db).2 = config db ∧ node (doTxn zero w db).2 = node db.
Proof.
  intros Hw. unfold doTxn. destruct (w db) as [e|[a db']] eqn:Ew; [now split|].
  exact (Hw _ _ _ Ew).
Qed.

Lemma node_expiry_bounded_frame (db db' : DB) :
  config db' = config db → node db' = node db →
  node_expiry_bounded db → node_expiry_bounded db'.
Proof. unfold node_expiry_bounded, subquery_dayc. now intros -> ->. Qed.

Lemma day_counter_upto_frame (n : Z) (db db' : DB) :
  config db' = config db → day_counter_upto n db → day_counter_upto n db'.
Proof. unfold day_counter_upto. now intros ->. Qed.

Lemma day_counter_upto_mono (n m : Z) (db : DB) :
  n <= m → day_counter_upto n db → day_counter_upto m db.
Proof.
  unfold day_counter_upto. intros Hnm [Hne Hall]. split; [exact Hne|].
  eapply Forall_impl; [exact Hall|]. intros r. cbn. lia.
Qed.

Lemma keeps_nodes_AddCoreNode (a : Address) (t r s : Z) : keeps_nodes (AddCoreNode_work a t r s).
Proof.
  apply keeps_nodes_bind.
  - apply keeps_nodes_wrap. intros db x db'. unfold exec_update_core.
    destruct (decide (2 ^ 63 <= s)); [discriminate|].
    destruct (core db !! _); [destruct (subquery_dayc db)|];
      keeps_by_inversion.
  - intros num. destruct (decide (num = 0)); [|apply keeps_nodes_ret].
    apply keeps_nodes_wrap. intros db x db'. unfold exec_insert_core.
    destruct (decide (2 ^ 63 <= s)); [discriminate|].
    destruct (core db !! _); [discriminate|].
    destruct (subquery_dayc db); keeps_by_inversion.
Qed.

Lemma keeps_nodes_update_core_time (now days : Z) (k : bytes) :
  keeps_nodes (exec_update_core_time now days k).
Proof.
  intros db x db'. unfold exec_update_core_time.
  destruct (core db !! _); [destruct (subquery_dayc db)|]; keeps_by_inversion.
Qed.

Lemma keeps_nodes_query_core_random (b : bool) (seed : nat) : keeps_nodes (query_core_random b seed).
Proof.
  intros db x db'. unfold query_core_random.
  destruct (random_row _ _); keeps_by_inversion.
Qed.

Lemma keeps_nodes_ChooseCoreNode (s1 s2 : nat) : keeps_nodes (ChooseCoreNode_work s1 s2).
Proof.
  apply keeps_nodes_bind.
  - intros db x db'.
    destruct (query_core_random true s1 db) as [e|r] eqn:E1.
    + destruct (errors_Is e ErrNoRows); [|discriminate].
      apply (keeps_nodes_wrap _ _ (keeps_nodes_query_core_random false s2)).
    + intros [= ->]. exact (keeps_nodes_query_core_random _ _ _ _ _ E1).
  - intros addr. destruct (AddressFromBytes addr); [discriminate|apply keeps_nodes_ret].
Qed.

Lemma keeps_nodes_GetAnnounce : keeps_nodes GetAnnounce_work.
Proof.
  intros db x db'. unfold GetAnnounce_work.
  destruct (announce db); keeps_by_inversion.
Qed.

Lemma keeps_nodes_SetAnnounce (p s : slice) (t : Z) : keeps_nodes (SetAnnounce_work p s t).
Proof.
  apply keeps_nodes_bind.
  - intros db x db'. unfold exec_update_announce.
    destruct (announce db), p, s; keeps_by_inversion.
  - intros num. destruct (decide (num = 0)); [|apply keeps_nodes_ret].
    intros db x db'. unfold exec_insert_announce.
    destruct p, s; keeps_by_inversion.
Qed.

Lemma keeps_nodes_AddChannel (c : N) : keeps_nodes (AddChannel_work c).
Proof.
  apply keeps_nodes_bind.
  - intros db x db'. unfold exec_update_channel.
    destruct (channels db !! c); [destruct (subquery_dayc db)|];
      keeps_by_inversion.
  - intros num. destruct (decide (num = 0)); [|apply keeps_nodes_ret].
    intros db x db'. unfold exec_insert_channel.
    destruct (channels db !! c); [discriminate|].
    destruct (subquery_dayc db); keeps_by_inversion.
Qed.

Lemma keeps_nodes_ChooseNetNode (seed : nat) : keeps_nodes (ChooseNetNode_work seed).
Proof.
  intros db x db'. unfold ChooseNetNode_work, query_node_random.
  destruct (random_row _ _) as [[k r]|]; [|discriminate]. cbn.
  destruct (decide (length k ≠ 32%nat)); [discriminate|].
  destruct (AddressFromBytes _); [discriminate|]. keeps_by_inversion.
Qed.

(** What a successful [AddNetNode] does to [config] and [node]. *)
Lemma AddNetNode_case_node (key : bytes) (address : Address) (time : Z) (owner : bytes)
    (chans : list N) (payload sig : bytes) (db : DB) (changed : bool) (db' : DB) :
  AddNetNode_case key address time owner chans payload sig db changed db' →
  config db' = config db ∧
  (node db' = node db ∨
   ∃ r' d, subquery_dayc db = Some d ∧ node_dayc r' = 30 + d ∧
           node db' = <[key := r']> (node db)).
Proof.
  intros [r Hrow Hpay | d db1 db2 Hrow Hd Hdb1 Hins
         | r d db1 db2 Hrow Hpay Hd Hdb1 Hins].
  - split; [reflexivity|now left].
  - apply insert_channels_inr in Hins as (_ & _ & (Hc & _ & _ & _ & Hn) & _).
    subst db1. split; [exact Hc|]. right. eexists _, d.
    split; [exact Hd|]. split; [|exact Hn]. reflexivity.
  - apply insert_channels_inr in Hins as (_ & _ & (Hc & _ & _ & _ & Hn) & _).
    subst db1. split; [exact Hc|]. right. eexists _, d.
    split; [exact Hd|]. split; [|exact Hn]. reflexivity.
Qed.

Lemma node_expiry_bounded_insert (db db' : DB) (key : bytes) (r' : NodeRow) (d : Z) :
  config db' = config db → subquery_dayc db = Some d → node_dayc r' = 30 + d →
  node db' = <[key := r']> (node db) →
  node_expiry_bounded db → node_expiry_bounded db'.
Proof.
  unfold node_expiry_bounded. intros Hc Hd Hr Hn.
  replace (subquery_dayc db') with (subquery_dayc db)
    by (unfold subquery_dayc; now rewrite Hc).
  rewrite Hd, Hn. intros Hall. apply map_Forall_insert_2; [lia|exact Hall].
Qed.

Lemma AddNetNode_slices_node (key : slice) (address : Address) (time : Z) (owner : slice)
    (chans : list N) (payload sig : slice) (db : DB) :
  config (AddNetNode key address time owner chans payload sig db).2 = config db ∧
  (node (AddNetNode key address time owner chans payload sig db).2 = node db ∨
   ∃ k r' d, subquery_dayc db = Some d ∧ node_dayc r' = 30 + d ∧
             node (AddNetNode key address time owner chans payload sig db).2
               = <[k := r']> (node db)).
Proof.
  destruct (AddNetNode key address time owner chans payload sig db)
    as [[changed [e|]] db'] eqn:Hrun; cbn [snd].
  - unfold AddNetNode in Hrun. apply doTxn_error_unchanged in Hrun as [-> _].
    split; [reflexivity|now left].
  - destruct (AddNetNode_slices _ _ _ _ _ _ _ _ _ _ Hrun)
      as (k & -> & [(_ & -> & _)|(_ & o & p & s & -> & -> & ->)]).
    { split; [reflexivity|now left]. }
    apply AddNetNode_inr, AddNetNode_case_node in Hrun
      as [Hc [Hn|(r' & d & Hd & Hr & Hn)]].
    + split; [exact Hc|now left].
    + split; [exact Hc|]. right. eauto 10.
Qed.

Lemma node_expiry_bounded_AddNetNode (key : slice) (address : Address) (time : Z)
    (owner : slice) (chans : list N) (payload sig : slice) (db : DB) :
  node_expiry_bounded db →
  node_expiry_bounded (AddNetNode key address time owner chans payload sig db).2.
Proof.
  intros Hinv.
  destruct (AddNetNode_slices_node key address time owner chans payload sig db)
    as [Hc [Hn|(k & r' & d & Hd & Hr & Hn)]].
  - now apply (node_expiry_bounded_frame db).
  - now apply (node_expiry_bounded_insert db _ k r' d).
Qed.

Lemma AddNetNode_config (key : slice) (address : Address) (time : Z) (owner : slice)
    (chans : list N) (payload sig : slice) (db : DB) :
  config (AddNetNode key address time owner chans payload sig db).2 = config db.
Proof. apply AddNetNode_slices_node. Qed.

Lemma UpdateNetTime_spec (key : slice) (db : DB) :
  (UpdateNetTime key db).2 = db ∨
  ∃ k r' d, key = slice_of k ∧ subquery_dayc db = Some d ∧ node_dayc r' = 30 + d ∧
          config (UpdateNetTime key db).2 = config db ∧
          node (UpdateNetTime key db).2 = <[k := r']> (node db).
Proof.
  unfold UpdateNetTime, doTxn, tx_wrap, exec_update_node_dayc.
  destruct key as [|key]; [now left|].
  destruct (node db !! key) as [r|]; [|now left].
  destruct (subquery_dayc db) as [d|]; [|now left].
  right. eexists key, _, d. cbn.
  split; [reflexivity|]. split; [reflexivity|]. split; [|split; reflexivity].
  reflexivity.
Qed.

Lemma TrimNodes_invariant (today n : Z) (db : DB) :
  node_expiry_bounded db → day_counter_upto n db → n < int64_max →
  node_expiry_bounded (TrimNodes today db).2 ∧
  day_counter_upto (n + 1) (TrimNodes today db).2.
Proof.
  intros Hinv Hday Hn.
  destruct (config db) as [|[dayc last] rest] eqn:Hcfg.
  { rewrite (TrimNodes_no_config _ _ Hcfg). cbn [snd].
    split; [exact Hinv|]. apply (day_counter_upto_mono n); [lia|exact Hday]. }
  destruct (decide (last = today)) as [->|Hne].
  { unfold TrimNodes, doTxn. rewrite (TrimNodes_work_same_day _ _ _ _ Hcfg).
    cbn [snd]. split; [exact Hinv|].
    apply (day_counter_upto_mono n); [lia|exact Hday]. }
  unfold TrimNodes, doTxn. rewrite (TrimNodes_work_advance _ _ _ _ _ Hcfg Hne).
  cbn [snd]. unfold day_counter_upto in Hday. rewrite Hcfg in Hday.
  pose proof (Forall_inv (proj2 Hday)) as Hd. cbn in Hd.
  assert (int64_add dayc 1 = dayc + 1) as ->.
  { apply int64_add_succ. unfold int64_min, int64_max in *. lia. }
  split.
  - unfold node_expiry_bounded, subquery_dayc in *. rewrite Hcfg in Hinv.
    cbn [config node cfg_dayc] in *.
    intros k r Hk. apply map_lookup_filter_Some in Hk as [Hk _].
    specialize (Hinv k r Hk). cbn in Hinv. lia.
  - unfold day_counter_upto. cbn [config]. split; [discriminate|].
    constructor; [cbn; lia|]. apply Forall_map, Forall_forall.
    intros x _. cbn. lia.
Qed.

Lemma NewSQLiteStore_invariant (today : Z) :
  node_expiry_bounded (NewSQLiteStore today) ∧ day_counter_upto 1 (NewSQLiteStore today).
Proof.
  split.
  - unfold node_expiry_bounded. cbn. apply map_Forall_empty.
  - unfold day_counter_upto. cbn. split; [discriminate|].
    constructor; [cbn; lia|constructor].
Qed.

(** Opening a store that has its [config] row changes nothing. *)
Lemma initConfig_noop (today : Z) (db : DB) :
  config db ≠ [] → (initConfig today db).2 = db.
Proof.
  intros Hne. unfold initConfig, doTxn, initConfig_work, query_config.
  destruct (config db); [contradiction|reflexivity].
Qed.

(** Every call keeps the invariant and raises the day counter by at most
    one, as long as the counter stays below the largest [int64]. *)
Lemma store_exec_invariant (c : store_call) (n : Z) (db : DB) :
  node_expiry_bounded db → day_counter_upto n db → n < int64_max →
  node_expiry_bounded (store_exec c db) ∧ day_counter_upto (n + 1) (store_exec c db).
Proof.
  intros Hinv Hday Hn.
  assert (∀ db', config db' = config db → node db' = node db →
            node_expiry_bounded db' ∧ day_counter_upto (n + 1) db') as Hframe.
  { intros db' Hc Hnode. split; [now apply (node_expiry_bounded_frame db)|].
    apply (day_counter_upto_frame _ db); [exact Hc|].
    apply (day_counter_upto_mono n); [lia|exact Hday]. }
  destruct c; cbn [store_exec].
  - rewrite (initConfig_noop today db (proj1 Hday)).
    split; [exact Hinv|]. apply (day_counter_upto_mono n); [lia|exact Hday].
  - now apply TrimNodes_invariant.
  - unfold AddCoreNode.
    pose proof (doTxn_keeps_nodes tt _ db
                  (keeps_nodes_AddCoreNode address time remainDays services)) as [Hc Hk].
    destruct (doTxn _ _ db) as [[u e] db']. now apply Hframe.
  - unfold UpdateCoreTime.
    pose proof (doTxn_keeps_nodes tt _ db
                  (keeps_nodes_wrap "update: %v" _
                     (keeps_nodes_update_core_time now MaxCoreNodeDays
                        (Address_ToBytes address)))) as [Hc Hk].
    destruct (doTxn _ _ db) as [[u e] db']. now apply Hframe.
  - unfold ChooseCoreNode.
    pose proof (doTxn_keeps_nodes Address_zero _ db
                  (keeps_nodes_ChooseCoreNode seed1 seed2)) as [Hc Hk].
    now apply Hframe.
  - unfold GetAnnounce.
    pose proof (doTxn_keeps_nodes ([], [], 0) _ db keeps_nodes_GetAnnounce) as [Hc Hk].
    destruct (doTxn _ _ db) as [[[[p s] t] e] db']. now apply Hframe.
  - unfold SetAnnounce.
    pose proof (doTxn_keeps_nodes tt _ db
                  (keeps_nodes_SetAnnounce payload sig time)) as [Hc Hk].
    destruct (doTxn _ _ db) as [[u e] db']. now apply Hframe.
  - unfold AddChannel.
    pose proof (doTxn_keeps_nodes tt _ db (keeps_nodes_AddChannel channel)) as [Hc Hk].
    destruct (doTxn _ _ db) as [[u e] db']. now apply Hframe.
  - split; [now apply node_expiry_bounded_AddNetNode|].
    apply (day_counter_upto_frame _ db); [apply AddNetNode_config|].
    apply (day_counter_upto_mono n); [lia|exact Hday].
  - destruct (UpdateNetTime_spec key db) as [->|(k & r' & d & _ & Hd & Hr & Hc & Hnode)].
    + split; [exact Hinv|]. apply (day_counter_upto_mono n); [lia|exact Hday].
    + split; [now apply (node_expiry_bounded_insert db _ k r' d)|].
      apply (day_counter_upto_frame _ db); [exact Hc|].
      apply (day_counter_upto_mono n); [lia|exact Hday].
  - unfold ChooseNetNode.
    pose proof (doTxn_keeps_nodes NodeInfo_zero _ db
                  (keeps_nodes_ChooseNetNode seed)) as [Hc Hk].
    now apply Hframe.
Qed.

(** The databases the store reaches from a new file satisfy the invariant
    (for any run too short to overflow the day counter). *)
Lemma store_run_invariant (today : Z) (calls : list store_call) :
  1 + Z.of_nat (length calls) <= int64_max →
  node_expiry_bounded (store_run today calls).
Proof.
  unfold store_run.
  assert (∀ cs db n,
            node_expiry_bounded db → day_counter_upto n db →
            n + Z.of_nat (length cs) <= int64_max →
            node_expiry_bounded (fold_left (λ db c, store_exec c db) cs db)) as Hgen.
  { induction cs as [|c cs IH]; intros db n Hinv Hday Hlen; [exact Hinv|].
    cbn [fold_left]. cbn [length] in Hlen.
    destruct (store_exec_invariant c n db Hinv Hday) as [Hinv' Hday']; [lia|].
    apply (IH _ (n + 1) Hinv' Hday'). lia. }
  intros Hlen. destruct (NewSQLiteStore_invariant today) as [Hinv Hday].
  now apply (Hgen calls _ 1).
Qed.

(** The sum of SQLite is the sum of the integers when that is an
    [int64]. *)
Lemma sql_add_in_range (a b : Z) : in_int64 (a + b) → sql_add a b = a + b.
Proof. intros Hr. unfold sql_add. now destruct (decide (in_int64 (a + b))). Qed.

(** [AddCoreNode] writes the larger of the stored expiry and the sum of
    [remainDays] and the day counter into the row it finds, and touches
    no other row. *)
Lemma AddCoreNode_expiry (address : Address) (time remainDays services : Z)
    (db db' : DB) (k : bytes) (r : CoreRow) :
  AddCoreNode address time remainDays services db = (None, db') →
  core db !! k = Some r →
  ∃ r', core db' !! k = Some r' ∧ core_dayc r <= core_dayc r' ∧
        (k = Address_ToBytes address →
           ∃ d, subquery_dayc db = Some d ∧
                core_dayc r' = Z.max (core_dayc r) (sql_add remainDays d)).
Proof.
  intros Hrun Hk. apply AddCoreNode_inr in Hrun as (_ & d & Hd & ->).
  cbn [core set_core].
  destruct (decide (k = Address_ToBytes address)) as [->|Hne].
  - rewrite Hk, lookup_insert_eq. eexists. split; [reflexivity|].
    cbn [core_dayc]. split; [lia|]. intros _. eauto.
  - rewrite lookup_insert_ne by congruence.
    exists r. split; [exact Hk|]. split; [lia|contradiction].
Qed.

(** Under the invariant [AddNetNode] lowers no expiry. *)
Lemma AddNetNode_expiry (key : slice) (address : Address) (time : Z) (owner : slice)
    (chans : list N) (payload sig : slice) (changed : bool) (db db' : DB)
    (k : bytes) (r : NodeRow) :
  node_expiry_bounded db →
  AddNetNode key address time owner chans payload sig db = ((changed, None), db') →
  node db !! k = Some r →
  ∃ r', node db' !! k = Some r' ∧ node_dayc r <= node_dayc r'.
Proof.
  intros Hinv Hrun Hk.
  destruct (AddNetNode_slices_node key address time owner chans payload sig db)
    as [_ [Hn|(k' & r' & d & Hd & Hr & Hn)]]; rewrite Hrun in Hn; cbn [snd] in Hn.
  - exists r. rewrite Hn. split; [exact Hk|lia].
  - unfold node_expiry_bounded in Hinv. rewrite Hd in Hinv.
    pose proof (Hinv k r Hk) as Hb. cbn in Hb. rewrite Hn.
    destruct (decide (k = k')) as [->|Hne].
    + rewrite lookup_insert_eq. exists r'. split; [reflexivity|lia].
    + rewrite lookup_insert_ne by congruence. exists r. split; [exact Hk|lia].
Qed.

(** C7: a successful [AddCoreNode] or [AddNetNode] never lowers the expiry
    day-count of a row.  [AddCoreNode], on any database, stores in the row
    it finds the larger of the existing expiry and the sum that SQLite
    computes of [remainDays] and the day counter; whenever
    [remainDays + dayc] is an [int64] that is
    [max(existing, remainDays + dayc)].  [AddNetNode], with any slices, nil
    or not, stores [30 + dayc]; in every database the store reaches from a
    new file, by whatever calls (fewer than the day counter can count),
    that is no less than the expiry of any row of [node]. *)
Theorem expiry_never_decreases
    (dbc : DB) (address : Address) (time remainDays services : Z) (db1 : DB)
    (today : Z) (calls : list store_call)
    (key : slice) (naddress : Address) (ntime : Z) (owner : slice) (chans : list N)
    (payload sig : slice) (changed : bool) (db2 : DB) :
  (AddCoreNode address time remainDays services dbc = (None, db1) →
     ∀ k r, core dbc !! k = Some r →
       ∃ r', core db1 !! k = Some r' ∧ core_dayc r <= core_dayc r' ∧
             (k = Address_ToBytes address →
                ∃ d, subquery_dayc dbc = Some d ∧
                     core_dayc r' = Z.max (core_dayc r) (sql_add remainDays d) ∧
                     (in_int64 (remainDays + d) →
                        core_dayc r' = Z.max (core_dayc r) (remainDays + d)))) ∧
  (1 + Z.of_nat (length calls) <= int64_max →
   AddNetNode key naddress ntime owner chans payload sig (store_run today calls)
     = ((changed, None), db2) →
     ∀ k r, node (store_run today calls) !! k = Some r →
       ∃ r', node db2 !! k = Some r' ∧ node_dayc r <= node_dayc r').
Proof.
  split.
  - intros Hrun k r Hk.
    destruct (AddCoreNode_expiry _ _ _ _ _ _ _ _ Hrun Hk) as (r' & Hr' & Hle & Hmax).
    exists r'. split; [exact Hr'|]. split; [exact Hle|].
    intros Heq. destruct (Hmax Heq) as (d & Hd & Hval).
    exists d. split; [exact Hd|]. split; [exact Hval|].
    intros Hrange. now rewrite <- (sql_add_in_range _ _ Hrange).
  - intros Hlen Hrun k r Hk.
    apply (AddNetNode_expiry _ _ _ _ _ _ _ _ _ _ _ _
             (store_run_invariant today calls Hlen) Hrun Hk).
Qed.

(** ** [ChooseCoreNode] and [ChooseNetNode] *)

Lemma random_row_elem {A} (seed : nat) (l : list A) (x : A) :
  random_row seed l = Some x → x ∈ l.
Proof. unfold random_row. apply list_elem_of_lookup_2. Qed.

Lemma random_row_is_Some {A} (seed : nat) (l : list A) :
  l ≠ [] → is_Some (random_row seed l).
Proof.
  intros Hl. unfold random_row. apply lookup_lt_is_Some.
  apply Nat.mod_upper_bound. destruct l; [contradiction|discriminate].
Qed.

(** Every row is drawn by exactly one seed below the number of rows. *)
Lemma random_row_index {A} (i : nat) (l : list A) :
  (i < length l)%nat → random_row i l = l !! i.
Proof. intros Hi. unfold random_row. now rewrite Nat.mod_small. Qed.

Lemma core_rows_elem (isnew : bool) (db : DB) (k : bytes) (r : CoreRow) :
  (k, r) ∈ core_rows isnew db ↔ core db !! k = Some r ∧ core_isnew r = isnew.
Proof.
  unfold core_rows. rewrite elem_of_map_to_list, map_lookup_filter_Some. reflexivity.
Qed.

(** [ChooseCoreNode] returns a new record when there is one, and a record
    that is not new only when there is none that is. *)
Lemma ChooseCoreNode_prefers_new (seed1 seed2 : nat) (db db' : DB) (res : Address) :
  ChooseCoreNode seed1 seed2 db = ((res, None), db') →
  db' = db ∧
  ∃ k r, core db !! k = Some r ∧ AddressFromBytes k = inr res ∧
         (core_isnew r = false → core_rows true db = []).
Proof.
  unfold ChooseCoreNode, doTxn, ChooseCoreNode_work, mbind, Tx_bind, tx_bind, tx_wrap, query_core_random.
  fold (core_rows true db). fold (core_rows false db).
  destruct (random_row seed1 (core_rows true db)) as [[k r]|] eqn:E1.
  - cbn. destruct (AddressFromBytes k) as [e|a] eqn:Ea; cbn; [discriminate|].
    intros [= <- <-]. split; [reflexivity|].
    apply random_row_elem, core_rows_elem in E1 as [Hk Hr].
    exists k, r. rewrite Hr. split; [exact Hk|]. split; [exact Ea|discriminate].
  - rewrite errors_Is_refl.
    destruct (random_row seed2 (core_rows false db)) as [[k r]|] eqn:E2;
      [|discriminate].
    cbn. destruct (AddressFromBytes k) as [e|a] eqn:Ea; cbn; [discriminate|].
    intros [= <- <-]. split; [reflexivity|].
    apply random_row_elem, core_rows_elem in E2 as [Hk Hr].
    exists k, r. split; [exact Hk|]. split; [exact Ea|]. intros _.
    destruct (core_rows true db) as [|x l] eqn:El; [reflexivity|].
    destruct (random_row_is_Some seed1 (x :: l)) as [y Hy]; [discriminate|].
    congruence.
Qed.

(** C5 (the error on an empty table): on a store without core nodes
    [ChooseCoreNode] fails with the formatted error of its second query,
    which [errors.Is] does not recognise as [NotFoundError]; the sibling
    [ChooseNetNode] returns [NotFoundError] itself on an empty table. *)
Theorem ChooseCoreNode_empty_not_NotFound (today : Z) (seed1 seed2 seed : nat) :
  let db := NewSQLiteStore today in
  ChooseCoreNode seed1 seed2 db
    = ((Address_zero, Some (Errorf "query-not-new: %v" ErrNoRows)), db) ∧
  errors_Is (Errorf "query-not-new: %v" ErrNoRows) NotFoundError = false ∧
  ChooseNetNode seed db = ((NodeInfo_zero, Some NotFoundError), db).
Proof.
  cbn zeta. split; [|split].
  - unfold ChooseCoreNode, doTxn, ChooseCoreNode_work, mbind, Tx_bind, tx_bind, tx_wrap,
      query_core_random, random_row.
    cbn [NewSQLiteStore]. reflexivity.
  - reflexivity.
  - reflexivity.
Qed.

End StoreProperties.

(** ** The counts [TrimNodes] returns *)

(** When the day counter advances, [remCore] is the number of rows deleted
    from [core] and [remNode] the number of rows deleted from [channels]:
    the count of the [node] rows is overwritten. *)
Lemma TrimNodes_removed_counts (today : Z) (db db' : DB) (remCore remNode : Z) :
  TrimNodes today db = ((true, remCore, remNode, None), db') →
  remCore = Z.of_nat (size (core db)) - Z.of_nat (size (core db')) ∧
  remNode = Z.of_nat (size (channels db)) - Z.of_nat (size (channels db')).
Proof.
  intros Hrun.
  destruct (config db) as [|[dayc last] rest] eqn:Hcfg.
  { rewrite (TrimNodes_no_config _ _ Hcfg) in Hrun. discriminate. }
  destruct (decide (last = today)) as [->|Hne].
  { unfold TrimNodes, doTxn in Hrun.
    rewrite (TrimNodes_work_same_day _ _ _ _ Hcfg) in Hrun. discriminate. }
  unfold TrimNodes, doTxn in Hrun.
  rewrite (TrimNodes_work_advance _ _ _ _ _ Hcfg Hne) in Hrun.
  injection Hrun as <- <- <-. cbn [core channels].
  pose proof (size_filter_split (λ kv, core_dayc kv.2 < int64_add dayc 1) (core db)).
  pose proof (size_filter_split (λ kv : N * Z, kv.2 < int64_add dayc 1) (channels db)).
  lia.
Qed.

(** C6 (the count of overlay nodes): in the day-rollover scenario
    [TrimNodes] deletes the one row of [node] and returns [remNode = 0],
    the number of rows deleted from the empty [channels] table. *)
Theorem TrimNodes_remNode_counts_channels :
  ∃ db',
    TrimNodes 1001 db_rollover = ((true, 1, 0, None), db') ∧
    size (node db_rollover) = 1%nat ∧ size (node db') = 0%nat ∧
    size (channels db_rollover) = 0%nat.
Proof.
  exists (TrimNodes 1001 db_rollover).2.
  split; [|split; [|split]]; vm_compute; reflexivity.
Qed.

(** ** The store on the example databases *)

(** The day-rollover scenario: nothing happens on day 1000, and on day
    1001 the counter goes from 5 to 6 and the rows that expire at 5 leave
    [core] and [node]. *)
Lemma TrimNodes_day_counter_witness :
  config db_rollover = [{| cfg_dayc := 5; cfg_last := 1000 |}] ∧
  TrimNodes 1000 db_rollover = ((false, 0, 0, None), db_rollover) ∧
  ∃ remCore remNode db',
    TrimNodes 1001 db_rollover = ((true, remCore, remNode, None), db') ∧
    query_config db' = inr ((6, 1001), db') ∧
    ∀ k r, core db' !! k = Some r ↔ core db_rollover !! k = Some r ∧ ¬ core_dayc r < 6.
Proof.
  split; [reflexivity|].
  destruct (TrimNodes_day_counter 1000 db_rollover 5 1000 [] eq_refl) as [Hsame _].
  destruct (TrimNodes_day_counter 1001 db_rollover 5 1000 [] eq_refl) as [_ Hadv].
  split; [exact (Hsame eq_refl)|].
  destruct (Hadv ltac:(discriminate))
    as (rc & rn & db' & newdayc & _ & Hnew & _ & Hrun & Hq & Hcore & _).
  rewrite (Hnew ltac:(unfold int64_min, int64_max; lia)) in Hq, Hcore.
  exists rc, rn, db'. split; [exact Hrun|]. split; [exact Hq|exact Hcore].
Defined.

(** The example node announces a new payload and two channels, which
    [chan] stores as the texts of their tags. *)
Lemma AddNetNode_changed_witness :
  example_AddNetNode [x0b] db_rollover
    = ((true, None), (example_AddNetNode [x0b] db_rollover).2) ∧
  ∃ r', node (example_AddNetNode [x0b] db_rollover).2 !! example_key = Some r' ∧
        node_payload r' = [x0b] ∧ node_dayc r' = 35 ∧
        ∀ v, (node_oid r', v) ∈ chan (example_AddNetNode [x0b] db_rollover).2 ↔
             ∃ c, c ∈ [0x43686174%N; 0x50696e67%N] ∧
                  v = chan_value (H := Ref.RefGossip) c.
Proof.
  assert (example_AddNetNode [x0b] db_rollover
            = ((true, None), (example_AddNetNode [x0b] db_rollover).2)) as Hrun
    by (vm_compute; reflexivity).
  split; [exact Hrun|].
  destruct (AddNetNode_changed (H := Ref.RefGossip) _ _ _ _ _ _ _ _ _ _ Hrun)
    as [_ Htrue].
  destruct (Htrue eq_refl)
    as (k & o & p & s & r' & d & Hk & _ & Hp & _ & Hrow & Hd & Hr' & _ & Hchan & _).
  injection Hk as <-. injection Hp as <-. injection Hd as <-.
  exists r'. split; [exact Hrow|]. rewrite Hr' in *. cbn [node_payload node_dayc].
  split; [reflexivity|]. split; [reflexivity|exact Hchan].
Defined.

(** The example node announces the payload that is stored already. *)
Lemma AddNetNode_unchanged_witness :
  example_AddNetNode [x0a] db_rollover = ((false, None), db_rollover) ∧
  db_rollover = db_rollover.
Proof.
  assert (example_AddNetNode [x0a] db_rollover = ((false, None), db_rollover)) as Hrun
    by (vm_compute; reflexivity).
  split; [exact Hrun|].
  exact (AddNetNode_unchanged (H := Ref.RefGossip) _ _ _ _ _ _ _ _ _ _ Hrun).
Defined.

(** After [example_calls] the example node expires at day-count 32; a new
    announcement does not lower that, and [AddCoreNode] with three
    remaining days raises the expiry of the example core node from 5 to
    8, the sum [3 + 5] being an [int64]. *)
Lemma expiry_never_decreases_witness :
  let db := store_run (H := Ref.RefGossip) 1000 example_calls in
  node db !! example_key = Some (example_node_row 32) ∧
  (∃ r', node (example_AddNetNode [x0b] db).2 !! example_key = Some r' ∧
         32 <= node_dayc r') ∧
  in_int64 (3 + 5) ∧
  (∃ r', core (AddCoreNode (H := Ref.RefGossip) example_addr 9 3 1 db_rollover).2
           !! Ref.ToBytes example_addr = Some r' ∧
         core_dayc r' = 8).
Proof.
  cbn zeta.
  assert (node (store_run (H := Ref.RefGossip) 1000 example_calls) !! example_key
            = Some (example_node_row 32)) as Hrow by (vm_compute; reflexivity).
  assert (example_AddNetNode [x0b] (store_run (H := Ref.RefGossip) 1000 example_calls)
            = ((true, None),
               (example_AddNetNode [x0b]
                  (store_run (H := Ref.RefGossip) 1000 example_calls)).2)) as Hnet
    by (vm_compute; reflexivity).
  assert (AddCoreNode (H := Ref.RefGossip) example_addr 9 3 1 db_rollover
            = (None, (AddCoreNode (H := Ref.RefGossip) example_addr 9 3 1 db_rollover).2))
    as Hcore by (vm_compute; reflexivity).
  destruct (expiry_never_decreases (H := Ref.RefGossip) db_rollover
              example_addr 9 3 1
              (AddCoreNode (H := Ref.RefGossip) example_addr 9 3 1 db_rollover).2
              1000 example_calls
              example_key example_addr 7 (repeat x02 32)
              [0x43686174%N; 0x50696e67%N] [x0b] (repeat x04 64) true
              (example_AddNetNode [x0b]
                 (store_run (H := Ref.RefGossip) 1000 example_calls)).2)
    as [Hc Hn].
  assert (in_int64 (3 + 5)) as Hrange
    by (unfold in_int64, int64_min, int64_max; lia).
  split; [exact Hrow|]. split; [|split; [exact Hrange|]].
  - destruct (Hn ltac:(vm_compute; discriminate) Hnet example_key
                (example_node_row 32) Hrow) as (r' & Hr' & Hle).
    exists r'. split; [exact Hr'|exact Hle].
  - destruct (Hc Hcore (Ref.ToBytes example_addr) (example_core_row 5) eq_refl)
      as (r' & Hr' & _ & Hmax).
    destruct (Hmax eq_refl) as (d & Hd & _ & Hval). injection Hd as <-.
    exists r'. split; [exact Hr'|exact (Hval Hrange)].
Defined.

(** * Properties of the net service *)

(** ** One session for each key *)

Lemma sessions_of_at_most_one (k : bytes) (ns : NetService) :
  (length (sessions_of k ns) <= 1)%nat.
Proof. unfold sessions_of. destruct (connectedPeers ns !! k); cbn; lia. Qed.

(** [trackPeer] changes [connectedPeers] only by adding a key that was not
    there. *)
Lemma trackPeer_connectedPeers (conn : Conn) (peer : PeerPtr) (pubKey : bytes)
    (ns : NetService) :
  connectedPeers (trackPeer conn peer pubKey ns).2 = connectedPeers ns ∨
  (connectedPeers ns !! pubKey = None ∧
   connectedPeers (trackPeer conn peer pubKey ns).2 = <[pubKey := peer]> (connectedPeers ns)).
Proof.
  unfold trackPeer. destruct (stopping ns); [now left|].
  destruct (decide (pubKey ≠ NoPubKey)); [|now left].
  cbn [connectedPeers set_connections].
  destruct (connectedPeers ns !! pubKey) eqn:Hk; [now left|].
  right. split; reflexivity.
Qed.

Lemma adoptPeer_connectedPeers (peer : PeerPtr) (pubKey : bytes) (ns : NetService) :
  connectedPeers (adoptPeer peer pubKey ns).2 = connectedPeers ns ∨
  (connectedPeers ns !! pubKey = None ∧
   connectedPeers (adoptPeer peer pubKey ns).2 = <[pubKey := peer]> (connectedPeers ns)).
Proof.
  unfold adoptPeer. destruct (connectedPeers ns !! pubKey) eqn:Hk; [now left|].
  right. split; reflexivity.
Qed.

(** C1, as the code has it: when [connectedPeers] has a session for the key
    [k], [adoptPeer] returns false, [trackPeer] returns false unless [k] is
    [NoPubKey], a refused call leaves [connectedPeers] as it was, and after
    a call of either with any arguments the incumbent is still the one
    session of [k].  With [NoPubKey], the key of a peer not known yet,
    [trackPeer] returns true unless the service is stopping, whatever
    [connectedPeers] holds, and only tracks the connection:
    [connectedPeers] is neither read nor written. *)
Theorem one_session_per_key (k : bytes) (incumbent : PeerPtr) (ns : NetService) :
  connectedPeers ns !! k = Some incumbent →
  (∀ conn peer, k ≠ NoPubKey → (trackPeer conn peer k ns).1 = false) ∧
  (∀ peer, adoptPeer peer k ns = (false, ns)) ∧
  (∀ conn peer, connectedPeers (trackPeer conn peer k ns).2 = connectedPeers ns) ∧
  (∀ conn peer k', sessions_of k (trackPeer conn peer k' ns).2 = [incumbent]) ∧
  (∀ peer k', sessions_of k (adoptPeer peer k' ns).2 = [incumbent]) ∧
  (∀ conn peer (m : gmap bytes PeerPtr),
     trackPeer conn peer NoPubKey (set_connectedPeers m ns)
       = if stopping ns then (false, set_connectedPeers m ns)
         else (true, set_connections (connections ns ++ [conn])
                       (set_connectedPeers m ns))) ∧
  (∀ conn peer,
     (trackPeer conn peer NoPubKey ns).1 = negb (stopping ns) ∧
     connectedPeers (trackPeer conn peer NoPubKey ns).2 = connectedPeers ns).
Proof.
  intros Hk. split; [|split; [|split; [|split; [|split; [|split]]]]].
  - intros conn peer Hne. unfold trackPeer. destruct (stopping ns); [reflexivity|].
    destruct (decide (k ≠ NoPubKey)); [|contradiction].
    cbn [connectedPeers set_connections]. now rewrite Hk.
  - intros peer. unfold adoptPeer. now rewrite Hk.
  - intros conn peer.
    destruct (trackPeer_connectedPeers conn peer k ns) as [->|[Hnone _]];
      [reflexivity|congruence].
  - intros conn peer k'. unfold sessions_of.
    destruct (trackPeer_connectedPeers conn peer k' ns) as [->|[Hnone ->]].
    + now rewrite Hk.
    + rewrite lookup_insert_ne by congruence. now rewrite Hk.
  - intros peer k'. unfold sessions_of.
    destruct (adoptPeer_connectedPeers peer k' ns) as [->|[Hnone ->]].
    + now rewrite Hk.
    + rewrite lookup_insert_ne by congruence. now rewrite Hk.
  - intros conn peer m. unfold trackPeer.
    change (stopping (set_connectedPeers m ns)) with (stopping ns).
    destruct (stopping ns); [reflexivity|].
    destruct (decide (NoPubKey ≠ NoPubKey)) as [Hne|_]; [now destruct Hne|].
    reflexivity.
  - intros conn peer. unfold trackPeer. destruct (stopping ns); [now split|].
    destruct (decide (NoPubKey ≠ NoPubKey)) as [Hne|_]; [now destruct Hne|].
    now split.
Qed.

(** C1 as stated fails for the key [NoPubKey]: once a session was adopted
    under it, [trackPeer] with [NoPubKey] still returns true. *)
Lemma trackPeer_NoPubKey_returns_true :
  let ns := (adoptPeer 1 NoPubKey example_ns).2 in
  connectedPeers ns !! NoPubKey = Some 1%nat ∧
  (trackPeer 7 2 NoPubKey ns).1 = true.
Proof. split; vm_compute; reflexivity. Qed.

(** A second session for the key of the example node is refused, and the
    first stays; a connection whose peer is not known yet is tracked
    without a look at [connectedPeers]. *)
Lemma one_session_per_key_witness :
  let ns := (adoptPeer 1 example_key example_ns).2 in
  connectedPeers ns !! example_key = Some 1%nat ∧
  (trackPeer 7 2 example_key ns).1 = false ∧
  adoptPeer 2 example_key ns = (false, ns) ∧
  sessions_of example_key (trackPeer 7 2 example_key ns).2 = [1%nat] ∧
  (trackPeer 7 2 NoPubKey ns).1 = true ∧
  connectedPeers (trackPeer 7 2 NoPubKey ns).2 = connectedPeers ns.
Proof.
  cbn zeta.
  assert (connectedPeers (adoptPeer 1 example_key example_ns).2 !! example_key
            = Some 1%nat) as Hk by (vm_compute; reflexivity).
  destruct (one_session_per_key example_key 1%nat _ Hk)
    as (Ht & Ha & _ & Hkeep & _ & _ & Hno).
  split; [exact Hk|]. split; [|split; [|split; [|split]]].
  - apply Ht. vm_compute. discriminate.
  - apply Ha.
  - apply (Hkeep 7%nat 2%nat example_key).
  - apply (Hno 7%nat 2%nat).
  - apply (Hno 7%nat 2%nat).
Defined.

(** ** The local accept task *)

(** Whatever happened before, an error of [Accept] ends the process. *)
Lemma acceptHandlers_loop_error (ev : accept_event) (events : list accept_event)
    (ns : NetService) (err : error) :
  stopping ns = false → ev_result ev = AcceptFailed err →
  (acceptHandlers_loop (ev :: events) ns).1 = ProcessExit 1.
Proof. intros Hs Hr. cbn. rewrite Hs, Hr. reflexivity. Qed.

(** The same error only ends the task of a TCP listener. *)
Lemma acceptIncoming_error (ev : accept_event) (events : list accept_event)
    (ns : NetService) (err : error) :
  ev_result ev = AcceptFailed err →
  (acceptIncoming (ev :: events) ns).1 = TaskReturned.
Proof. intros Hr. cbn. rewrite Hr. reflexivity. Qed.

(** C8 (an error of [Accept] on the local socket): when [Stop] closes the
    socket under the waiting [Accept], [acceptHandlers] calls [log.Fatal]
    and the process exits with status 1; [acceptIncoming] returns on the
    same event. *)
Theorem acceptHandlers_accept_error_is_fatal :
  (acceptHandlers (inr 1%nat) [shutdown_event] example_ns).1 = ProcessExit 1 ∧
  (acceptIncoming [shutdown_event] example_ns).1 = TaskReturned.
Proof. split; reflexivity. Qed.

(** ** Announcements *)

Lemma seconds_in_range (n : Z) :
  0 <= n <= 9223372036 → seconds (int64_wrap n) = n * Second.
Proof.
  intros Hn. unfold seconds, int64_mul, Second.
  rewrite (int64_wrap_in_range n), int64_wrap_in_range;
    unfold in_int64, int64_min, int64_max; lia.
Qed.

(** A [Duration] is an [int64]. *)
Lemma seconds_in_int64 (n : Z) : in_int64 (seconds n).
Proof.
  unfold seconds, int64_mul, int64_wrap, in_int64, int64_min, int64_max.
  pose proof (Z.mod_pos_bound (n * Second + 2 ^ 63) (2 ^ 64) ltac:(lia)). lia.
Qed.

(** More than 9223372036 seconds are more nanoseconds than a [Duration]
    counts. *)
Lemma seconds_overflow (n m : Z) : 9223372036 < n → seconds m ≠ n * Second.
Proof.
  intros Hn Heq. pose proof (seconds_in_int64 m) as Hr. rewrite Heq in Hr.
  unfold in_int64, int64_min, int64_max, Second in Hr. lia.
Qed.

Section AnnounceProperties.
Context `{Gossip}.

Lemma GetAnnounce_row (db : DB) (row : AnnounceRow) (rest : list AnnounceRow) :
  announce db = row :: rest →
  GetAnnounce db = ((ann_payload row, ann_sig row, ann_time row, None), db).
Proof. intros Hrow. unfold GetAnnounce, doTxn, GetAnnounce_work. now rewrite Hrow. Qed.

Lemma GetAnnounce_empty (db : DB) :
  announce db = [] → GetAnnounce db = (([], [], 0, None), db).
Proof. intros Hrow. unfold GetAnnounce, doTxn, GetAnnounce_work. now rewrite Hrow. Qed.

(** [SetAnnounce] with a payload and a signature that are not nil does not
    fail, and [GetAnnounce] reads back what it stored. *)
Lemma SetAnnounce_GetAnnounce (payload sig : bytes) (time : Z) (db : DB) :
  ∃ db', SetAnnounce payload sig time db = (None, db') ∧
         GetAnnounce db' = ((payload, sig, time, None), db') ∧
         config db' = config db ∧ channels db' = channels db ∧
         core db' = core db ∧ node db' = node db ∧ chan db' = chan db.
Proof.
  unfold SetAnnounce, doTxn, SetAnnounce_work, mbind, Tx_bind, tx_bind,
    exec_update_announce, exec_insert_announce, tx_modify, tx_ret.
  destruct (announce db) as [|row rest] eqn:Hrow.
  - destruct (decide (0 = 0)) as [_|Hz]; [|contradiction].
    eexists. split; [reflexivity|].
    split; [|repeat split]. unfold GetAnnounce, doTxn, GetAnnounce_work.
    cbn [announce set_announce]. rewrite Hrow. reflexivity.
  - destruct (decide _) as [Hz|_]; [cbn [length] in Hz; lia|].
    eexists. split; [reflexivity|].
    split; [|repeat split]. unfold GetAnnounce, doTxn, GetAnnounce_work. reflexivity.
Qed.

(** With a nil payload or a nil signature [SetAnnounce] fails on the
    columns that refuse NULL, and leaves the store as it was. *)
Lemma SetAnnounce_nil (payload sig : slice) (time : Z) (db : DB) :
  payload = nil_slice ∨ sig = nil_slice →
  SetAnnounce payload sig time db = (Some ErrConstraint, db).
Proof.
  intros Hnil.
  unfold SetAnnounce, doTxn, SetAnnounce_work, mbind, Tx_bind, tx_bind,
    exec_update_announce, exec_insert_announce, tx_modify, tx_ret.
  destruct (announce db) as [|row rest] eqn:Hrow.
  - destruct (decide (0 = 0)) as [_|Hz]; [|contradiction].
    destruct payload, sig; try reflexivity. destruct Hnil; discriminate.
  - destruct payload, sig; try reflexivity. destruct Hnil; discriminate.
Qed.

(** [generateAnnounce] stamps, signs and stores a new announcement. *)
Lemma generateAnnounce_spec (ns : NetService) (newMsg : AddressMsg) (now : Z) (db : DB) :
  let payload := AddrMsg_Encode (set_Time (UnixToDoge now) newMsg) in
  let msg := EncodeMessage ChannelNode TagAddress (nodeKey ns) payload in
  let a := generateAnnounce ns newMsg now db in
  an_msg a = {| Header := Msg_Header msg; Payload := payload |} ∧
  an_remain a = AnnounceLongevity ∧
  an_signed a = [payload] ∧
  GetAnnounce (an_db a) = ((payload, Msg_Signature msg, now + 300, None), an_db a).
Proof.
  cbn zeta. unfold generateAnnounce.
  destruct (SetAnnounce_GetAnnounce
              (AddrMsg_Encode (set_Time (UnixToDoge now) newMsg))
              (Msg_Signature (EncodeMessage ChannelNode TagAddress (nodeKey ns)
                 (AddrMsg_Encode (set_Time (UnixToDoge now) newMsg))))
              (now + 300) db) as (db' & -> & Hget & _).
  cbn. repeat split. exact Hget.
Qed.

(** C3, as the code has it: [loadOrGenerateAnnounce] uses the stored
    announcement again when it has a payload of at least [AddrMsgMinSize]
    bytes and a signature of 64 bytes, expires in the future, and equals
    the encoding of the next announcement with the stored time; it then
    signs nothing, leaves the store as it is and returns
    [time.Duration(expires-now) * time.Second].  That is the time from now
    to the expiry exactly when no more than 9223372036 seconds are left;
    with more, the count of nanoseconds overflows its [int64].  In every
    other case it is [generateAnnounce] on the next announcement, which
    signs a new payload and stores it with the signature. *)
Theorem loadOrGenerateAnnounce_reuse (ns : NetService) (now gnow : Z) (db : DB) :
  (∀ row rest,
     announce db = row :: rest → reusable ns now row →
     loadOrGenerateAnnounce ns now gnow db =
       {| an_msg := {| Header := ReEncodeMessage ChannelNode TagAddress (Pub (nodeKey ns))
                                   (ann_sig row) (ann_payload row);
                       Payload := ann_payload row |};
          an_remain := seconds (int64_wrap (ann_time row - now));
          an_db := db;
          an_signed := [] |} ∧
     (ann_time row - now <= 9223372036 ↔
      an_remain (loadOrGenerateAnnounce ns now gnow db) = (ann_time row - now) * Second)) ∧
  ((announce db = [] ∨ ∃ row rest, announce db = row :: rest ∧ ¬ reusable ns now row) →
     let a := loadOrGenerateAnnounce ns now gnow db in
     let payload := AddrMsg_Encode (set_Time (UnixToDoge gnow) (nextAnnounce ns)) in
     let msg := EncodeMessage ChannelNode TagAddress (nodeKey ns) payload in
     a = generateAnnounce ns (nextAnnounce ns) gnow db ∧
     an_signed a = [payload] ∧
     GetAnnounce (an_db a) = ((payload, Msg_Signature msg, gnow + 300, None), an_db a)).
Proof.
  split.
  - intros row rest Hrow (Hlen & Hsig & Hexp & Henc).
    assert (loadOrGenerateAnnounce ns now gnow db =
       {| an_msg := {| Header := ReEncodeMessage ChannelNode TagAddress (Pub (nodeKey ns))
                                   (ann_sig row) (ann_payload row);
                       Payload := ann_payload row |};
          an_remain := seconds (int64_wrap (ann_time row - now));
          an_db := db;
          an_signed := [] |}) as Hrun.
    { unfold loadOrGenerateAnnounce. rewrite (GetAnnounce_row _ _ _ Hrow).
      rewrite !bool_decide_eq_true_2 by assumption. cbn [andb].
      unfold bytes_Equal. rewrite bool_decide_eq_true_2 by assumption. reflexivity. }
    split; [exact Hrun|]. rewrite Hrun. cbn [an_remain]. split.
    + intros Hfit. apply seconds_in_range. lia.
    + intros Heq. destruct (decide (ann_time row - now <= 9223372036)) as [Hle|Hgt];
        [exact Hle|].
      exfalso. apply (seconds_overflow (ann_time row - now)
                        (int64_wrap (ann_time row - now))); [lia|exact Heq].
  - intros Hnot. cbn zeta.
    assert (loadOrGenerateAnnounce ns now gnow db
              = generateAnnounce ns (nextAnnounce ns) gnow db) as Hrun.
    { unfold loadOrGenerateAnnounce.
      destruct Hnot as [Hnil|(row & rest & Hrow & Hnot)].
      - rewrite (GetAnnounce_empty _ Hnil).
        destruct (bool_decide (AddrMsgMinSize <= length [])%nat);
          cbn [andb length]; reflexivity.
      - rewrite (GetAnnounce_row _ _ _ Hrow).
        destruct (bool_decide (AddrMsgMinSize <= length (ann_payload row))%nat) eqn:E1;
          [|reflexivity].
        destruct (bool_decide (length (ann_sig row) = 64%nat)) eqn:E2; [|reflexivity].
        destruct (bool_decide (now < ann_time row)) eqn:E3; [|reflexivity].
        cbn [andb]. unfold bytes_Equal.
        match goal with |- context [bool_decide ?P] =>
          destruct (bool_decide P) eqn:E4 end; [|reflexivity].
        exfalso. apply Hnot. unfold reusable.
        apply bool_decide_eq_true in E1, E2, E3, E4. auto. }
    rewrite Hrun. split; [reflexivity|].
    destruct (generateAnnounce_spec ns (nextAnnounce ns) gnow db) as (_ & _ & Hs & Hg).
    split; assumption.
Qed.

End AnnounceProperties.

(** C3 as stated fails on a stored signature that is not 64 bytes long: the
    announcement is stored, not expired and byte-identical to the next one,
    and still a new one is signed and stored. *)
Lemma loadOrGenerateAnnounce_short_signature :
  let db := db_announced (repeat x03 63) in
  let a := loadOrGenerateAnnounce (H := Ref.RefGossip) example_ns 1000 1000 db in
  (∃ row, announce db = [row] ∧ 1000 < ann_time row ∧
          Ref.Encode (set_Time (Time (Ref.Decode (ann_payload row)))
                        (nextAnnounce example_ns)) = ann_payload row) ∧
  an_signed a ≠ [] ∧ an_db a ≠ db.
Proof.
  cbn zeta. split; [|split].
  - eexists. split; [reflexivity|]. split; [reflexivity|]. vm_compute. reflexivity.
  - vm_compute. discriminate.
  - intros Heq. apply (f_equal announce) in Heq. vm_compute in Heq. discriminate.
Qed.

(** With a signature of 64 bytes the stored announcement is used again for
    the 1000 seconds it has left; on a store without one a new
    announcement is signed. *)
Lemma loadOrGenerateAnnounce_reuse_witness :
  let db := db_announced (repeat x03 64) in
  let a := loadOrGenerateAnnounce (H := Ref.RefGossip) example_ns 1000 1000 db in
  an_signed a = [] ∧ an_db a = db ∧ an_remain a = 1000 * Second ∧
  an_signed (loadOrGenerateAnnounce (H := Ref.RefGossip) example_ns 1000 1000 db_rollover)
    = [Ref.Encode (set_Time (1000 - 1386325540) (nextAnnounce example_ns))].
Proof.
  cbn zeta.
  destruct (loadOrGenerateAnnounce_reuse (H := Ref.RefGossip) example_ns 1000 1000
              (db_announced (repeat x03 64))) as [Hreuse _].
  destruct (loadOrGenerateAnnounce_reuse (H := Ref.RefGossip) example_ns 1000 1000
              db_rollover) as [_ Hgen].
  destruct (Hreuse _ [] eq_refl) as [Hrun Hremain].
  { unfold reusable. repeat split; vm_compute; try reflexivity; lia. }
  split; [now rewrite Hrun|]. split; [now rewrite Hrun|].
  split; [apply (proj1 Hremain); vm_compute; discriminate|].
  destruct (Hgen (or_introl eq_refl)) as (_ & Hsigned & _). exact Hsigned.
Defined.

(** ** The [addrChange] channel *)

(** No method of the service assigns the field [addrChange]. *)
Lemma addrChange_trackPeer (conn : Conn) (peer : PeerPtr) (pubKey : bytes)
    (ns : NetService) :
  addrChange (trackPeer conn peer pubKey ns).2 = addrChange ns.
Proof.
  unfold trackPeer. destruct (stopping ns); [reflexivity|].
  destruct (decide (pubKey ≠ NoPubKey)); [|reflexivity].
  cbn [connectedPeers set_connections].
  destruct (connectedPeers ns !! pubKey); reflexivity.
Qed.

Lemma addrChange_adoptPeer (peer : PeerPtr) (pubKey : bytes) (ns : NetService) :
  addrChange (adoptPeer peer pubKey ns).2 = addrChange ns.
Proof. unfold adoptPeer. destruct (connectedPeers ns !! pubKey); reflexivity. Qed.

Lemma addrChange_closePeer (peer : PeerPtr) (p : peerConn) (ns : NetService) :
  addrChange (closePeer peer p ns) = addrChange ns.
Proof.
  unfold closePeer. destruct (connectedPeers ns !! pc_peerPub p) as [q|]; [|reflexivity].
  destruct (decide (q = peer)); reflexivity.
Qed.

Lemma addrChange_trackHandler (conn : Conn) (hand : HandlerPtr) (ns : NetService) :
  addrChange (trackHandler conn hand ns).2 = addrChange ns.
Proof. unfold trackHandler. destruct (stopping ns); reflexivity. Qed.

Lemma addrChange_closeHandler (hand : HandlerPtr) (h : handlerConn) (ns : NetService) :
  addrChange (closeHandler hand h ns) = addrChange ns.
Proof. reflexivity. Qed.

Lemma addrChange_lockPeer (now : Z) (pubKey : bytes) (ns : NetService) :
  addrChange (lockPeer now pubKey ns).2 = addrChange ns.
Proof.
  unfold lockPeer. destruct (lockedPeers ns !! pubKey) as [until|]; [|reflexivity].
  destruct (bool_decide (now < until)); reflexivity.
Qed.

Section AddrChange.
Context `{Gossip}.

Lemma an_signed_loadOrGenerateAnnounce (ns : NetService) (now gnow : Z) (db : DB) :
  (length (an_signed (loadOrGenerateAnnounce ns now gnow db)) <= 1)%nat.
Proof.
  assert (∀ m db0, length (an_signed (generateAnnounce ns m gnow db0)) = 1%nat) as Hgen.
  { intros m db0. now destruct (generateAnnounce_spec ns m gnow db0) as (_ & _ & -> & _). }
  unfold loadOrGenerateAnnounce.
  destruct (GetAnnounce db) as [[[[p s] t] [e|]] db1]; [rewrite Hgen; lia|].
  destruct (_ && _); [|rewrite Hgen; lia].
  destruct (bytes_Equal _ _); [cbn; lia|rewrite Hgen; lia].
Qed.

(** With a nil [addrChange] the case of the [select] that receives from it
    is not ready. *)
Lemma select_addrChange_blocked (gnow : Z) (w : World) :
  addrChange (w_ns w) = None →
  step (ActAnnounceSelect CaseAddrChange gnow) w = None.
Proof.
  intros Hnil. cbn [step]. unfold updateAnnounce_select, case_ready.
  rewrite Hnil. cbn. now destruct (w_pc w).
Qed.

(** A step keeps [addrChange] nil, and signs at most one payload, only at
    the start of [updateAnnounce] or in a round of its timer. *)
Lemma step_addrChange_nil (a : action) (w w' : World) :
  addrChange (w_ns w) = None → step a w = Some w' →
  addrChange (w_ns w') = None ∧
  (length (w_signed w') <= length (w_signed w) + (if start_or_timer a then 1 else 0))%nat.
Proof.
  intros Hnil Hstep. destruct a; cbn [step start_or_timer] in *.
  - destruct (peers (w_heap w) !! peer); [discriminate|].
    injection Hstep as <-. world_simpl. split; [exact Hnil|lia].
  - destruct (hands (w_heap w) !! hand); [discriminate|].
    injection Hstep as <-. world_simpl. split; [exact Hnil|lia].
  - injection Hstep as <-. world_simpl. rewrite addrChange_trackPeer. split; [exact Hnil|lia].
  - injection Hstep as <-. world_simpl. rewrite addrChange_adoptPeer. split; [exact Hnil|lia].
  - destruct (peers (w_heap w) !! peer) as [p|]; [cbn in Hstep|discriminate].
    injection Hstep as <-. world_simpl. rewrite addrChange_closePeer. split; [exact Hnil|lia].
  - injection Hstep as <-. world_simpl. rewrite addrChange_trackHandler. split; [exact Hnil|lia].
  - destruct (hands (w_heap w) !! hand) as [hc|]; [cbn in Hstep|discriminate].
    injection Hstep as <-. world_simpl. split; [exact Hnil|lia].
  - injection Hstep as <-. world_simpl. rewrite addrChange_lockPeer. split; [exact Hnil|lia].
  - destruct (newPeers (w_ns w)) as [ch|]; [|discriminate]. cbn in Hstep.
    destruct (try_send node0 ch) as [[] ch']; [|discriminate].
    injection Hstep as <-. world_simpl. split; [exact Hnil|lia].
  - destruct (recv (newPeers (w_ns w))) as [[x ch]|]; [cbn in Hstep|discriminate].
    injection Hstep as <-. world_simpl. split; [exact Hnil|lia].
  - injection Hstep as <-. world_simpl. split; [exact Hnil|lia].
  - injection Hstep as <-. world_simpl. split; [exact Hnil|lia].
  - injection Hstep as <-. world_simpl. split; [exact Hnil|lia].
  - injection Hstep as <-. world_simpl. split; [exact Hnil|lia].
  - injection Hstep as <-. world_simpl. split; [exact Hnil|lia].
  - injection Hstep as <-. world_simpl. split; [exact Hnil|lia].
  - destruct (w_pc w); try discriminate. injection Hstep as <-.
    cbn [announce_done w_ns w_signed setAnnounce set_encAnnounce addrChange].
    split; [exact Hnil|]. rewrite length_app.
    pose proof (an_signed_loadOrGenerateAnnounce (w_ns w) now gnow (w_db w)). lia.
  - unfold updateAnnounce_select in Hstep.
    destruct (w_pc w); try discriminate.
    destruct c; cbn [case_ready] in Hstep.
    + rewrite Hnil in Hstep. discriminate.
    + injection Hstep as <-.
      cbn [announce_done w_ns w_signed setAnnounce set_encAnnounce addrChange].
      split; [exact Hnil|]. rewrite length_app.
      destruct (generateAnnounce_spec (w_ns w) (nextAnnounce (w_ns w)) gnow (w_db w))
        as (_ & _ & -> & _). cbn. lia.
    + destruct (stopping (w_ns w)); [|discriminate].
      injection Hstep as <-. world_simpl. split; [exact Hnil|lia].
  - destruct (w_pc w); try discriminate.
    destruct (stopping (w_ns w)); [|discriminate].
    injection Hstep as <-. world_simpl. split; [exact Hnil|lia].
Qed.

Lemma run_actions_addrChange_nil (actions : list action) :
  ∀ w w' : World,
    addrChange (w_ns w) = None → run_actions actions w = Some w' →
    addrChange (w_ns w') = None ∧
    (∀ gnow, ActAnnounceSelect CaseAddrChange gnow ∉ actions) ∧
    (length (w_signed w') <=
       length (w_signed w) + length (filter (λ a, start_or_timer a = true) actions))%nat.
Proof.
  induction actions as [|a actions IH]; intros w w' Hnil Hrun.
  - injection Hrun as <-. split; [exact Hnil|]. split; [|cbn; lia].
    intros gnow Hin. inversion Hin.
  - cbn [run_actions] in Hrun.
    destruct (step a w) as [w1|] eqn:Hstep; [|discriminate]. cbn in Hrun.
    destruct (step_addrChange_nil a w w1 Hnil Hstep) as [Hnil1 Hlen1].
    destruct (IH w1 w' Hnil1 Hrun) as (Hnil' & Hnever & Hlen).
    split; [exact Hnil'|]. split.
    + intros gnow Hin. apply elem_of_cons in Hin as [<-|Hin].
      * rewrite (select_addrChange_blocked gnow w Hnil) in Hstep. discriminate.
      * exact (Hnever gnow Hin).
    + rewrite filter_cons. destruct (start_or_timer a) eqn:Ea.
      * rewrite decide_True by reflexivity. cbn [length]. lia.
      * rewrite decide_False by discriminate. lia.
Qed.

(** C10: in every run of a service made by [New], whatever the other
    goroutines do, [addrChange] stays the nil channel, the [select] of
    [updateAnnounce] never takes the case that receives from it, and every
    payload that is signed is signed at the start of [updateAnnounce] or in
    a round of its timer. *)
Theorem addrChange_branch_never_taken (bind : list Address) (public : Address)
    (idenPub : bytes) (key : KeyPair) (allowLocal : bool) (db : DB)
    (actions : list action) (w' : World) :
  run_actions actions (start_world (New bind public idenPub key allowLocal) db) = Some w' →
  addrChange (w_ns w') = None ∧
  (∀ gnow, ActAnnounceSelect CaseAddrChange gnow ∉ actions) ∧
  (length (w_signed w') <= length (filter (λ a, start_or_timer a = true) actions))%nat.
Proof.
  intros Hrun.
  destruct (run_actions_addrChange_nil actions
              (start_world (New bind public idenPub key allowLocal) db) w'
              eq_refl Hrun) as (Hnil & Hnever & Hlen).
  split; [exact Hnil|]. split; [exact Hnever|]. exact Hlen.
Qed.

End AddrChange.

(** A run of the example service: start, a peer, a round of the timer,
    and the shutdown. *)
Lemma addrChange_branch_never_taken_witness :
  let actions := [ActAnnounceStart 1000 1000;
                  ActTrackPeer 7 1 example_key;
                  ActAnnounceSelect CaseTimer 1300;
                  ActGovernorStop;
                  ActAnnounceSelect CaseDone 1301] in
  ∃ w', run_actions (H := Ref.RefGossip) actions (start_world example_ns db_rollover)
          = Some w' ∧
        addrChange (w_ns w') = None ∧ (length (w_signed w') <= 2)%nat.
Proof.
  cbn zeta.
  assert (∃ w', run_actions (H := Ref.RefGossip)
                  [ActAnnounceStart 1000 1000;
                   ActTrackPeer 7 1 example_key;
                   ActAnnounceSelect CaseTimer 1300;
                   ActGovernorStop;
                   ActAnnounceSelect CaseDone 1301]
                  (start_world example_ns db_rollover) = Some w') as [w' Hrun].
  { eexists. vm_compute. reflexivity. }
  exists w'. split; [exact Hrun|].
  destruct (addrChange_branch_never_taken (H := Ref.RefGossip) _ _ _ _ _ _ _ _ Hrun)
    as (Hnil & _ & Hlen).
  split; [exact Hnil|exact Hlen].
Defined.

(** * More properties of the store *)

Section StoreRuns.
Context `{Gossip}.

(** A property that holds of a new store and that every call keeps holds of
    every store a run reaches. *)
Lemma store_run_ind (P : DB → Prop) (today : Z) :
  P (NewSQLiteStore today) →
  (∀ c db, P db → P (store_exec c db)) →
  ∀ calls, P (store_run today calls).
Proof.
  intros Hinit Hstep calls. unfold store_run.
  generalize (NewSQLiteStore today) Hinit. clear Hinit.
  induction calls as [|c calls IH]; intros db Hdb; [exact Hdb|].
  cbn [fold_left]. apply IH, Hstep, Hdb.
Qed.

(** What a call can do to each table. *)
Lemma config_cases (db : DB) :
  config db = [] ∨
  ∃ dayc last rest, config db = {| cfg_dayc := dayc; cfg_last := last |} :: rest.
Proof. destruct (config db) as [|[dayc last] rest]; eauto. Qed.

Lemma TrimNodes_tables (today : Z) (db : DB) :
  let db' := (TrimNodes today db).2 in
  length (config db') = length (config db) ∧ announce db' = announce db ∧
  chan db' = chan db ∧
  (∀ k r, core db' !! k = Some r → core db !! k = Some r) ∧
  (∀ k r, node db' !! k = Some r → node db !! k = Some r) ∧
  (∀ k d, channels db' !! k = Some d → channels db !! k = Some d).
Proof.
  cbn zeta.
  destruct (config_cases db) as [Hcfg|(dayc & last & rest & Hcfg)].
  { rewrite (TrimNodes_no_config _ _ Hcfg). cbn [snd]. repeat split; auto. }
  destruct (decide (last = today)) as [->|Hne]; unfold TrimNodes, doTxn.
  { rewrite (TrimNodes_work_same_day _ _ _ _ Hcfg). cbn [snd]. repeat split; auto. }
  rewrite (TrimNodes_work_advance _ _ _ _ _ Hcfg Hne).
  cbn [snd config announce chan core node channels]. rewrite Hcfg.
  split; [cbn; now rewrite length_map|]. split; [reflexivity|]. split; [reflexivity|].
  split; [|split]; intros k r Hk; now apply map_lookup_filter_Some in Hk.
Qed.

Lemma initConfig_tables (today : Z) (db : DB) :
  let db' := (initConfig today db).2 in
  announce db' = announce db ∧ channels db' = channels db ∧ core db' = core db ∧
  node db' = node db ∧ chan db' = chan db ∧
  (config db = [] → config db' = [{| cfg_dayc := 1; cfg_last := today |}]) ∧
  (config db ≠ [] → config db' = config db).
Proof.
  cbn zeta. unfold initConfig, doTxn, initConfig_work, query_config.
  destruct (config_cases db) as [Hcfg|(dayc & last & rest & Hcfg)]; rewrite Hcfg; cbn.
  all: repeat split; try reflexivity; try discriminate; try congruence; auto.
Qed.

Lemma AddCoreNode_tables (address : Address) (time remainDays services : Z) (db : DB) :
  let db' := (AddCoreNode address time remainDays services db).2 in
  config db' = config db ∧ announce db' = announce db ∧ channels db' = channels db ∧
  node db' = node db ∧ chan db' = chan db.
Proof.
  cbn zeta.
  destruct (AddCoreNode address time remainDays services db) as [[e|] db'] eqn:Hrun.
  - unfold AddCoreNode in Hrun.
    destruct (doTxn tt _ db) as [[u e'] db''] eqn:Htx. injection Hrun as -> <-.
    apply doTxn_error_unchanged in Htx as [-> _]. cbn. auto.
  - apply AddCoreNode_inr in Hrun as (_ & d & _ & ->). cbn. auto.
Qed.

Lemma UpdateCoreTime_spec (now : Z) (address : Address) (db : DB) :
  (UpdateCoreTime now address db).2 = db ∨
  ∃ r d, core db !! Address_ToBytes address = Some r ∧ subquery_dayc db = Some d ∧
         (UpdateCoreTime now address db).2 =
           set_core (<[Address_ToBytes address :=
                        {| core_time := now; core_services := core_services r;
                           core_isnew := core_isnew r;
                           core_dayc := MaxCoreNodeDays + d |}]> (core db)) db.
Proof.
  unfold UpdateCoreTime, doTxn, tx_wrap, exec_update_core_time.
  destruct (core db !! Address_ToBytes address) as [r|]; [|now left].
  destruct (subquery_dayc db) as [d|]; [|now left].
  right. exists r, d. cbn. auto.
Qed.

Lemma SetAnnounce_tables (payload sig : slice) (time : Z) (db : DB) :
  let db' := (SetAnnounce payload sig time db).2 in
  config db' = config db ∧ channels db' = channels db ∧ core db' = core db ∧
  node db' = node db ∧ chan db' = chan db ∧
  (length (announce db) <= 1 → length (announce db') <= 1)%nat ∧
  (length (announce db) <= 1 → is_nil payload = false → is_nil sig = false →
   length (announce db') = 1)%nat.
Proof.
  cbn zeta.
  destruct (decide (is_nil payload = false ∧ is_nil sig = false)) as [[Hp Hs]|Hnil].
  - destruct payload as [|p]; [discriminate|]. destruct sig as [|s]; [discriminate|].
    unfold SetAnnounce, doTxn, SetAnnounce_work, mbind, Tx_bind, tx_bind,
      exec_update_announce, exec_insert_announce, tx_modify, tx_ret.
    destruct (announce db) as [|row rest] eqn:Hrow.
    + destruct (decide (0 = 0)) as [_|Hz]; [|contradiction].
      cbn [snd config channels core node chan announce set_announce].
      rewrite Hrow. cbn. repeat split; auto.
    + destruct (decide _) as [Hz|_]; [cbn [length] in Hz; lia|].
      cbn [snd config channels core node chan announce set_announce].
      rewrite length_map. cbn [length]. repeat split; try reflexivity; lia.
  - rewrite SetAnnounce_nil.
    + cbn [snd]. repeat split; try reflexivity; try lia.
      intros _ Hp Hs. now destruct Hnil.
    + destruct payload, sig; auto. now destruct Hnil.
Qed.

Lemma AddChannel_spec (channel : N) (db : DB) :
  match subquery_dayc db with
  | None => AddChannel channel db = (Some ErrConstraint, db)
  | Some d =>
      AddChannel channel db
        = (None, set_channels (<[channel := 7 + d]> (channels db)) db)
  end.
Proof.
  unfold AddChannel, doTxn, AddChannel_work, mbind, Tx_bind, tx_bind,
    exec_update_channel, exec_insert_channel, tx_ret.
  destruct (channels db !! channel) as [old|] eqn:Hc;
    destruct (subquery_dayc db) as [d|] eqn:Hd; cbn;
    repeat (case_decide; try lia); rewrite ?Hc, ?Hd; reflexivity.
Qed.

(** The calls that only read hand the database back. *)
Lemma ChooseCoreNode_db (seed1 seed2 : nat) (db : DB) :
  (ChooseCoreNode seed1 seed2 db).2 = db.
Proof.
  destruct (ChooseCoreNode seed1 seed2 db) as [[a [e|]] db'] eqn:E; cbn [snd].
  - unfold ChooseCoreNode in E. now apply doTxn_error_unchanged in E as [-> _].
  - now apply ChooseCoreNode_prefers_new in E as [-> _].
Qed.

Lemma GetAnnounce_db (db : DB) : (GetAnnounce db).2 = db.
Proof. unfold GetAnnounce, doTxn, GetAnnounce_work. now destruct (announce db). Qed.

Lemma ChooseNetNode_db (seed : nat) (db : DB) : (ChooseNetNode seed db).2 = db.
Proof.
  unfold ChooseNetNode, doTxn, ChooseNetNode_work, query_node_random.
  destruct (random_row seed (map_to_list (node db))) as [[k r]|]; cbn; [|reflexivity].
  destruct (decide (length k ≠ 32%nat)); [reflexivity|].
  now destruct (AddressFromBytes (node_address r)).
Qed.

Lemma AddNetNode_tables (key : slice) (address : Address) (time : Z) (owner : slice)
    (chans : list N) (payload sig : slice) (db : DB) :
  let db' := (AddNetNode key address time owner chans payload sig db).2 in
  config db' = config db ∧ announce db' = announce db ∧
  channels db' = channels db ∧ core db' = core db.
Proof.
  cbn zeta.
  destruct (AddNetNode key address time owner chans payload sig db)
    as [[changed [e|]] db'] eqn:Hrun; cbn [snd].
  - unfold AddNetNode in Hrun. apply doTxn_error_unchanged in Hrun as [-> _]. auto.
  - destruct (AddNetNode_slices _ _ _ _ _ _ _ _ _ _ Hrun)
      as (k & -> & [(_ & -> & _)|(_ & o & p & s & -> & -> & ->)]); [auto|].
    apply AddNetNode_inr in Hrun.
    destruct Hrun as [r Hrow Hpay | d db1 db2 Hrow Hd Hdb1 Hins
                     | r d db1 db2 Hrow Hpay Hd Hdb1 Hins]; [auto| |].
    + apply insert_channels_inr in Hins as (_ & _ & (-> & -> & -> & -> & _) & _).
      subst db1. auto.
    + apply insert_channels_inr in Hins as (_ & _ & (-> & -> & -> & -> & _) & _).
      subst db1. auto.
Qed.

Lemma UpdateNetTime_tables (key : slice) (db : DB) :
  let db' := (UpdateNetTime key db).2 in
  config db' = config db ∧ announce db' = announce db ∧
  channels db' = channels db ∧ core db' = core db ∧ chan db' = chan db.
Proof.
  cbn zeta. unfold UpdateNetTime, doTxn, tx_wrap, exec_update_node_dayc.
  destruct key as [|key]; [auto|].
  destruct (node db !! key); [|auto]. destruct (subquery_dayc db); cbn; auto.
Qed.

(** [config] stays one row and [announce] at most one. *)
Lemma store_exec_singletons (c : store_call) (db : DB) :
  length (config db) = 1%nat → (length (announce db) <= 1)%nat →
  length (config (store_exec c db)) = 1%nat ∧
  (length (announce (store_exec c db)) <= 1)%nat.
Proof.
  intros Hc Ha.
  destruct c as [today|today|address time remainDays services|now address
                |seed1 seed2| |payload sig time|channel
                |key address time owner chans payload sig|key|seed];
    cbn [store_exec].
  - destruct (initConfig_tables today db) as (-> & _ & _ & _ & _ & _ & Hkeep).
    rewrite Hkeep; [auto|]. destruct (config db); discriminate.
  - destruct (TrimNodes_tables today db) as (-> & -> & _). auto.
  - destruct (AddCoreNode_tables address time remainDays services db) as (-> & -> & _).
    auto.
  - destruct (UpdateCoreTime_spec now address db) as [->|(r & d & _ & _ & ->)]; auto.
  - rewrite ChooseCoreNode_db. auto.
  - rewrite GetAnnounce_db. auto.
  - destruct (SetAnnounce_tables payload sig time db) as (-> & _ & _ & _ & _ & Hlen & _).
    split; [exact Hc|]. apply Hlen, Ha.
  - pose proof (AddChannel_spec channel db) as Hs.
    destruct (subquery_dayc db); rewrite Hs; cbn; auto.
  - destruct (AddNetNode_tables key address time owner chans payload sig db)
      as (-> & -> & _). auto.
  - destruct (UpdateNetTime_tables key db) as (-> & -> & _). auto.
  - rewrite ChooseNetNode_db. auto.
Qed.

Lemma store_run_singletons (today : Z) (calls : list store_call) :
  length (config (store_run today calls)) = 1%nat ∧
  (length (announce (store_run today calls)) <= 1)%nat ∧
  is_Some (subquery_dayc (store_run today calls)).
Proof.
  assert (length (config (store_run today calls)) = 1%nat ∧
          (length (announce (store_run today calls)) <= 1)%nat) as [Hc Ha].
  { apply (store_run_ind (λ db, length (config db) = 1%nat ∧
                                 (length (announce db) <= 1)%nat)).
    - unfold NewSQLiteStore.
      destruct (initConfig_tables today DB_empty) as (Ha & _ & _ & _ & _ & Hc & _).
      rewrite Ha, (Hc eq_refl). cbn. split; [reflexivity|lia].
    - intros c db [Hc Ha]. now apply store_exec_singletons. }
  split; [exact Hc|]. split; [exact Ha|].
  unfold subquery_dayc. destruct (config (store_run today calls)); [discriminate|eauto].
Qed.

(** X1: in every store a run reaches from a new file, [config] has exactly
    one row, so the day counter is there to read, and [announce] has at
    most one row; [AddChannel] and [UpdateNetTime], which fail only for
    want of the day counter, do not fail. *)
Theorem store_singletons (today : Z) (calls : list store_call) :
  let db := store_run today calls in
  length (config db) = 1%nat ∧
  (length (announce db) <= 1)%nat ∧
  is_Some (subquery_dayc db) ∧
  (∀ channel, (AddChannel channel db).1 = None) ∧
  (∀ key, (UpdateNetTime key db).1 = None).
Proof.
  cbn zeta. destruct (store_run_singletons today calls) as (Hc & Ha & [d Hd]).
  split; [exact Hc|]. split; [exact Ha|]. split; [eauto|]. split.
  - intros channel. pose proof (AddChannel_spec channel (store_run today calls)) as Hs.
    rewrite Hd in Hs. now rewrite Hs.
  - intros key. unfold UpdateNetTime, doTxn, tx_wrap, exec_update_node_dayc.
    destruct key as [|key]; [reflexivity|].
    rewrite Hd. now destruct (node (store_run today calls) !! key).
Qed.

(** With a nil slice among the values of the row the statement that writes
    the row fails. *)
Lemma AddNetNode_nil (key : slice) (address : Address) (time : Z) (owner : slice)
    (chans : list N) (payload sig : slice) (db : DB) :
  (¬ ∃ r, node_row key db = Some r ∧ node_payload r = slice_bytes payload) →
  is_nil key || is_nil owner || is_nil payload || is_nil sig = true →
  AddNetNode key address time owner chans payload sig db
    = ((false, Some match node_row key db with
                    | None => Errorf "insert: %v" ErrConstraint
                    | Some _ => Errorf "update: %v" ErrConstraint
                    end), db).
Proof.
  intros Hnew Hnil.
  unfold AddNetNode, doTxn, AddNetNode_work, query_node.
  destruct (node_row key db) as [r|] eqn:Hrow.
  - unfold bytes_Equal. case_bool_decide as Heq; [destruct Hnew; eauto|].
    destruct key as [|k]; [discriminate|]. cbn [node_row] in Hrow.
    unfold mbind, Tx_bind, tx_bind, tx_wrap, exec_update_node. rewrite Hrow.
    destruct owner, payload, sig; try reflexivity. discriminate.
  - cbn. unfold mbind, Tx_bind, tx_bind, tx_wrap, exec_insert_node.
    destruct key, owner, payload, sig; try reflexivity. discriminate.
Qed.

(** With a row to write and no nil slice the call fails only in the loop
    over the channels. *)
Lemma AddNetNode_error (key : bytes) (address : Address) (time : Z) (owner : bytes)
    (chans : list N) (payload sig : bytes) (db db' : DB) (d : Z)
    (changed : bool) (e : error) :
  subquery_dayc db = Some d →
  AddNetNode key address time owner chans payload sig db = ((changed, Some e), db') →
  e = Errorf "insert channel: %v" ErrConstraint.
Proof.
  intros Hd. unfold AddNetNode, doTxn, AddNetNode_work, query_node.
  cbn [node_row slice_bytes].
  destruct (node db !! key) as [r|] eqn:Hrow.
  - unfold bytes_Equal. case_bool_decide as Heq; [discriminate|].
    unfold mbind, Tx_bind, tx_bind, tx_wrap, exec_update_node. rewrite Hrow, Hd.
    unfold exec_delete_chan, tx_modify. cbn [chan set_node set_chan].
    match goal with |- context [insert_channels ?o ?c ?x] =>
      destruct (insert_channels o c x) as [e'|[[] db2]] eqn:Hins end;
      [|discriminate].
    intros [= <- <- <-]. now apply insert_channels_inl in Hins.
  - cbn. unfold mbind, Tx_bind, tx_bind, tx_wrap, exec_insert_node. rewrite Hrow, Hd.
    unfold exec_delete_chan, tx_modify. cbn [chan set_node set_chan].
    match goal with |- context [insert_channels ?o ?c ?x] =>
      destruct (insert_channels o c x) as [e'|[[] db2]] eqn:Hins end;
      [|discriminate].
    intros [= <- <- <-]. now apply insert_channels_inl in Hins.
Qed.

(** X2: on a store with its day counter, [AddNetNode] fails exactly when the
    announcement is new for the store (no row of the key has this payload)
    and either one of the key, the owner, the payload and the signature is
    nil, which the columns refuse, or two of the channels are stored as
    the same value, which the primary key of [chan] refuses.  The error
    is that of the statement that failed: the insertion or the update of
    the row for a nil slice, the insertion of the channel otherwise.
    Nothing of the announcement is stored, and [changed] is false. *)
Theorem AddNetNode_fails_iff (key : slice) (address : Address) (time : Z) (owner : slice)
    (chans : list N) (payload sig : slice) (db : DB) (d : Z) :
  subquery_dayc db = Some d →
  let result := AddNetNode key address time owner chans payload sig db in
  let has_nil := is_nil key || is_nil owner || is_nil payload || is_nil sig in
  (result.1.2 ≠ None ↔
     (¬ ∃ r, node_row key db = Some r ∧ node_payload r = slice_bytes payload) ∧
     (has_nil = true ∨ ¬ NoDup (chan_value <$> chans))) ∧
  (result.1.2 ≠ None →
     result =
       ((false,
         Some (if has_nil
               then match node_row key db with
                    | None => Errorf "insert: %v" ErrConstraint
                    | Some _ => Errorf "update: %v" ErrConstraint
                    end
               else Errorf "insert channel: %v" ErrConstraint)), db)).
Proof.
  intros Hd. cbn zeta.
  assert ((∃ r, node_row key db = Some r ∧ node_payload r = slice_bytes payload) ∨
          ¬ ∃ r, node_row key db = Some r ∧ node_payload r = slice_bytes payload)
    as [Hsame|Hnew].
  { destruct (node_row key db) as [r|]; [|right; intros (r & Hr & _); discriminate].
    destruct (decide (node_payload r = slice_bytes payload)) as [Heq|Hne]; [eauto|].
    right. intros (r' & [= <-] & Hp). contradiction. }
  { destruct Hsame as (r & Hrow & Hpay).
    assert (AddNetNode key address time owner chans payload sig db
              = ((false, None), db)) as ->.
    { unfold AddNetNode, doTxn, AddNetNode_work, query_node. rewrite Hrow.
      unfold bytes_Equal. now rewrite bool_decide_eq_true_2 by exact Hpay. }
    cbn [fst snd]. split; [|intros Hc; now destruct Hc].
    split; [intros Hc; now destruct Hc|]. intros [Hnew _]. destruct Hnew. eauto. }
  destruct (is_nil key || is_nil owner || is_nil payload || is_nil sig) eqn:Hnil.
  { rewrite (AddNetNode_nil _ _ _ _ _ _ _ _ Hnew Hnil). cbn [fst snd].
    split; [|reflexivity]. split; [|discriminate]. intros _. split; [exact Hnew|now left]. }
  destruct key as [|k]; [discriminate|]. destruct owner as [|o]; [discriminate|].
  destruct payload as [|p]; [discriminate|]. destruct sig as [|s]; [discriminate|].
  destruct (AddNetNode k address time o chans p s db)
    as [[changed [e|]] db'] eqn:Hrun; cbn [fst snd].
  - assert (e = Errorf "insert channel: %v" ErrConstraint) as ->
      by exact (AddNetNode_error _ _ _ _ _ _ _ _ _ _ _ _ Hd Hrun).
    unfold AddNetNode in Hrun. pose proof Hrun as Hrun'.
    apply doTxn_error_unchanged in Hrun' as [-> ->].
    split; [|reflexivity]. split; [|discriminate]. intros _.
    split; [exact Hnew|]. right. intros Hnd.
    destruct (AddNetNode_succeeds k address time o chans p s db d Hd Hnd)
      as (c & db2 & Hok). unfold AddNetNode in Hok. congruence.
  - split; [|intros Hc; now destruct Hc]. split; [intros Hc; now destruct Hc|].
    intros [_ [Hc|Hdup]]; [discriminate|]. exfalso. apply AddNetNode_inr in Hrun.
    destruct Hrun as [r Hrow Hpay | d' db1 db2 Hrow Hd' Hdb1 Hins
                     | r d' db1 db2 Hrow Hpay Hd' Hdb1 Hins].
    + apply Hnew. eauto.
    + apply insert_channels_inr in Hins as (Hnd & _). contradiction.
    + apply insert_channels_inr in Hins as (Hnd & _). contradiction.
Qed.

(** X3: on a store with its day counter [AddCoreNode] fails exactly when
    [services] has its highest bit set, which [database/sql] refuses to
    convert; nothing is stored then.  Otherwise a new address gets a
    record that is new and expires after [remainDays]; a known address
    keeps its flag and the later of the two expiries; no other record
    changes, and [CoreStats] counts one record more exactly when the
    address was new.  The expiry after [remainDays] is the sum SQLite
    computes, [remainDays + dayc] whenever that is an [int64]. *)
Theorem AddCoreNode_upsert (address : Address) (time remainDays services : Z)
    (db : DB) (d : Z) :
  subquery_dayc db = Some d →
  (2 ^ 63 <= services →
     AddCoreNode address time remainDays services db
       = (Some (Errorf "update: %v" (uint64_refused "2")), db)) ∧
  (services < 2 ^ 63 →
   ∃ db',
    AddCoreNode address time remainDays services db = (None, db') ∧
    core db' !! Address_ToBytes address =
      Some {| core_time := time; core_services := services;
              core_isnew := from_option core_isnew true
                              (core db !! Address_ToBytes address);
              core_dayc := from_option (λ r, Z.max (core_dayc r) (sql_add remainDays d))
                             (sql_add remainDays d)
                             (core db !! Address_ToBytes address) |} ∧
    (in_int64 (remainDays + d) → sql_add remainDays d = remainDays + d) ∧
    (∀ k, k ≠ Address_ToBytes address → core db' !! k = core db !! k) ∧
    (CoreStats db').1.1.1 =
      (CoreStats db).1.1.1 +
      match core db !! Address_ToBytes address with Some _ => 0 | None => 1 end).
Proof.
  intros Hd. split.
  { intros Hs.
    unfold AddCoreNode, doTxn, AddCoreNode_work, mbind, Tx_bind, tx_bind, tx_wrap,
      exec_update_core.
    destruct (decide (2 ^ 63 <= services)) as [_|Hc]; [reflexivity|contradiction]. }
  intros Hs.
  destruct (AddCoreNode address time remainDays services db) as [[e|] db'] eqn:Hrun.
  - exfalso. revert Hrun.
    unfold AddCoreNode, doTxn, AddCoreNode_work, mbind, Tx_bind, tx_bind, tx_wrap,
      exec_update_core, exec_insert_core.
    destruct (decide (2 ^ 63 <= services)) as [Hc|_]; [lia|].
    destruct (core db !! Address_ToBytes address) as [r|] eqn:Hrow;
      cbn; rewrite ?Hrow, ?Hd; cbn; repeat case_decide; try lia;
      unfold tx_ret; rewrite ?Hrow, ?Hd; discriminate.
  - exists db'. split; [reflexivity|].
    apply AddCoreNode_inr in Hrun as (_ & d' & Hd' & ->).
    assert (d' = d) as -> by congruence.
    cbn [core set_core]. split; [|split; [|split]].
    + rewrite lookup_insert_eq.
      now destruct (core db !! Address_ToBytes address).
    + apply sql_add_in_range.
    + intros k Hk. now rewrite lookup_insert_ne.
    + unfold CoreStats, doTxn. cbn [fst snd core set_core].
      destruct (core db !! Address_ToBytes address) as [r|] eqn:Hrow.
      * rewrite map_size_insert_Some by eauto. lia.
      * rewrite map_size_insert_None by exact Hrow. lia.
Qed.

(** No call of the store clears the flag of a core record. *)
Lemma store_exec_isnew (c : store_call) (db : DB) :
  (∀ k r, core db !! k = Some r → core_isnew r = true) →
  ∀ k r, core (store_exec c db) !! k = Some r → core_isnew r = true.
Proof.
  intros Hall.
  destruct c as [today|today|address time remainDays services|now address
                |seed1 seed2| |payload sig time|channel
                |key address time owner chans payload sig|key|seed];
    cbn [store_exec]; intros k r.
  - destruct (initConfig_tables today db) as (_ & _ & -> & _). apply Hall.
  - destruct (TrimNodes_tables today db) as (_ & _ & _ & Hcore & _).
    intros Hk. eapply Hall, Hcore, Hk.
  - destruct (AddCoreNode address time remainDays services db) as [[e|] db'] eqn:Hrun;
      cbn [snd].
    + unfold AddCoreNode in Hrun.
      destruct (doTxn tt _ db) as [[u e'] db''] eqn:Htx. injection Hrun as -> <-.
      apply doTxn_error_unchanged in Htx as [-> _]. apply Hall.
    + apply AddCoreNode_inr in Hrun as (_ & d & _ & ->). cbn [core set_core].
      destruct (decide (k = Address_ToBytes address)) as [->|Hne].
      * rewrite lookup_insert_eq.
        destruct (core db !! Address_ToBytes address) as [r0|] eqn:Hrow;
          intros [= <-]; cbn; [exact (Hall _ _ Hrow)|reflexivity].
      * rewrite lookup_insert_ne by congruence. apply Hall.
  - destruct (UpdateCoreTime_spec now address db) as [->|(r0 & d & Hrow & _ & ->)];
      [apply Hall|].
    cbn [core set_core].
    destruct (decide (k = Address_ToBytes address)) as [->|Hne].
    + rewrite lookup_insert_eq. intros [= <-]. cbn. exact (Hall _ _ Hrow).
    + rewrite lookup_insert_ne by congruence. apply Hall.
  - rewrite ChooseCoreNode_db. apply Hall.
  - rewrite GetAnnounce_db. apply Hall.
  - destruct (SetAnnounce_tables payload sig time db) as (_ & _ & -> & _). apply Hall.
  - pose proof (AddChannel_spec channel db) as Hs.
    destruct (subquery_dayc db); rewrite Hs; cbn; apply Hall.
  - destruct (AddNetNode_tables key address time owner chans payload sig db)
      as (_ & _ & _ & ->). apply Hall.
  - destruct (UpdateNetTime_tables key db) as (_ & _ & _ & -> & _). apply Hall.
  - rewrite ChooseNetNode_db. apply Hall.
Qed.

(** X4: no call of the store ever clears the flag [isnew]: in every store a
    run reaches from a new file all core records are new, [CoreStats]
    reports as many new records as records, and the query of
    [ChooseCoreNode] for records that are not new finds none. *)
Theorem core_records_stay_new (today : Z) (calls : list store_call) :
  let db := store_run today calls in
  (∀ k r, core db !! k = Some r → core_isnew r = true) ∧
  (CoreStats db).1.1.2 = (CoreStats db).1.1.1 ∧
  core_rows false db = [].
Proof.
  cbn zeta.
  assert (∀ k r, core (store_run today calls) !! k = Some r → core_isnew r = true)
    as Hall.
  { apply (store_run_ind (λ db, ∀ k r, core db !! k = Some r → core_isnew r = true)).
    - intros k r Hk. unfold NewSQLiteStore in Hk.
      destruct (initConfig_tables today DB_empty) as (_ & _ & Hc & _).
      rewrite Hc in Hk. cbn in Hk. now rewrite lookup_empty in Hk.
    - intros c db. apply store_exec_isnew. }
  split; [exact Hall|]. split.
  - unfold CoreStats, doTxn. cbn [fst snd]. f_equal. f_equal.
    apply map_filter_id. intros k r Hk. cbn. exact (Hall k r Hk).
  - unfold core_rows. apply map_to_list_empty_iff, map_empty.
    intros k. apply map_lookup_filter_None. right. intros r Hk. cbn.
    rewrite (Hall k r Hk). discriminate.
Qed.

(** X5: [SetAnnounce] fails exactly when the payload or the signature is
    nil, which the columns of [announce] refuse, and then stores nothing.
    With a payload and a signature that are not nil it does not fail, and
    [GetAnnounce] then returns the payload, signature and expiry it was
    given; on a store with at most one announcement it leaves exactly one,
    so a second [SetAnnounce] replaces the first. *)
Theorem SetAnnounce_last_write_wins (p1 s1 p2 s2 : bytes) (t1 t2 : Z) (db : DB)
    (p s : slice) (t : Z) :
  (length (announce db) <= 1)%nat →
  (∃ db1 db2,
    SetAnnounce p1 s1 t1 db = (None, db1) ∧
    GetAnnounce db1 = ((p1, s1, t1, None), db1) ∧
    SetAnnounce p2 s2 t2 db1 = (None, db2) ∧
    GetAnnounce db2 = ((p2, s2, t2, None), db2) ∧
    announce db2 = [{| ann_payload := p2; ann_sig := s2; ann_time := t2 |}]) ∧
  ((SetAnnounce p s t db).1 ≠ None ↔ is_nil p || is_nil s = true) ∧
  (is_nil p || is_nil s = true → SetAnnounce p s t db = (Some ErrConstraint, db)).
Proof.
  intros Hlen. split; [|split].
  - destruct (SetAnnounce_GetAnnounce p1 s1 t1 db) as (db1 & Hset1 & Hget1 & _).
    destruct (SetAnnounce_GetAnnounce p2 s2 t2 db1) as (db2 & Hset2 & Hget2 & _).
    exists db1, db2. repeat (split; [assumption|]).
    destruct (SetAnnounce_tables p1 s1 t1 db) as (_ & _ & _ & _ & _ & _ & Hlen1).
    destruct (SetAnnounce_tables p2 s2 t2 db1) as (_ & _ & _ & _ & _ & _ & Hlen2).
    rewrite Hset1 in Hlen1. rewrite Hset2 in Hlen2. cbn [snd] in *.
    specialize (Hlen1 Hlen eq_refl eq_refl).
    specialize (Hlen2 ltac:(lia) eq_refl eq_refl).
    unfold GetAnnounce, doTxn, GetAnnounce_work in Hget2.
    destruct (announce db2) as [|row [|row' rest]]; [discriminate| |discriminate].
    destruct row. cbn in Hget2. now injection Hget2 as -> -> ->.
  - destruct p as [|p], s as [|s]; cbn [is_nil orb].
    1-3: rewrite SetAnnounce_nil by auto; cbn [fst]; split; [reflexivity|discriminate].
    destruct (SetAnnounce_GetAnnounce p s t db) as (db1 & -> & _). cbn [fst].
    split; [intros Hc; now destruct Hc|discriminate].
  - intros Hnil. apply SetAnnounce_nil.
    destruct p, s; auto; discriminate.
Qed.

(** X6: on a store with its day counter [AddChannel] does not fail; the
    channel is then among the channels [GetChannels] lists, with the
    expiry [7 + dayc], every channel listed before is still listed, and no
    channel is listed twice. *)
Theorem AddChannel_GetChannels (channel : N) (db : DB) (d : Z) :
  subquery_dayc db = Some d →
  ∃ db',
    AddChannel channel db = (None, db') ∧
    channels db' !! channel = Some (7 + d) ∧
    channel ∈ (GetChannels db').1.1 ∧
    (∀ c, c ∈ (GetChannels db).1.1 → c ∈ (GetChannels db').1.1) ∧
    NoDup (GetChannels db').1.1 ∧
    (GetChannels db').1.2 = None.
Proof.
  intros Hd. pose proof (AddChannel_spec channel db) as Hs. rewrite Hd in Hs.
  eexists. split; [exact Hs|]. cbn [channels set_channels].
  split; [apply lookup_insert_eq|].
  unfold GetChannels, doTxn. cbn [fst snd channels set_channels].
  split; [|split; [|split; [|reflexivity]]].
  - apply list_elem_of_fmap. exists (channel, 7 + d). split; [reflexivity|].
    apply elem_of_map_to_list, lookup_insert_eq.
  - intros c Hc. apply list_elem_of_fmap in Hc as ([c' v] & -> & Hc).
    apply elem_of_map_to_list in Hc. cbn.
    destruct (decide (c' = channel)) as [->|Hne].
    + apply list_elem_of_fmap. exists (channel, 7 + d). split; [reflexivity|].
      apply elem_of_map_to_list, lookup_insert_eq.
    + apply list_elem_of_fmap. exists (c', v). split; [reflexivity|].
      apply elem_of_map_to_list. now rewrite lookup_insert_ne.
  - apply NoDup_fst_map_to_list.
Qed.

(** What the two random choices among the overlay nodes return. *)
Lemma ChooseNetNode_cases (seed : nat) (db : DB) :
  ((ChooseNetNodeMsg seed db).1.2 = Some NotFoundError ↔ node db = ∅) ∧
  ((ChooseNetNode seed db).1.2 = Some NotFoundError ↔ node db = ∅) ∧
  (node db ≠ ∅ →
     ∃ k r, node db !! k = Some r ∧
            ChooseNetNodeMsg seed db =
              (({| rec_PubKey := k; rec_Payload := node_payload r;
                   rec_Sig := node_sig r |}, None), db)) ∧
  (∀ res db', ChooseNetNode seed db = ((res, None), db') →
     db' = db ∧ length (PubKey res) = 32%nat ∧
     ∃ r, node db !! PubKey res = Some r ∧
          AddressFromBytes (node_address r) = inr (NodeAddr res)).
Proof.
  unfold ChooseNetNodeMsg, ChooseNetNode, doTxn, ChooseNetNodeMsg_work,
    ChooseNetNode_work, query_node_random.
  destruct (random_row seed (map_to_list (node db))) as [[k r]|] eqn:Hpick.
  - assert (node db !! k = Some r) as Hk
      by now apply random_row_elem, elem_of_map_to_list in Hpick.
    assert (node db ≠ ∅) as Hne by (intros Hempty; now rewrite Hempty in Hk).
    cbn [fst snd]. split; [|split; [|split]].
    + split; [discriminate|contradiction].
    + split; [|contradiction].
      destruct (decide (length k ≠ 32%nat)); [discriminate|].
      destruct (AddressFromBytes (node_address r)); discriminate.
    + intros _. exists k, r. split; [exact Hk|reflexivity].
    + intros res db'. destruct (decide (length k ≠ 32%nat)) as [|Hlen]; [discriminate|].
      destruct (AddressFromBytes (node_address r)) as [e|a] eqn:Ha; [discriminate|].
      intros [= <- <-]. cbn. split; [reflexivity|]. split; [lia|]. eauto.
  - assert (node db = ∅) as Hempty.
    { apply map_to_list_empty_iff.
      destruct (map_to_list (node db)) as [|x l] eqn:Hl; [reflexivity|].
      destruct (random_row_is_Some seed (x :: l)) as [y Hy]; [discriminate|].
      congruence. }
    rewrite errors_Is_refl. cbn [fst snd].
    split; [|split; [|split]]; [tauto|tauto|contradiction|discriminate].
Qed.

(** X7: [ChooseNetNodeMsg] and [ChooseNetNode] return [NotFoundError] on an
    empty table of overlay nodes and only then; [ChooseNetNodeMsg]
    otherwise returns key, payload and signature of a stored node, and
    [ChooseNetNode], when it returns no error, a stored key of 32 bytes
    with the decoded address of its row.  Both leave the store as it is,
    whether they fail or not. *)
Theorem ChooseNetNode_NotFound_iff_empty (seed : nat) (db : DB) :
  ((ChooseNetNodeMsg seed db).1.2 = Some NotFoundError ↔ node db = ∅) ∧
  ((ChooseNetNode seed db).1.2 = Some NotFoundError ↔ node db = ∅) ∧
  (node db ≠ ∅ →
     ∃ k r, node db !! k = Some r ∧
            ChooseNetNodeMsg seed db =
              (({| rec_PubKey := k; rec_Payload := node_payload r;
                   rec_Sig := node_sig r |}, None), db)) ∧
  (∀ res db', ChooseNetNode seed db = ((res, None), db') →
     db' = db ∧ length (PubKey res) = 32%nat ∧
     ∃ r, node db !! PubKey res = Some r ∧
          AddressFromBytes (node_address r) = inr (NodeAddr res)) ∧
  (ChooseNetNodeMsg seed db).2 = db ∧ (ChooseNetNode seed db).2 = db.
Proof.
  destruct (ChooseNetNode_cases seed db) as (Hmsg & Hnode & Hsome & Hok).
  split; [exact Hmsg|]. split; [exact Hnode|]. split; [exact Hsome|].
  split; [exact Hok|]. split; [|apply ChooseNetNode_db].
  unfold ChooseNetNodeMsg, doTxn, ChooseNetNodeMsg_work.
  now destruct (random_row seed (map_to_list (node db))) as [[k r]|].
Qed.

(** X8: when [core] is not empty and every stored address decodes,
    [ChooseCoreNode] does not fail: it returns the address of a stored
    record, of one that is not new only if no record is new, and leaves the
    store as it is. *)
Theorem ChooseCoreNode_returns_stored (seed1 seed2 : nat) (db : DB) :
  core db ≠ ∅ →
  (∀ k r, core db !! k = Some r → ∃ a, AddressFromBytes k = inr a) →
  ∃ k r res,
    ChooseCoreNode seed1 seed2 db = ((res, None), db) ∧
    core db !! k = Some r ∧ AddressFromBytes k = inr res ∧
    (core_isnew r = false → core_rows true db = []).
Proof.
  intros Hne Hdec.
  destruct (ChooseCoreNode seed1 seed2 db) as [[res [e|]] db'] eqn:Hrun.
  - exfalso. revert Hrun.
    unfold ChooseCoreNode, doTxn, ChooseCoreNode_work, mbind, Tx_bind, tx_bind,
      tx_wrap, query_core_random.
    fold (core_rows true db). fold (core_rows false db).
    assert (∀ b kv, kv ∈ core_rows b db → ∃ a, AddressFromBytes kv.1 = inr a) as Hd.
    { intros b [k r] Hin. apply core_rows_elem in Hin as [Hk _]. exact (Hdec k r Hk). }
    destruct (random_row seed1 (core_rows true db)) as [kv|] eqn:E1.
    + destruct (Hd true kv) as [a Ha]; [now apply random_row_elem in E1|].
      cbn. rewrite Ha. discriminate.
    + rewrite errors_Is_refl.
      destruct (random_row seed2 (core_rows false db)) as [kv|] eqn:E2.
      * destruct (Hd false kv) as [a Ha]; [now apply random_row_elem in E2|].
        cbn. rewrite Ha. discriminate.
      * exfalso. apply Hne, map_empty. intros k.
        destruct (core db !! k) as [r|] eqn:Hk; [|reflexivity]. exfalso.
        assert ((k, r) ∈ core_rows (core_isnew r) db) as Hin
          by now apply core_rows_elem.
        assert (∀ b seed, random_row seed (core_rows b db) = None →
                          core_rows b db = []) as Hnil.
        { intros b seed E. destruct (core_rows b db) as [|x l] eqn:El; [reflexivity|].
          destruct (random_row_is_Some seed (x :: l)) as [y Hy]; [discriminate|].
          congruence. }
        destruct (core_isnew r);
          [rewrite (Hnil true seed1 E1) in Hin|rewrite (Hnil false seed2 E2) in Hin];
          inversion Hin.
  - destruct (ChooseCoreNode_prefers_new seed1 seed2 db db' res Hrun)
      as (-> & k & r & Hk & Ha & Hnew).
    exists k, r, res. auto.
Qed.

(** X9: in every store a run reaches, [UpdateNetTime] does not fail; it
    creates no row, changes no field of the row of the key but the expiry,
    which becomes [30 + dayc] and is never lowered, and changes no other
    row. *)
Theorem UpdateNetTime_refreshes (today : Z) (calls : list store_call) (key : bytes) :
  1 + Z.of_nat (length calls) <= int64_max →
  let db := store_run today calls in
  ∃ db' d,
    UpdateNetTime key db = (None, db') ∧ subquery_dayc db = Some d ∧
    (∀ k, k ≠ key → node db' !! k = node db !! k) ∧
    (node db !! key = None → node db' !! key = None) ∧
    (∀ r, node db !! key = Some r →
       node_dayc r <= 30 + d ∧
       node db' !! key =
         Some {| node_oid := node_oid r; node_address := node_address r;
                 node_time := node_time r; node_owner := node_owner r;
                 node_payload := node_payload r; node_sig := node_sig r;
                 node_dayc := 30 + d |}).
Proof.
  intros Hlen. cbn zeta.
  pose proof (store_run_invariant today calls Hlen) as Hinv.
  destruct (store_run_singletons today calls) as (_ & _ & [d Hd]).
  unfold node_expiry_bounded in Hinv. rewrite Hd in Hinv.
  unfold UpdateNetTime, doTxn, tx_wrap, exec_update_node_dayc.
  destruct (node (store_run today calls) !! key) as [r|] eqn:Hrow.
  - rewrite Hd. eexists _, d. split; [reflexivity|]. split; [reflexivity|].
    cbn [node set_node]. split; [|split].
    + intros k Hk. now rewrite lookup_insert_ne.
    + discriminate.
    + intros r0 [= <-]. split; [exact (Hinv key r Hrow)|apply lookup_insert_eq].
  - exists (store_run today calls), d. split; [reflexivity|]. split; [exact Hd|].
    split; [reflexivity|]. split; [intros _; exact Hrow|]. intros r Hr. congruence.
Qed.

(** ** Rowids *)

Lemma next_rowid_above (rows : gmap bytes NodeRow) (k : bytes) (r : NodeRow) :
  rows !! k = Some r → node_oid r < next_rowid rows.
Proof.
  unfold next_rowid. intros Hk.
  enough (∀ k r, rows !! k = Some r →
            node_oid r <= map_fold (λ _ r acc, Z.max (node_oid r) acc) 0 rows) as Hall
    by (specialize (Hall k r Hk); lia).
  clear k r Hk.
  apply (map_fold_weak_ind (λ acc m, ∀ k r, m !! k = Some r → node_oid r <= acc)).
  - intros k r Hk. now rewrite lookup_empty in Hk.
  - intros i x m acc Hi IH k r Hk.
    destruct (decide (k = i)) as [->|Hne].
    + rewrite lookup_insert_eq in Hk. injection Hk as ->. lia.
    + rewrite lookup_insert_ne in Hk by congruence. specialize (IH k r Hk). lia.
Qed.

Lemma rowid_unique_sub (db db' : DB) :
  (∀ k r, node db' !! k = Some r → node db !! k = Some r) →
  rowid_unique db → rowid_unique db'.
Proof. intros Hsub Hu k1 k2 r1 r2 H1 H2. apply Hu; auto. Qed.

Lemma rowid_unique_insert (db db' : DB) (key : bytes) (r' : NodeRow) :
  node db' = <[key := r']> (node db) →
  (∀ k r, k ≠ key → node db !! k = Some r → node_oid r ≠ node_oid r') →
  rowid_unique db → rowid_unique db'.
Proof.
  intros Hn Hfresh Hu k1 k2 r1 r2. rewrite Hn.
  destruct (decide (k1 = key)) as [->|H1]; destruct (decide (k2 = key)) as [->|H2];
    rewrite ?lookup_insert_eq, ?lookup_insert_ne by congruence.
  - reflexivity.
  - intros [= <-] Hk2 Heq. now destruct (Hfresh k2 r2 H2 Hk2).
  - intros Hk1 [= <-] Heq. now destruct (Hfresh k1 r1 H1 Hk1).
  - apply Hu.
Qed.

Lemma AddNetNode_rowids (key : slice) (address : Address) (time : Z) (owner : slice)
    (chans : list N) (payload sig : slice) (db : DB) :
  rowid_unique db →
  let db' := (AddNetNode key address time owner chans payload sig db).2 in
  rowid_unique db' ∧
  ∀ k r, slice_of k ≠ key → node db !! k = Some r →
    node db' !! k = Some r ∧
    ∀ c, (node_oid r, c) ∈ chan db' ↔ (node_oid r, c) ∈ chan db.
Proof.
  intros Hu. cbn zeta.
  destruct (AddNetNode key address time owner chans payload sig db)
    as [[changed [e|]] db'] eqn:Hrun; cbn [snd].
  { unfold AddNetNode in Hrun. apply doTxn_error_unchanged in Hrun as [-> _]. auto. }
  destruct (AddNetNode_slices _ _ _ _ _ _ _ _ _ _ Hrun)
    as (key' & -> & [(_ & -> & _)|(_ & o & p & s & -> & -> & ->)]); [auto|].
  assert (∀ k : bytes, slice_of k ≠ slice_of key' → k ≠ key') as Hinj
    by (intros k Hk ->; now apply Hk).
  apply AddNetNode_inr in Hrun.
  destruct Hrun as [r Hrow Hpay | d db1 db2 Hrow Hd Hdb1 Hins
                   | r d db1 db2 Hrow Hpay Hd Hdb1 Hins]; [auto| |].
  - apply insert_channels_inr in Hins as (_ & _ & (_ & _ & _ & _ & Hn) & Hchan).
    subst db1. cbn [node chan set_node set_chan] in *. split.
    + eapply rowid_unique_insert; [exact Hn| |exact Hu]. cbn.
      intros k r Hk Hr. pose proof (next_rowid_above _ _ _ Hr). lia.
    + intros k r Hk Hr. apply Hinj in Hk.
      rewrite Hn, lookup_insert_ne by congruence.
      split; [exact Hr|]. intros c. rewrite Hchan.
      pose proof (next_rowid_above _ _ _ Hr) as Hlt. rewrite elem_of_filter. cbn.
      split; [intros [(c' & _ & [= Ho _])|[_ Hin]]; [lia|exact Hin]|].
      intros Hin. right. split; [lia|exact Hin].
  - apply insert_channels_inr in Hins as (_ & _ & (_ & _ & _ & _ & Hn) & Hchan).
    subst db1. cbn [node chan set_node set_chan] in *.
    assert (∀ k r0, k ≠ key' → node db !! k = Some r0 → node_oid r0 ≠ node_oid r) as Hfresh.
    { intros k r0 Hk Hr Heq. apply Hk. exact (Hu k key' r0 r Hr Hrow Heq). }
    split.
    + eapply rowid_unique_insert; [exact Hn|exact Hfresh|exact Hu].
    + intros k r0 Hk Hr. apply Hinj in Hk.
      rewrite Hn, lookup_insert_ne by congruence.
      split; [exact Hr|]. intros c. rewrite Hchan.
      pose proof (Hfresh k r0 Hk Hr) as Hneq. rewrite elem_of_filter. cbn.
      split; [intros [(c' & _ & [= Ho _])|[_ Hin]]; [contradiction|exact Hin]|].
      intros Hin. right. split; [exact Hneq|exact Hin].
Qed.

Lemma store_exec_rowids (c : store_call) (db : DB) :
  rowid_unique db → rowid_unique (store_exec c db).
Proof.
  intros Hu.
  destruct c as [today|today|address time remainDays services|now address
                |seed1 seed2| |payload sig time|channel
                |key address time owner chans payload sig|key|seed];
    cbn [store_exec].
  - destruct (initConfig_tables today db) as (_ & _ & _ & Hn & _).
    eapply rowid_unique_sub; [|exact Hu]. intros k r. now rewrite Hn.
  - destruct (TrimNodes_tables today db) as (_ & _ & _ & _ & Hn & _).
    eapply rowid_unique_sub; [exact Hn|exact Hu].
  - destruct (AddCoreNode_tables address time remainDays services db)
      as (_ & _ & _ & Hn & _).
    eapply rowid_unique_sub; [|exact Hu]. intros k r. now rewrite Hn.
  - destruct (UpdateCoreTime_spec now address db) as [->|(r & d & _ & _ & ->)];
      exact Hu.
  - now rewrite ChooseCoreNode_db.
  - now rewrite GetAnnounce_db.
  - destruct (SetAnnounce_tables payload sig time db) as (_ & _ & _ & Hn & _).
    eapply rowid_unique_sub; [|exact Hu]. intros k r. now rewrite Hn.
  - pose proof (AddChannel_spec channel db) as Hs.
    destruct (subquery_dayc db); rewrite Hs; exact Hu.
  - now apply AddNetNode_rowids.
  - unfold UpdateNetTime, doTxn, tx_wrap, exec_update_node_dayc.
    destruct key as [|key]; [exact Hu|].
    destruct (node db !! key) as [r|] eqn:Hrow; [|exact Hu].
    destruct (subquery_dayc db) as [d|]; [|exact Hu]. cbn [snd].
    eapply rowid_unique_insert; [reflexivity| |exact Hu]. cbn.
    intros k r0 Hk Hr Heq. apply Hk. exact (Hu k key r0 r Hr Hrow Heq).
  - now rewrite ChooseNetNode_db.
Qed.

(** X12: in every store a run reaches no two overlay nodes have the same
    rowid, and [AddNetNode] for one key, with any slices, nil or not,
    leaves every other node as it is, row and channels. *)
Theorem AddNetNode_keeps_other_nodes (today : Z) (calls : list store_call)
    (key : slice) (address : Address) (time : Z) (owner : slice)
    (chans : list N) (payload sig : slice) :
  let db := store_run today calls in
  let db' := (AddNetNode key address time owner chans payload sig db).2 in
  rowid_unique db ∧
  ∀ k r, slice_of k ≠ key → node db !! k = Some r →
    node db' !! k = Some r ∧
    ∀ c, (node_oid r, c) ∈ chan db' ↔ (node_oid r, c) ∈ chan db.
Proof.
  cbn zeta.
  assert (rowid_unique (store_run today calls)) as Hu.
  { apply store_run_ind; [|intros c db; apply store_exec_rowids].
    intros k1 k2 r1 r2 H1. revert H1. unfold NewSQLiteStore.
    destruct (initConfig_tables today DB_empty) as (_ & _ & _ & -> & _).
    cbn. now rewrite lookup_empty. }
  split; [exact Hu|]. now apply AddNetNode_rowids.
Qed.

End StoreRuns.

(** ** The store trimmer *)

(** One round of the trimmer on a store with its one [config] row. *)
Lemma TrimNodes_round (today : Z) (db : DB) (dayc last : Z) :
  config db = [{| cfg_dayc := dayc; cfg_last := last |}] →
  int64_min <= dayc < int64_max →
  (last = today → TrimNodes today db = ((false, 0, 0, None), db)) ∧
  (last ≠ today →
     ∃ remCore remNode,
       TrimNodes today db =
         ((true, remCore, remNode, None),
          {| config := [{| cfg_dayc := dayc + 1; cfg_last := today |}];
             announce := announce db;
             channels := filter (λ kv : N * Z, ¬ kv.2 < dayc + 1) (channels db);
             core := filter (λ kv, ¬ core_dayc kv.2 < dayc + 1) (core db);
             node := filter (λ kv, ¬ node_dayc kv.2 < dayc + 1) (node db);
             chan := chan db |})).
Proof.
  intros Hcfg Hd. split.
  - intros ->. unfold TrimNodes, doTxn.
    now rewrite (TrimNodes_work_same_day _ _ _ _ Hcfg).
  - intros Hne. unfold TrimNodes, doTxn.
    rewrite (TrimNodes_work_advance _ _ _ _ _ Hcfg Hne).
    rewrite (int64_add_succ dayc Hd). cbn [map]. eauto.
Qed.

Lemma last_cons_default {A} (l : list A) :
  ∀ a d, List.last (a :: l) d = List.last l a.
Proof.
  induction l as [|x l IHl]; intros a d; [reflexivity|].
  change (List.last (a :: x :: l) d) with (List.last (x :: l) d).
  rewrite !IHl. reflexivity.
Qed.

Lemma StoreTrimmer_Run_spec (ticks : list Z) :
  ∀ (db : DB) (dayc last : Z),
    config db = [{| cfg_dayc := dayc; cfg_last := last |}] →
    int64_min <= dayc → dayc + Z.of_nat (length ticks) <= int64_max →
    ∃ log db',
      StoreTrimmer_Run ticks db = (log, db') ∧
      let n := Z.of_nat (day_changes last (map unixDayStamp ticks)) in
      config db' = [{| cfg_dayc := dayc + n;
                       cfg_last := List.last (map unixDayStamp ticks) last |}] ∧
      Z.of_nat (length (List.filter is_LogAdvanced log)) = n ∧
      List.filter is_LogTrimError log = [] ∧
      announce db' = announce db ∧ chan db' = chan db ∧
      (n = 0 → db' = db) ∧
      (0 < n →
         (∀ k r, core db' !! k = Some r ↔ core db !! k = Some r ∧ dayc + n <= core_dayc r) ∧
         (∀ k r, node db' !! k = Some r ↔ node db !! k = Some r ∧ dayc + n <= node_dayc r) ∧
         (∀ k d, channels db' !! k = Some d ↔ channels db !! k = Some d ∧ dayc + n <= d)).
Proof.
  induction ticks as [|now rest IH]; intros db dayc last Hcfg Hlo Hhi.
  { exists [], db. cbn. rewrite Z.add_0_r. repeat split; auto; lia. }
  cbn [length] in Hhi. cbn [StoreTrimmer_Run map day_changes].
  set (today := unixDayStamp now).
  destruct (TrimNodes_round today db dayc last Hcfg ltac:(lia)) as [Hsame Hadv].
  assert (List.last (today :: map unixDayStamp rest) last
          = List.last (map unixDayStamp rest) today) as Hlast.
  { apply last_cons_default. }
  rewrite Hlast.
  destruct (decide (today ≠ last)) as [Hne|Heq].
  - destruct (Hadv ltac:(congruence)) as (remCore & remNode & Hrun). rewrite Hrun.
    match type of Hrun with _ = (_, ?d) => set (db1 := d) end.
    destruct (IH db1 (dayc + 1) today eq_refl ltac:(lia) ltac:(lia))
      as (log & db' & Hrest & Hc & Hn & He & Ha & Hch & Hzero & Hpos).
    rewrite Hrest. eexists _, db'. split; [reflexivity|]. cbn zeta in *.
    set (n1 := Z.of_nat (day_changes today (map unixDayStamp rest))) in *.
    assert (0 <= n1) by (subst n1; lia).
    replace (Z.of_nat (1 + day_changes today (map unixDayStamp rest))) with (1 + n1)
      by (subst n1; lia).
    split; [rewrite Hc; do 2 f_equal; lia|].
    split; [cbn; lia|]. split; [exact He|].
    split; [now rewrite Ha|]. split; [now rewrite Hch|].
    split; [lia|]. intros _.
    destruct (decide (n1 = 0)) as [Hz|Hnz].
    + rewrite (Hzero Hz), Hz. subst db1. cbn [core node channels].
      split; [|split]; intros k r; rewrite map_lookup_filter_Some; cbn; intuition lia.
    + destruct (Hpos ltac:(lia)) as (Hcore & Hnode & Hchan).
      split; [|split]; intros k r.
      * rewrite Hcore. subst db1. cbn [core]. rewrite map_lookup_filter_Some. cbn.
        intuition lia.
      * rewrite Hnode. subst db1. cbn [node]. rewrite map_lookup_filter_Some. cbn.
        intuition lia.
      * rewrite Hchan. subst db1. cbn [channels]. rewrite map_lookup_filter_Some. cbn.
        intuition lia.
  - assert (last = today) as Hl 
      by (destruct (decide (last = today)); [assumption|exfalso; apply Heq; congruence]).
    rewrite (Hsame Hl). rewrite Hl in Hcfg.
    destruct (IH db dayc today Hcfg Hlo ltac:(lia))
      as (log & db' & Hrest & Hc & Hn & He & Ha & Hch & Hzero & Hpos).
    rewrite Hrest. eexists _, db'. split; [reflexivity|]. cbn zeta in *.
    change (0 + ?x)%nat with x.
    split; [exact Hc|]. split; [exact Hn|]. split; [exact He|].
    split; [exact Ha|]. split; [exact Hch|]. split; [exact Hzero|exact Hpos].
Qed.

(** X10: the day counter counts changes of day, not days.  On a store
    with its [config] row whose counter cannot overflow, [StoreTrimmer.Run]
    logs no error, leaves in [dayc] the old counter plus the number of
    rounds that found a day other than the one of the round before (as
    many as the lines that say the day-count has advanced), and in [last]
    the day of the last round. *)
Theorem StoreTrimmer_Run_counts_day_changes (ticks : list Z) (db : DB) (dayc last : Z) :
  config db = [{| cfg_dayc := dayc; cfg_last := last |}] →
  int64_min <= dayc → dayc + Z.of_nat (length ticks) <= int64_max →
  let days := map unixDayStamp ticks in
  let result := StoreTrimmer_Run ticks db in
  config result.2 = [{| cfg_dayc := dayc + Z.of_nat (day_changes last days);
                        cfg_last := List.last days last |}] ∧
  length (List.filter is_LogAdvanced result.1) = day_changes last days ∧
  List.filter is_LogTrimError result.1 = [].
Proof.
  intros Hcfg Hlo Hhi. cbn zeta.
  destruct (StoreTrimmer_Run_spec ticks db dayc last Hcfg Hlo Hhi)
    as (log & db' & -> & Hc & Hn & He & _). cbn [fst snd].
  split; [exact Hc|]. split; [lia|exact He].
Qed.

(** X11: what the trimmer leaves.  If no round found a new day the store
    is as it was; otherwise a row of [core], [node] or [channels] is in the
    store afterwards exactly if it was there before with an expiry that is
    not below the final day counter.  The announcement and the channels of
    the nodes are never touched. *)
Theorem StoreTrimmer_Run_survivors (ticks : list Z) (db : DB) (dayc last : Z) :
  config db = [{| cfg_dayc := dayc; cfg_last := last |}] →
  int64_min <= dayc → dayc + Z.of_nat (length ticks) <= int64_max →
  let db' := (StoreTrimmer_Run ticks db).2 in
  announce db' = announce db ∧ chan db' = chan db ∧
  (subquery_dayc db' = Some dayc → db' = db) ∧
  (∀ final, subquery_dayc db' = Some final → final ≠ dayc →
     (∀ k r, core db' !! k = Some r ↔ core db !! k = Some r ∧ final <= core_dayc r) ∧
     (∀ k r, node db' !! k = Some r ↔ node db !! k = Some r ∧ final <= node_dayc r) ∧
     (∀ k d, channels db' !! k = Some d ↔ channels db !! k = Some d ∧ final <= d)).
Proof.
  intros Hcfg Hlo Hhi. cbn zeta.
  destruct (StoreTrimmer_Run_spec ticks db dayc last Hcfg Hlo Hhi)
    as (log & db' & -> & Hc & _ & _ & Ha & Hch & Hzero & Hpos). cbn [fst snd].
  cbn zeta in *. unfold subquery_dayc. rewrite Hc. cbn [cfg_dayc].
  split; [exact Ha|]. split; [exact Hch|]. split.
  - intros [= Heq]. apply Hzero. lia.
  - intros final [= <-] Hne. apply Hpos. lia.
Qed.

(** ** The retries of [doTxn] *)

Lemma doTxn_loop_spec (name : string) (answers : list attempt) :
  ∀ limit : nat,
    (1 <= limit <= length answers)%nat →
    ∃ r sleeps retried a rest,
      doTxn_loop name (Z.of_nat limit) answers = Some (r, sleeps) ∧
      answers = retried ++ a :: rest ∧
      Forall (λ c, retry_conflict c = true) retried ∧
      (length retried < limit)%nat ∧
      (r = TxnReturns ReturnNil ↔ a = Committed) ∧
      (attempt_conflict a = false →
         r = TxnReturns (round_return name a) ∧ sleeps = length retried) ∧
      (attempt_conflict a = true →
         sleeps = S (length retried) ∧
         if decide (S (length retried) = limit)
         then r = TxnReturns (round_return name a)
         else (∃ err, a = WorkError err) ∧ r = TxnBlocks).
Proof.
  induction answers as [|a rest IH]; intros limit [Hlo Hhi]; [cbn in Hhi; lia|].
  cbn [length] in Hhi.
  destruct (attempt_conflict a) eqn:Hc.
  - destruct (decide (limit = 1%nat)) as [->|Hne].
    + exists (TxnReturns (round_return name a)), 1%nat, [], a, rest.
      split.
      { destruct a as [err|err|err|]; cbn in Hc |- *; try discriminate;
          rewrite Hc; reflexivity. }
      split; [reflexivity|]. split; [constructor|]. split; [cbn; lia|].
      split.
      { split; [|intros ->; discriminate].
        destruct a; cbn; intros Hr; try discriminate Hr; reflexivity. }
      split; [congruence|]. intros _. split; [reflexivity|].
      cbn [length]. destruct (decide (1 = 1)%nat) as [_|Hx]; [reflexivity|lia].
    + destruct (retry_conflict a) eqn:Hrc.
      * destruct (IH (limit - 1)%nat ltac:(lia))
          as (r & sleeps & retried & a' & rest' & Hrun & Hans & Hall & Hlen & Hr
              & Hno & Hyes).
        replace (Z.of_nat (limit - 1)) with (Z.of_nat limit - 1) in Hrun by lia.
        exists r, (S sleeps), (a :: retried), a', rest'.
        split.
        { destruct a as [err|err|err|]; cbn in Hc, Hrc |- *; try discriminate;
            rewrite Hc;
            (destruct (decide (Z.of_nat limit - 1 ≠ 0)) as [_|Hz]; [|lia]);
            now rewrite Hrun. }
        split; [now rewrite Hans|]. split; [now constructor|].
        split; [cbn; lia|]. split; [exact Hr|].
        split.
        { intros Hf. destruct (Hno Hf) as [-> ->]. now split. }
        intros Ht. destruct (Hyes Ht) as [-> Hcase]. split; [reflexivity|].
        cbn [length].
        destruct (decide (S (length retried) = (limit - 1)%nat)) as [He|He];
          destruct (decide (S (S (length retried)) = limit)) as [He'|He'];
          try lia; exact Hcase.
      * assert (∃ err, a = WorkError err) as [err ->].
        { destruct a as [err|err|err|]; cbn in Hc, Hrc; try congruence. eauto. }
        cbn in Hc. exists TxnBlocks, 1%nat, [], (WorkError err), rest.
        split.
        { cbn. rewrite Hc.
          destruct (decide (Z.of_nat limit - 1 ≠ 0)) as [_|Hz]; [reflexivity|lia]. }
        split; [reflexivity|]. split; [constructor|]. split; [cbn; lia|].
        split; [split; discriminate|].
        split; [cbn; congruence|]. intros _. split; [reflexivity|].
        cbn [length]. destruct (decide (1%nat = limit)) as [He|_]; [lia|].
        split; [eauto|reflexivity].
  - exists (TxnReturns (round_return name a)), 0%nat, [], a, rest.
    split; [destruct a as [err|err|err|]; cbn in Hc |- *; now rewrite ?Hc|].
    split; [reflexivity|]. split; [constructor|]. split; [cbn; lia|].
    split.
    { split; [|intros ->; reflexivity].
      destruct a; cbn; intros Hr; try discriminate Hr; reflexivity. }
    split; [now split|congruence].
Qed.

(** X13: how [doTxn] ends, given the answers of the engine to 120 rounds.
    Every round before the last one it runs met a busy or locked database
    in [Begin] or in [Commit] and was followed by a sleep of 250 ms.  From
    a round that commits it returns [nil]; from a round with an error that
    is no conflict it returns that error at once; from the 120th round it
    returns in any case, after its sleep, 120 in all, when that round is a
    conflict too.  A conflict in the work of an earlier round is never
    returned: after the sleep the loop calls [Begin] again while the
    transaction still holds the one connection of the pool, and the call
    waits for ever. *)
Theorem doTxn_retry_gives_up (name : string) (answers : list attempt) :
  (120 <= length answers)%nat →
  ∃ r sleeps retried a rest,
    doTxn_retry name answers = Some (r, sleeps) ∧
    answers = retried ++ a :: rest ∧
    Forall (λ c, retry_conflict c = true) retried ∧
    (length retried < 120)%nat ∧
    (r = TxnReturns ReturnNil ↔ a = Committed) ∧
    (attempt_conflict a = false →
       r = TxnReturns (round_return name a) ∧ sleeps = length retried) ∧
    (attempt_conflict a = true →
       sleeps = S (length retried) ∧
       if decide (length retried = 119%nat)
       then r = TxnReturns (round_return name a)
       else (∃ err, a = WorkError err) ∧ r = TxnBlocks).
Proof.
  intros Hlen.
  destruct (doTxn_loop_spec name answers 120 ltac:(lia))
    as (r & sleeps & retried & a & rest & Hrun & Hans & Hall & Hlt & Hr & Hno & Hyes).
  exists r, sleeps, retried, a, rest. unfold doTxn_retry.
  split; [exact Hrun|]. split; [exact Hans|]. split; [exact Hall|].
  split; [exact Hlt|]. split; [exact Hr|]. split; [exact Hno|].
  intros Ht. destruct (Hyes Ht) as [Hs Hcase]. split; [exact Hs|].
  destruct (decide (S (length retried) = 120%nat)) as [He|He];
    destruct (decide (length retried = 119%nat)) as [He'|He']; try lia; exact Hcase.
Qed.

(** * More properties of the net service *)

(** ** Removing from an unordered array *)

Lemma index_of_lookup (x : nat) (l : list nat) :
  ∀ i, index_of x l = Some i → l !! i = Some x.
Proof.
  induction l as [|y l IH]; intros i; cbn; [discriminate|].
  destruct (decide (y = x)) as [->|Hne]; [now intros [= <-]|].
  destruct (index_of x l) as [j|]; cbn; [|discriminate].
  intros [= <-]. cbn. now apply IH.
Qed.

Lemma index_of_None (x : nat) (l : list nat) : index_of x l = None → x ∉ l.
Proof.
  induction l as [|y l IH]; cbn; [intros _ Hin; inversion Hin|].
  destruct (decide (y = x)) as [->|Hne]; [discriminate|].
  destruct (index_of x l) as [j|]; cbn; [discriminate|].
  intros _ Hin. apply elem_of_cons in Hin as [->|Hin]; [contradiction|now apply IH].
Qed.

Lemma index_of_is_Some (x : nat) (l : list nat) : x ∈ l → is_Some (index_of x l).
Proof.
  intros Hin. destruct (index_of x l) as [i|] eqn:E; [eauto|].
  now apply index_of_None in E.
Qed.

(** Moving the last element to the place [i] and cutting the last place
    off takes out the element at [i] and keeps the rest. *)
Lemma swap_remove_Permutation {A} (l : list A) (i : nat) (x z : A) :
  l !! i = Some x → last l = Some z →
  x :: take (length l - 1) (<[i := z]> l) ≡ₚ l.
Proof.
  intros Hi Hlast. apply last_Some in Hlast as [l' ->].
  rewrite length_app. cbn [length].
  replace (length l' + 1 - 1)%nat with (length l') by lia.
  pose proof (lookup_lt_Some _ _ _ Hi) as Hlt. rewrite length_app in Hlt. cbn in Hlt.
  destruct (decide (i = length l')) as [->|Hne].
  - rewrite list_lookup_middle in Hi by reflexivity. injection Hi as ->.
    rewrite list_insert_id by (now rewrite list_lookup_middle).
    rewrite take_app_length. apply Permutation_cons_append.
  - rewrite insert_app_l by lia.
    rewrite <- (length_insert l' i z), take_app_length.
    rewrite lookup_app_l in Hi by lia.
    rewrite insert_take_drop by lia.
    rewrite <- (take_drop_middle l' i x Hi) at 3.
    rewrite <- Permutation_cons_append, <- !Permutation_middle.
    apply Permutation_swap.
Qed.

(** The loop takes out one occurrence of [x] and keeps the rest, in
    another order. *)
Lemma remove_unordered_Permutation (x : nat) (l : list nat) :
  x ∈ l → x :: remove_unordered x l ≡ₚ l.
Proof.
  intros Hin. unfold remove_unordered.
  destruct (index_of_is_Some x l Hin) as [i Hi]. rewrite Hi.
  apply index_of_lookup in Hi.
  destruct (last l) as [z|] eqn:Hlast.
  - now apply swap_remove_Permutation.
  - apply last_None in Hlast. subst l. inversion Hin.
Qed.

Lemma remove_unordered_notin (x : nat) (l : list nat) :
  x ∉ l → remove_unordered x l = l.
Proof.
  intros Hnin. unfold remove_unordered.
  destruct (index_of x l) as [i|] eqn:Hi; [|reflexivity].
  apply index_of_lookup, list_elem_of_lookup_2 in Hi. contradiction.
Qed.

Lemma remove_unordered_app (x : nat) (l : list nat) :
  remove_unordered x (l ++ [x]) ≡ₚ l.
Proof.
  apply (Permutation_cons_inv (a := x)).
  rewrite remove_unordered_Permutation
    by (apply elem_of_app; right; apply list_elem_of_singleton; reflexivity).
  symmetry. apply Permutation_cons_append.
Qed.

(** ** Sessions come and go *)

(** X14: a handler that is tracked and then closed leaves the service as
    it found it: the tracked connections and the handlers are the ones
    there were before, in some order, whatever else they hold. *)
Theorem closeHandler_undoes_trackHandler (hand : HandlerPtr) (h : handlerConn)
    (ns : NetService) :
  stopping ns = false →
  let tracked := trackHandler (hc_conn h) hand ns in
  tracked.1 = true ∧
  connections (closeHandler hand h tracked.2) ≡ₚ connections ns ∧
  handlers (closeHandler hand h tracked.2) ≡ₚ handlers ns ∧
  connectedPeers (closeHandler hand h tracked.2) = connectedPeers ns.
Proof.
  intros Hrun. unfold trackHandler, closeHandler. rewrite Hrun. cbn.
  split; [reflexivity|].
  split; [apply remove_unordered_app|]. split; [apply remove_unordered_app|reflexivity].
Qed.

(** X15: a peer that [trackPeer] accepts and [closePeer] then closes leaves
    the tracked connections as they were, in some order, and, under a key
    of its own, the connected peers as they were.  A connection that
    [trackPeer] refuses while the service runs stays tracked. *)
Theorem closePeer_undoes_trackPeer (peer : PeerPtr) (p : peerConn) (ns : NetService) :
  stopping ns = false →
  let tracked := trackPeer (pc_conn p) peer (pc_peerPub p) ns in
  (tracked.1 = true →
     connections (closePeer peer p tracked.2) ≡ₚ connections ns ∧
     (pc_peerPub p ≠ NoPubKey →
        connectedPeers (closePeer peer p tracked.2) = connectedPeers ns)) ∧
  (tracked.1 = false →
     connections tracked.2 = connections ns ++ [pc_conn p] ∧
     connectedPeers tracked.2 = connectedPeers ns).
Proof.
  intros Hrun. unfold trackPeer. rewrite Hrun. cbv zeta.
  change (connectedPeers (set_connections (connections ns ++ [pc_conn p]) ns))
    with (connectedPeers ns).
  destruct (decide (pc_peerPub p ≠ NoPubKey)) as [Hkey|Hkey].
  - destruct (connectedPeers ns !! pc_peerPub p) as [q|] eqn:Hq; cbn [fst snd].
    + split; [discriminate|]. auto.
    + split; [|discriminate]. intros _. unfold closePeer.
      cbn [connectedPeers connections set_connections set_connectedPeers].
      rewrite lookup_insert_eq.
      destruct (decide (peer = peer)) as [_|Hne]; [|contradiction].
      cbn [connectedPeers connections set_connections set_connectedPeers].
      split; [apply remove_unordered_app|]. intros _. now apply delete_insert_id.
  - cbn [fst snd]. split; [|discriminate]. intros _. split; [|contradiction].
    unfold closePeer.
    cbn [connectedPeers connections set_connections set_connectedPeers].
    destruct (connectedPeers ns !! pc_peerPub p) as [q|]; [destruct (decide (q = peer))|];
      cbn [connectedPeers connections set_connections set_connectedPeers];
      apply remove_unordered_app.
Qed.

(** X16: [closePeer] takes out of the connected peers the session it is
    called for and no other: the entry of another key stays, and so does
    the entry of the peer's key when another session holds it. *)
Theorem closePeer_keeps_other_sessions (peer : PeerPtr) (p : peerConn)
    (ns : NetService) (k : bytes) (q : PeerPtr) :
  let closed := closePeer peer p ns in
  (connectedPeers ns !! k = Some q → k ≠ pc_peerPub p ∨ q ≠ peer →
     connectedPeers closed !! k = Some q) ∧
  (connectedPeers closed !! k = Some q → connectedPeers ns !! k = Some q) ∧
  (connectedPeers ns !! pc_peerPub p = Some peer →
     connectedPeers closed !! pc_peerPub p = None) ∧
  stopping closed = stopping ns ∧ handlers closed = handlers ns.
Proof.
  cbn zeta. unfold closePeer.
  destruct (connectedPeers ns !! pc_peerPub p) as [q'|] eqn:Hq'; cbn.
  - destruct (decide (q' = peer)) as [->|Hne]; cbn.
    + split; [|split; [|split; [|split; reflexivity]]].
      * intros Hk [Hkey|Hptr].
        -- now rewrite lookup_delete_ne.
        -- destruct (decide (k = pc_peerPub p)) as [->|Hkey];
             [congruence|now rewrite lookup_delete_ne].
      * intros Hk. destruct (decide (k = pc_peerPub p)) as [->|Hkey].
        -- now rewrite lookup_delete_eq in Hk.
        -- now rewrite lookup_delete_ne in Hk.
      * intros _. apply lookup_delete_eq.
    + split; [auto|]. split; [auto|]. split; [congruence|]. auto.
  - split; [auto|]. split; [auto|]. split; [congruence|]. auto.
Qed.

(** X17: a peer that [lockPeer] locks is refused for the 300 seconds that
    follow, whatever the clock reads before their end, the refusal changes
    nothing, and the peer can be locked again from then on; other keys
    are not concerned. *)
Theorem lockPeer_holds_300_seconds (now : Z) (k : bytes) (ns : NetService) :
  (lockPeer now k ns).1 = true →
  let locked := (lockPeer now k ns).2 in
  PeerLockTime = 300 * 1000000000 ∧
  (∀ now', now' < now + PeerLockTime → lockPeer now' k locked = (false, locked)) ∧
  (∀ now', now + PeerLockTime <= now' → (lockPeer now' k locked).1 = true) ∧
  (∀ k', k' ≠ k → lockedPeers locked !! k' = lockedPeers ns !! k') ∧
  connectedPeers locked = connectedPeers ns.
Proof.
  unfold lockPeer.
  destruct (match lockedPeers ns !! k with
            | Some until => bool_decide (now < until)
            | None => false
            end) eqn:Hl; [discriminate|].
  intros _. cbn. split; [reflexivity|].
  split; [|split; [|split; [|reflexivity]]].
  - intros now' Hlt. rewrite lookup_insert_eq.
    now rewrite bool_decide_eq_true_2.
  - intros now' Hge. rewrite lookup_insert_eq.
    now rewrite bool_decide_eq_false_2 by lia.
  - intros k' Hne. now rewrite lookup_insert_ne.
Qed.

(** ** Forwarding *)

Lemma peer_offer_queued (msg : RawMessage) (n : nat) (p : peerConn) :
  peer_offer msg (peer_queued msg n p) =
    peer_queued msg
      (if decide (length (ch_buf (pc_send p)) + n < ch_cap (pc_send p))%nat
       then S n else n) p.
Proof.
  unfold peer_offer, peer_queued, try_send. cbn [pc_send pc_conn pc_peerPub ch_buf ch_cap].
  rewrite length_app, repeat_length.
  destruct (decide (length (ch_buf (pc_send p)) + n < ch_cap (pc_send p))%nat);
    cbn [snd ch_buf ch_cap]; [|reflexivity].
  now rewrite <- app_assoc, <- repeat_cons.
Qed.

(** X18: [forwardToPeers] queues the message for every connected peer
    whose queue has room and drops it for the others; it takes nothing
    out of a queue and puts nothing before what is queued, fills no queue
    beyond its capacity, and leaves the sessions that are not connected,
    and the handlers, as they are. *)
Theorem forwardToPeers_offers (msg : RawMessage) (ns : NetService) (h : Heap)
    (ptr : PeerPtr) :
  let h' := forwardToPeers msg ns h in
  hands h' = hands h ∧
  (peers h !! ptr = None → peers h' !! ptr = None) ∧
  ∀ p, peers h !! ptr = Some p →
    ∃ n, peers h' !! ptr = Some (peer_queued msg n p) ∧
         ((∀ k, connectedPeers ns !! k ≠ Some ptr) → n = 0%nat) ∧
         (n ≠ 0%nat → (length (ch_buf (pc_send p)) + n <= ch_cap (pc_send p))%nat) ∧
         ((∃ k, connectedPeers ns !! k = Some ptr) →
          (length (ch_buf (pc_send p)) < ch_cap (pc_send p))%nat → (1 <= n)%nat).
Proof.
  cbn zeta. unfold forwardToPeers. cbn [hands peers]. split; [reflexivity|].
  apply (map_fold_weak_ind
    (λ hp (m : gmap bytes PeerPtr),
       (peers h !! ptr = None → hp !! ptr = None) ∧
       ∀ p, peers h !! ptr = Some p →
         ∃ n, hp !! ptr = Some (peer_queued msg n p) ∧
              ((∀ k, m !! k ≠ Some ptr) → n = 0%nat) ∧
              (n ≠ 0%nat → (length (ch_buf (pc_send p)) + n <= ch_cap (pc_send p))%nat) ∧
              ((∃ k, m !! k = Some ptr) →
               (length (ch_buf (pc_send p)) < ch_cap (pc_send p))%nat → (1 <= n)%nat))).
  - split; [auto|]. intros p Hp. exists 0%nat. split.
    + rewrite Hp. f_equal. destruct p as [c k [buf cap]]. unfold peer_queued. cbn.
      now rewrite app_nil_r.
    + split; [auto|]. split; [contradiction|]. intros [k Hk].
      now rewrite lookup_empty in Hk.
  - intros i x m hp Hi [Hnone Hsome].
    destruct (decide (x = ptr)) as [->|Hne].
    + rewrite lookup_alter_eq. split.
      * intros Hp. now rewrite (Hnone Hp).
      * intros p Hp. destruct (Hsome p Hp) as (n & Hn & Hzero & Hcap & Hroom).
        rewrite Hn. cbn [fmap option_fmap option_map]. rewrite peer_offer_queued.
        eexists. split; [reflexivity|].
        destruct (decide (length (ch_buf (pc_send p)) + n < ch_cap (pc_send p))%nat).
        -- split; [intros Hno; now destruct (Hno i); rewrite lookup_insert_eq|].
           split; lia.
        -- split; [intros Hno; now destruct (Hno i); rewrite lookup_insert_eq|].
           split; [exact Hcap|]. intros _ Hlt. lia.
    + rewrite lookup_alter_ne by exact Hne. split; [exact Hnone|].
      intros p Hp. destruct (Hsome p Hp) as (n & Hn & Hzero & Hcap & Hroom).
      exists n. split; [exact Hn|]. split; [|split; [exact Hcap|]].
      * intros Hno. apply Hzero. intros k Hk. apply (Hno k).
        destruct (decide (k = i)) as [->|Hki]; [congruence|].
        now rewrite lookup_insert_ne.
      * intros [k Hk]. apply Hroom. exists k.
        destruct (decide (k = i)) as [->|Hki].
        -- rewrite lookup_insert_eq in Hk. congruence.
        -- now rewrite lookup_insert_ne in Hk.
Qed.

Section ForwardToHandlers.
Variables (channel : N) (msg : RawMessage).
Variable F : bool * gmap HandlerPtr handlerConn → HandlerPtr →
             bool * gmap HandlerPtr handlerConn.
Hypothesis F_body : ∀ found hs hand,
  F (found, hs) hand =
    match hs !! hand with
    | Some hc =>
        if decide (channel = hc_channel hc) then
          let '(sent, q) := try_send msg (hc_send hc) in
          (if sent then true else found,
           <[hand := {| hc_conn := hc_conn hc; hc_channel := hc_channel hc;
                        hc_send := q |}]> hs)
        else (found, hs)
    | None => (found, hs)
    end.

(** One handler: it takes the message, or nothing changes. *)
Lemma forward_step (found : bool) (hs : gmap HandlerPtr handlerConn) (hand : HandlerPtr) :
  (∃ hc, hs !! hand = Some hc ∧ handler_takes channel hc ∧
         F (found, hs) hand =
           (true, <[hand := {| hc_conn := hc_conn hc; hc_channel := hc_channel hc;
                               hc_send := (try_send msg (hc_send hc)).2 |}]> hs)) ∨
  ((∀ hc, hs !! hand = Some hc → ¬ handler_takes channel hc) ∧
   F (found, hs) hand = (found, hs)).
Proof.
  rewrite F_body. destruct (hs !! hand) as [hc|] eqn:Hh.
  2: { right. split; [discriminate|reflexivity]. }
  destruct (decide (channel = hc_channel hc)) as [Hc|Hc].
  2: { right. split; [|reflexivity]. intros hc' [= <-] [Hch _]. congruence. }
  unfold try_send.
  destruct (decide (length (ch_buf (hc_send hc)) < ch_cap (hc_send hc))%nat) as [Hroom|Hfull].
  - left. exists hc. split; [reflexivity|]. split; [now split|].
    unfold try_send.
    destruct (decide (length (ch_buf (hc_send hc)) < ch_cap (hc_send hc))%nat);
      [reflexivity|contradiction].
  - right. split; [intros hc' [= <-] [_ Hlt]; contradiction|].
    f_equal. apply insert_id. rewrite Hh. now destruct hc.
Qed.

Lemma forward_fold (l : list HandlerPtr) :
  ∀ (found0 : bool) (hs0 : gmap HandlerPtr handlerConn),
    let r := fold_left F l (found0, hs0) in
    (r.1 = true ↔
     found0 = true ∨
     ∃ hand hc, hand ∈ l ∧ hs0 !! hand = Some hc ∧ handler_takes channel hc) ∧
    (∀ hand hc, hs0 !! hand = Some hc → hc_channel hc ≠ channel →
                r.2 !! hand = Some hc) ∧
    ((∀ hand hc, hand ∈ l → hs0 !! hand = Some hc → ¬ handler_takes channel hc) →
     r.2 = hs0).
Proof.
  induction l as [|hand l IH]; intros found0 hs0; cbn zeta.
  { cbn. split; [|auto]. split; [auto|]. intros [Hf|(hand & hc & Hin & _)];
      [exact Hf|inversion Hin]. }
  cbn [fold_left].
  destruct (forward_step found0 hs0 hand) as [(hc & Hh & Htakes & ->)|[Hno ->]].
  - match goal with |- context [fold_left F l (true, ?m)] =>
      destruct (IH true m) as (Hiff & Hkeep & _) end.
    split; [|split].
    + split; [intros _|intros _; apply Hiff; now left].
      right. exists hand, hc. split; [apply elem_of_cons; now left|auto].
    + intros hand' hc' Hh' Hch. apply Hkeep; [|exact Hch].
      destruct (decide (hand' = hand)) as [->|Hne];
        [destruct Htakes; congruence|now rewrite lookup_insert_ne].
    + intros Hnone. exfalso.
      apply (Hnone hand hc); [apply elem_of_cons; now left|exact Hh|exact Htakes].
  - destruct (IH found0 hs0) as (Hiff & Hkeep & Hsame).
    split; [|split; [exact Hkeep|]].
    + rewrite Hiff. split; (intros [Hf|(hand' & hc' & Hin & Hh' & Ht)]; [now left|right]).
      * exists hand', hc'. split; [apply elem_of_cons; now right|auto].
      * apply elem_of_cons in Hin as [->|Hin]; [now destruct (Hno hc' Hh')|eauto].
    + intros Hnone. apply Hsame. intros hand' hc' Hin. apply Hnone.
      apply elem_of_cons. now right.
Qed.

End ForwardToHandlers.

(** X19: [forwardToHandlers] returns [true] exactly if one of the handlers
    listens on the channel and has room in its queue; the handlers on
    other channels and the peers are left as they are, and so is
    everything when the result is [false]. *)
Theorem forwardToHandlers_found (channel : N) (rawHdr payload : bytes)
    (ns : NetService) (h : Heap) :
  let r := forwardToHandlers channel rawHdr payload ns h in
  (r.1 = true ↔
   ∃ hand hc, hand ∈ handlers ns ∧ hands h !! hand = Some hc ∧
              handler_takes channel hc) ∧
  peers r.2 = peers h ∧
  (∀ hand hc, hands h !! hand = Some hc → hc_channel hc ≠ channel →
              hands r.2 !! hand = Some hc) ∧
  (r.1 = false → r.2 = h).
Proof.
  cbn zeta. unfold forwardToHandlers.
  match goal with |- context [fold_left ?f (handlers ns) (false, hands h)] =>
    pose proof (forward_fold channel {| Header := rawHdr; Payload := payload |} f
                  ltac:(intros; reflexivity) (handlers ns) false (hands h))
      as (Hiff & Hkeep & Hsame);
    destruct (fold_left f (handlers ns) (false, hands h)) as [found hs] eqn:Hfold
  end.
  cbn [fst snd peers hands] in *.
  split; [|split; [reflexivity|split; [exact Hkeep|]]].
  - rewrite Hiff. split; [intros [Hf|Hex]; [discriminate|exact Hex]|now right].
  - intros ->. rewrite Hsame; [now destruct h|].
    intros hand hc Hin Hh Ht.
    enough (false = true) by discriminate. apply Hiff. right. eauto.
Qed.

(** ** Accepting peers *)


(** ** The announcement across a restart *)

Section AnnounceRestart.
Context `{Gossip}.

(** X21: an announcement that [generateAnnounce] made is used again by a
    service that starts within the 300 seconds it is valid for, when the
    library encodes it in at least [AddrMsgMinSize] bytes, signs with 64
    bytes and decodes the time it encoded: [loadOrGenerateAnnounce] then
    signs nothing, writes nothing, and announces the stored payload for
    the seconds that remain. *)
Theorem loadOrGenerateAnnounce_after_generateAnnounce (ns : NetService)
    (gnow now gnow' : Z) (db : DB) :
  let payload := AddrMsg_Encode (set_Time (UnixToDoge gnow) (nextAnnounce ns)) in
  let sig := Msg_Signature (EncodeMessage ChannelNode TagAddress (nodeKey ns) payload) in
  let made := generateAnnounce ns (nextAnnounce ns) gnow db in
  (AddrMsgMinSize <= length payload)%nat →
  length sig = 64%nat →
  AddrMsg_Encode (set_Time (Time (DecodeAddrMsg payload)) (nextAnnounce ns)) = payload →
  now < gnow + 300 →
  loadOrGenerateAnnounce ns now gnow' (an_db made) =
    {| an_msg := {| Header := ReEncodeMessage ChannelNode TagAddress (Pub (nodeKey ns))
                                sig payload;
                    Payload := payload |};
       an_remain := seconds (int64_wrap (gnow + 300 - now));
       an_db := an_db made;
       an_signed := [] |} ∧
  Payload (an_msg made) = payload.
Proof.
  intros payload sig made Hlen Hsig Henc Hexp.
  destruct (generateAnnounce_spec ns (nextAnnounce ns) gnow db) as (Hmsg & _ & _ & Hget).
  cbn zeta in Hmsg, Hget. fold payload in Hmsg, Hget. fold sig in Hget. fold made in Hmsg, Hget.
  split; [|now rewrite Hmsg].
  unfold loadOrGenerateAnnounce. rewrite Hget.
  rewrite !bool_decide_eq_true_2 by assumption. cbn [andb].
  unfold bytes_Equal. rewrite bool_decide_eq_true_2 by assumption. reflexivity.
Qed.

End AnnounceRestart.

(** * The network map *)

(** X22: [pluckRandom] returns when the index is one of the array; the
    value it returns is the one at the index, and the rest of the array is
    what remains, no element lost or repeated, one shorter. *)
Theorem pluckRandom_takes_one (idx : nat) (arr : list string) :
  (is_Some (dogenet.pluckRandom idx arr) ↔ (idx < length arr)%nat) ∧
  ∀ arr' val, dogenet.pluckRandom idx arr = Some (arr', val) →
    arr !! idx = Some val ∧ val :: arr' ≡ₚ arr ∧ length arr = S (length arr').
Proof.
  unfold dogenet.pluckRandom. split.
  - split.
    + intros [r Hr]. destruct (arr !! idx) as [val|] eqn:Hi; [|discriminate].
      now apply lookup_lt_Some in Hi.
    + intros Hlt. destruct (lookup_lt_is_Some_2 arr idx Hlt) as [val ->].
      destruct (last arr) as [z|] eqn:Hl; [eauto|].
      apply last_None in Hl. subst arr. cbn in Hlt. lia.
  - intros arr' val. destruct (arr !! idx) as [v|] eqn:Hi; [|discriminate].
    destruct (last arr) as [z|] eqn:Hl; [|discriminate].
    intros [= <- <-]. split; [reflexivity|].
    pose proof (swap_remove_Permutation arr idx v z Hi Hl) as Hperm.
    split; [exact Hperm|]. apply Permutation_length in Hperm. cbn in Hperm. lia.
Qed.

(** What a run of [AddNode] keeps true of the map. *)
Lemma AddNode_calls_invariant (calls : list (string * N * N)) :
  let m := dogenet.state (dogenet.AddNode_calls calls dogenet.NewNetMap) in
  NoDup (dogenet.NewNodes m) ∧
  (∀ k, k ∈ dogenet.NewNodes m ↔ is_Some (dogenet.Nodes m !! k)) ∧
  length (dogenet.NewNodes m) = size (dogenet.Nodes m) ∧
  (∀ k, is_Some (dogenet.Nodes m !! k) ↔ ∃ t s, (k, t, s) ∈ calls) ∧
  (∀ k info, dogenet.Nodes m !! k = Some info →
     (k, dogenet.Time info, dogenet.Services info) ∈ calls ∧
     ∀ t s, (k, t, s) ∈ calls → (t <= dogenet.Time info)%N).
Proof.
  cbn zeta. induction calls as [|[[key time] services] calls IH] using rev_ind.
  { cbn. split; [constructor|]. split.
    - intros k. rewrite lookup_empty. split; [intros Hin; inversion Hin|intros [x Hx]; discriminate].
    - split; [now rewrite map_size_empty|]. split.
      + intros k. rewrite lookup_empty.
        split; [intros [x Hx]; discriminate|intros (t & s & Hin); inversion Hin].
      + intros k info. now rewrite lookup_empty. }
  unfold dogenet.AddNode_calls in *. rewrite fold_left_app. cbn [fold_left].
  set (m := fold_left _ calls dogenet.NewNetMap) in *.
  destruct IH as (Hnd & Hq & Hsize & Hdom & Hmax).
  assert (∀ k t s, (k, t, s) ∈ calls ++ [(key, time, services)] ↔
                   (k, t, s) ∈ calls ∨ (k, t, s) = (key, time, services)) as Hin.
  { intros k t s. rewrite elem_of_app, list_elem_of_singleton. reflexivity. }
  unfold dogenet.AddNode.
  destruct (dogenet.Nodes (dogenet.state m) !! key) as [old|] eqn:Hold;
    cbn [dogenet.state dogenet.Nodes dogenet.NewNodes].
  - destruct (Hmax key old Hold) as [Hcall Hle].
    destruct (decide (dogenet.Time old < time)%N) as [Hlt|Hge].
    + split; [exact Hnd|]. split.
      { intros k. rewrite Hq. destruct (decide (k = key)) as [->|Hk];
          [rewrite lookup_insert_eq, Hold|rewrite lookup_insert_ne by congruence];
          split; eauto. }
      split; [rewrite map_size_insert_Some by eauto; exact Hsize|]. split.
      { intros k. destruct (decide (k = key)) as [->|Hk].
        - rewrite lookup_insert_eq. split; [intros _|eauto].
          exists time, services. apply Hin. now right.
        - rewrite lookup_insert_ne by congruence. rewrite Hdom.
          split; intros (t & s & Hc); exists t, s; [apply Hin; now left|].
          apply Hin in Hc as [Hc|[= -> _ _]]; [exact Hc|contradiction]. }
      intros k info. destruct (decide (k = key)) as [->|Hk].
      * rewrite lookup_insert_eq. intros [= <-]. cbn. split; [apply Hin; now right|].
        intros t s Hc. apply Hin in Hc as [Hc|[= -> _]]; [|lia].
        specialize (Hle t s Hc). lia.
      * rewrite lookup_insert_ne by congruence. intros Hk'.
        destruct (Hmax k info Hk') as [Hc Hle']. split; [apply Hin; now left|].
        intros t s Hc'. apply Hin in Hc' as [Hc'|[= -> _ _]]; [eauto|contradiction].
    + split; [exact Hnd|]. split; [exact Hq|]. split; [exact Hsize|]. split.
      { intros k. rewrite Hdom. split; intros (t & s & Hc).
        - exists t, s. apply Hin. now left.
        - apply Hin in Hc as [Hc|[= -> _ _]]; [eauto|].
          exists (dogenet.Time old), (dogenet.Services old). exact Hcall. }
      intros k info Hk. destruct (Hmax k info Hk) as [Hc Hle'].
      split; [apply Hin; now left|].
      intros t s Hc'. apply Hin in Hc' as [Hc'|[= -> -> _]]; [eauto|].
      rewrite Hold in Hk. injection Hk as <-. lia.
  - assert (key ∉ dogenet.NewNodes (dogenet.state m)) as Hfresh.
    { rewrite Hq, Hold. intros [x Hx]. discriminate. }
    split.
    { apply NoDup_app. split; [exact Hnd|]. split; [|apply NoDup_singleton].
      intros k Hk Hk'. apply list_elem_of_singleton in Hk'. now subst k. }
    split.
    { intros k. rewrite elem_of_app, list_elem_of_singleton, Hq.
      destruct (decide (k = key)) as [->|Hk];
        [rewrite lookup_insert_eq|rewrite lookup_insert_ne by congruence].
      - split; eauto.
      - split; [intros [Hs|Heq]; [exact Hs|contradiction]|now left]. }
    split; [rewrite length_app, map_size_insert_None by exact Hold; cbn; lia|]. split.
    { intros k. destruct (decide (k = key)) as [->|Hk].
      - rewrite lookup_insert_eq. split; [intros _|eauto].
        exists time, services. apply Hin. now right.
      - rewrite lookup_insert_ne by congruence. rewrite Hdom.
        split; intros (t & s & Hc); exists t, s; [apply Hin; now left|].
        apply Hin in Hc as [Hc|[= -> _ _]]; [exact Hc|contradiction]. }
    intros k info. destruct (decide (k = key)) as [->|Hk].
    + rewrite lookup_insert_eq. intros [= <-]. cbn. split; [apply Hin; now right|].
      intros t s Hc. apply Hin in Hc as [Hc|[= -> _]]; [|lia].
      exfalso. assert (is_Some (dogenet.Nodes (dogenet.state m) !! key)) as [x Hx]
        by (apply Hdom; eauto). congruence.
    + rewrite lookup_insert_ne by congruence. intros Hk'.
      destruct (Hmax k info Hk') as [Hc Hle']. split; [apply Hin; now left|].
      intros t s Hc'. apply Hin in Hc' as [Hc'|[= -> _ _]]; [eauto|contradiction].
Qed.

(** The entry of an address is that of the first call with the newest
    timestamp: every call before it was older, and no call after it was
    newer. *)
Lemma AddNode_calls_first_newest (calls : list (string * N * N)) :
  ∀ k info,
    dogenet.Nodes (dogenet.state (dogenet.AddNode_calls calls dogenet.NewNetMap)) !! k
      = Some info →
    ∃ before after,
      calls = before ++ (k, dogenet.Time info, dogenet.Services info) :: after ∧
      (∀ t s, (k, t, s) ∈ before → (t < dogenet.Time info)%N) ∧
      (∀ t s, (k, t, s) ∈ after → (t <= dogenet.Time info)%N).
Proof.
  induction calls as [|[[key time] services] calls IH] using rev_ind.
  { intros k info. cbn. now rewrite lookup_empty. }
  destruct (AddNode_calls_invariant calls) as (_ & _ & _ & Hdom & Hmax).
  cbn zeta in Hdom, Hmax. revert IH Hdom Hmax.
  unfold dogenet.AddNode_calls. rewrite fold_left_app. cbn [fold_left].
  set (m := fold_left _ calls dogenet.NewNetMap). intros IH Hdom Hmax k info.
  assert (∀ (before after : list (string * N * N)) (x c : string * N * N),
            calls = before ++ x :: after →
            calls ++ [c] = before ++ x :: (after ++ [c])) as Happ.
  { intros before after x c ->. now rewrite <- app_assoc. }
  unfold dogenet.AddNode.
  destruct (dogenet.Nodes (dogenet.state m) !! key) as [old|] eqn:Hold;
    cbn [dogenet.state dogenet.Nodes].
  - destruct (Hmax key old Hold) as [_ Hle].
    destruct (decide (dogenet.Time old < time)%N) as [Hlt|Hge].
    + destruct (decide (k = key)) as [->|Hk].
      * rewrite lookup_insert_eq. intros [= <-]. cbn.
        exists calls, []. split; [reflexivity|]. split.
        -- intros t s Hc. specialize (Hle t s Hc). lia.
        -- intros t s Hc. inversion Hc.
      * rewrite lookup_insert_ne by congruence. intros Hk'.
        destruct (IH k info Hk') as (before & after & Hcalls & Hbefore & Hafter).
        exists before, (after ++ [(key, time, services)]).
        split; [now apply Happ|]. split; [exact Hbefore|].
        intros t s Hc. apply elem_of_app in Hc as [Hc|Hc]; [eauto|].
        apply list_elem_of_singleton in Hc. injection Hc as -> _ _. contradiction.
    + intros Hk'.
      destruct (IH k info Hk') as (before & after & Hcalls & Hbefore & Hafter).
      exists before, (after ++ [(key, time, services)]).
      split; [now apply Happ|]. split; [exact Hbefore|].
      intros t s Hc. apply elem_of_app in Hc as [Hc|Hc]; [eauto|].
      apply list_elem_of_singleton in Hc. injection Hc as -> -> _.
      rewrite Hold in Hk'. injection Hk' as <-. lia.
  - destruct (decide (k = key)) as [->|Hk].
    + rewrite lookup_insert_eq. intros [= <-]. cbn.
      exists calls, []. split; [reflexivity|]. split.
      * intros t s Hc. exfalso.
        assert (is_Some (dogenet.Nodes (dogenet.state m) !! key)) as [x Hx]
          by (apply Hdom; eauto). congruence.
      * intros t s Hc. inversion Hc.
    + rewrite lookup_insert_ne by congruence. intros Hk'.
      destruct (IH k info Hk') as (before & after & Hcalls & Hbefore & Hafter).
      exists before, (after ++ [(key, time, services)]).
      split; [now apply Happ|]. split; [exact Hbefore|].
      intros t s Hc. apply elem_of_app in Hc as [Hc|Hc]; [eauto|].
      apply list_elem_of_singleton in Hc. injection Hc as -> _ _. contradiction.
Qed.

(** X23: after a run of [AddNode] on a new map, the map knows exactly the
    addresses that were added, each with the newest timestamp it was
    added with, and each is in the queue of new nodes once: the two
    numbers of [Stats] are equal.  An equal timestamp does not replace
    the entry: time and services are those of the first call with the
    newest timestamp, every call for the address before it being older. *)
Theorem AddNode_newest_time_wins (calls : list (string * N * N)) :
  let Map := dogenet.AddNode_calls calls dogenet.NewNetMap in
  let m := dogenet.state Map in
  (∀ k, is_Some (dogenet.Nodes m !! k) ↔ ∃ t s, (k, t, s) ∈ calls) ∧
  (∀ k info, dogenet.Nodes m !! k = Some info →
     (k, dogenet.Time info, dogenet.Services info) ∈ calls ∧
     ∀ t s, (k, t, s) ∈ calls → (t <= dogenet.Time info)%N) ∧
  (∀ k info, dogenet.Nodes m !! k = Some info →
     ∃ before after,
       calls = before ++ (k, dogenet.Time info, dogenet.Services info) :: after ∧
       (∀ t s, (k, t, s) ∈ before → (t < dogenet.Time info)%N) ∧
       (∀ t s, (k, t, s) ∈ after → (t <= dogenet.Time info)%N)) ∧
  NoDup (dogenet.NewNodes m) ∧
  (∀ k, k ∈ dogenet.NewNodes m ↔ is_Some (dogenet.Nodes m !! k)) ∧
  (dogenet.Stats Map).1 = (dogenet.Stats Map).2.
Proof.
  cbn zeta. destruct (AddNode_calls_invariant calls) as (Hnd & Hq & Hsize & Hdom & Hmax).
  split; [exact Hdom|]. split; [exact Hmax|].
  split; [apply AddNode_calls_first_newest|].
  split; [exact Hnd|]. split; [exact Hq|].
  unfold dogenet.Stats. cbn [fst snd]. now rewrite Hsize.
Qed.

(** * The keys of the node *)

(** [hex.DecodeString] succeeds exactly on an even number of digits, and
    gives half as many bytes. *)
Lemma hex_DecodeString_inr (s : string) :
  ∀ bs, hex_DecodeString s = inr bs →
        is_hex s = true ∧ String.length s = (2 * length bs)%nat.
Proof.
  enough ((∀ bs, hex_DecodeString s = inr bs →
                 is_hex s = true ∧ String.length s = (2 * length bs)%nat) ∧
          (∀ a bs, hex_DecodeString (String a s) = inr bs →
                   is_hex (String a s) = true ∧
                   String.length (String a s) = (2 * length bs)%nat)) as [Hs _]
    by exact Hs.
  induction s as [|b rest [IH1 IH2]].
  - split.
    + intros bs [= <-]. split; reflexivity.
    + intros a bs. cbn [hex_DecodeString]. destruct (fromHexChar a); discriminate.
  - split; [apply IH2|]. intros a bs. cbn [hex_DecodeString].
    destruct (fromHexChar a) as [x|] eqn:Ha; [|discriminate].
    destruct (fromHexChar b) as [y|] eqn:Hb; [|discriminate].
    destruct (hex_DecodeString rest) as [e|bs'] eqn:Hrest; [discriminate|].
    intros [= <-]. destruct (IH1 bs' eq_refl) as [Hhex Hlen].
    cbn [is_hex String.length length]. rewrite Ha, Hb. split; [exact Hhex|lia].
Qed.

Lemma hex_DecodeString_total (s : string) :
  is_hex s = true → Nat.Even (String.length s) → ∃ bs, hex_DecodeString s = inr bs.
Proof.
  enough ((is_hex s = true → Nat.Even (String.length s) →
           ∃ bs, hex_DecodeString s = inr bs) ∧
          (∀ a, is_hex (String a s) = true → Nat.Even (String.length (String a s)) →
                ∃ bs, hex_DecodeString (String a s) = inr bs)) as [Hs _]
    by exact Hs.
  induction s as [|b rest [IH1 IH2]].
  - split; [eauto|]. intros a _ [n Hn]. cbn in Hn. lia.
  - split; [apply IH2|]. intros a Hhex Heven. cbn [hex_DecodeString].
    cbn [is_hex] in Hhex.
    destruct (fromHexChar a) as [x|]; [|discriminate].
    destruct (fromHexChar b) as [y|]; [|discriminate].
    destruct (IH1 Hhex) as [bs ->]; [|eauto].
    destruct Heven as [n Hn]. cbn [String.length] in Hn. exists (n - 1)%nat. lia.
Qed.

Lemma hex_DecodeString_length (s : string) (n : nat) :
  (∃ bs, hex_DecodeString s = inr bs ∧ length bs = n) ↔
  is_hex s = true ∧ String.length s = (2 * n)%nat.
Proof.
  split.
  - intros (bs & Hdec & <-). now apply hex_DecodeString_inr.
  - intros [Hhex Hlen].
    destruct (hex_DecodeString_total s Hhex) as [bs Hdec]; [exists n; lia|].
    exists bs. split; [exact Hdec|].
    apply hex_DecodeString_inr in Hdec as [_ Hlen']. lia.
Qed.

(** X24: [keysFromEnv] returns exactly if [KEY] is 128 hexadecimal digits
    and [IDENT] is 64, with the key pair of the 64 bytes and the 32 bytes
    of the identity; otherwise the process exits with code 3.  In every
    case the key is taken out of the environment first. *)
Theorem keysFromEnv_exits_with_3 (KeyPairFromPrivKey : bytes → KeyPair)
    (env : gmap string string) :
  let r := keysFromEnv KeyPairFromPrivKey env in
  let good :=
    (is_hex (Getenv "KEY" env) = true ∧ String.length (Getenv "KEY" env) = 128%nat) ∧
    (is_hex (Getenv "IDENT" env) = true ∧ String.length (Getenv "IDENT" env) = 64%nat) in
  Getenv "KEY" r.2 = EmptyString ∧
  (∀ name, name ≠ "KEY"%string → Getenv name r.2 = Getenv name env) ∧
  (good → ∃ nodeKey idenPub,
     hex_DecodeString (Getenv "KEY" env) = inr nodeKey ∧ length nodeKey = 64%nat ∧
     hex_DecodeString (Getenv "IDENT" env) = inr idenPub ∧ length idenPub = 32%nat ∧
     r.1 = inr (KeyPairFromPrivKey nodeKey, idenPub)) ∧
  (¬ good → r.1 = inl 3).
Proof.
  cbn zeta.
  assert (Getenv "IDENT" (<["KEY"%string := EmptyString]> env) = Getenv "IDENT" env) as Hid
    by (unfold Getenv; now rewrite lookup_insert_ne).
  unfold keysFromEnv. rewrite Hid.
  set (env' := <["KEY"%string := EmptyString]> env).
  assert (Getenv "KEY" env' = EmptyString ∧
          ∀ name, name ≠ "KEY"%string → Getenv name env' = Getenv name env) as [Hk Ho].
  { unfold Getenv, env'. rewrite lookup_insert_eq. split; [reflexivity|].
    intros name Hne. now rewrite lookup_insert_ne. }
  pose proof (hex_DecodeString_length (Getenv "KEY" env) 64) as HK.
  pose proof (hex_DecodeString_length (Getenv "IDENT" env) 32) as HI.
  change (2 * 64)%nat with 128%nat in HK. change (2 * 32)%nat with 64%nat in HI.
  destruct (decide (Getenv "KEY" env = EmptyString)) as [Hke|Hke].
  { cbn [fst snd]. split; [exact Hk|split; [exact Ho|split; [|reflexivity]]].
    intros [[_ Hlen] _]. rewrite Hke in Hlen. discriminate. }
  destruct (hex_DecodeString (Getenv "KEY" env)) as [e|nodeKey] eqn:Hdk.
  { cbn [fst snd]. split; [exact Hk|split; [exact Ho|split; [|reflexivity]]].
    intros [Hgood _]. apply HK in Hgood as (bs & Hbs & _). discriminate. }
  destruct (decide (length nodeKey ≠ 64%nat)) as [Hlk|Hlk].
  { cbn [fst snd]. split; [exact Hk|split; [exact Ho|split; [|reflexivity]]].
    intros [Hgood _]. apply HK in Hgood as (bs & [= <-] & Hlen). contradiction. }
  destruct (decide (Getenv "IDENT" env = EmptyString)) as [Hie|Hie].
  { cbn [fst snd]. split; [exact Hk|split; [exact Ho|split; [|reflexivity]]].
    intros [_ [_ Hlen]]. rewrite Hie in Hlen. discriminate. }
  destruct (hex_DecodeString (Getenv "IDENT" env)) as [e|idenPub] eqn:Hdi.
  { cbn [fst snd]. split; [exact Hk|split; [exact Ho|split; [|reflexivity]]].
    intros [_ Hgood]. apply HI in Hgood as (bs & Hbs & _). discriminate. }
  destruct (decide (length idenPub ≠ 32%nat)) as [Hli|Hli].
  { cbn [fst snd]. split; [exact Hk|split; [exact Ho|split; [|reflexivity]]].
    intros [_ Hgood]. apply HI in Hgood as (bs & [= <-] & Hlen). contradiction. }
  cbn [fst snd]. split; [exact Hk|]. split; [exact Ho|]. split.
  - intros _. exists nodeKey, idenPub. repeat split; auto; lia.
  - intros Hbad. exfalso. apply Hbad. split; [apply HK|apply HI]; eauto.
    + exists nodeKey. split; [reflexivity|lia].
    + exists idenPub. split; [reflexivity|lia].
Qed.

(** * The version message *)

Lemma int32_uint32 (z : Z) : - 2 ^ 31 <= z < 2 ^ 31 → msg.int32 (msg.uint32 z) = z.
Proof.
  intros Hz. unfold msg.int32, msg.uint32.
  rewrite Zplus_mod_idemp_l. rewrite Z.mod_small; lia.
Qed.

Lemma int64_uint64 (z : Z) : - 2 ^ 63 <= z < 2 ^ 63 → msg.int64 (msg.uint64 z) = z.
Proof.
  intros Hz. unfold msg.int64, msg.uint64, int64_wrap.
  rewrite Zplus_mod_idemp_l. rewrite Z.mod_small; lia.
Qed.

(** The small instance of the codec keeps the laws. *)
Lemma Z_of_byte_of_Z (z : Z) : Ref.Z_of_byte (Ref.byte_of_Z z) = z mod 256.
Proof.
  unfold Ref.Z_of_byte, Ref.byte_of_Z.
  assert (0 <= z mod 256 < 256) as Hm by (apply Z.mod_pos_bound; lia).
  destruct (Byte.of_N (Z.to_N (z `mod` 256))) as [b|] eqn:Hb.
  - apply Byte.to_of_N in Hb. cbn. rewrite Hb. lia.
  - apply Byte.of_N_None_iff in Hb. lia.
Qed.

Lemma le_bytes_length (n : nat) : ∀ z, length (RefCodec.le_bytes n z) = n.
Proof. induction n as [|n IH]; intros z; cbn; [reflexivity|now rewrite IH]. Qed.

Lemma le_value_le_bytes (n : nat) :
  ∀ z, 0 <= z < 256 ^ Z.of_nat n → RefCodec.le_value (RefCodec.le_bytes n z) = z.
Proof.
  induction n as [|n IH]; intros z Hz.
  - cbn in *. lia.
  - cbn [RefCodec.le_bytes]. unfold RefCodec.le_value in *. cbn [foldr].
    rewrite Z_of_byte_of_Z. rewrite IH.
    + pose proof (Z.div_mod z 256 ltac:(lia)). lia.
    + rewrite Nat2Z.inj_succ, Z.pow_succ_r in Hz by lia.
      split; [apply Z.div_pos; lia|apply Z.div_lt_upper_bound; lia].
Qed.

Lemma dec_le_le_bytes (n : nat) (x : Z) (rest : bytes) :
  0 <= x < 256 ^ Z.of_nat n →
  RefCodec.dec_le n (RefCodec.le_bytes n x ++ rest) = (x, rest).
Proof.
  intros Hx. unfold RefCodec.dec_le.
  rewrite take_app_length', drop_app_length' by (symmetry; apply le_bytes_length).
  now rewrite le_value_le_bytes.
Qed.

Lemma RefCodec_laws : msg.Codec_laws (H := RefCodec.codec).
Proof.
  split; cbn.
  - intros x rest Hx. now apply (dec_le_le_bytes 4).
  - intros x rest Hx. now apply (dec_le_le_bytes 8).
  - intros s rest. induction s as [|c s IH]; [now destruct rest|].
    cbn. rewrite IH, Ascii.ascii_of_byte_of_ascii.
    destruct (decide (x01 = x01)) as [_|Hne]; [reflexivity|contradiction].
  - intros [] rest; reflexivity.
  - intros [] rest; reflexivity.
Qed.

(** X25: [DecodeVersion] reads back what [EncodeVersion] wrote, when the
    decoder of the package reads back what its encoder writes: the
    message itself from version 70001 on; below, the message without
    [Relay], and below version 106 also without [LocalAddr], [Nonce],
    [Agent] and [Height], which are not sent. *)
Theorem DecodeVersion_EncodeVersion `{msg.Codec} (v : msg.VersionMessage) :
  msg.Codec_laws → msg.well_typed v →
  msg.DecodeVersion (msg.EncodeVersion v) = msg.of_its_version v ∧
  (70001 <= msg.Version v → msg.of_its_version v = v).
Proof.
  intros [H32 H64 Hstr Hbool Haddr] (Hver & Hsvc & Htime & Hnonce & Hheight).
  split.
  2: { intros Hv. unfold msg.of_its_version.
       destruct (decide (106 <= msg.Version v)) as [_|]; [|lia].
       destruct (decide (70001 <= msg.Version v)) as [_|]; [|lia]. now destruct v. }
  unfold msg.DecodeVersion, msg.EncodeVersion, msg.of_its_version.
  assert (∀ z, 0 <= msg.uint32 z < 2 ^ 32) as Hu32
    by (intros z; unfold msg.uint32; apply Z.mod_pos_bound; lia).
  assert (∀ z, 0 <= msg.uint64 z < 2 ^ 64) as Hu64
    by (intros z; unfold msg.uint64; apply Z.mod_pos_bound; lia).
  rewrite H32 by apply Hu32. rewrite H64 by exact Hsvc. rewrite H64 by apply Hu64.
  rewrite Haddr. rewrite (int32_uint32 _ Hver), (int64_uint64 _ Htime).
  destruct (decide (106 <= msg.Version v)) as [H106|H106]; [|reflexivity].
  rewrite Haddr. rewrite H64 by exact Hnonce. rewrite Hstr.
  rewrite H32 by apply Hu32. rewrite (int32_uint32 _ Hheight).
  destruct (decide (70001 <= msg.Version v)) as [H70001|H70001].
  - rewrite <- (app_nil_r (msg.enc_bool (msg.Relay v))). now rewrite Hbool.
  - reflexivity.
Qed.

(** * Counting the overlay nodes *)

Section StoreCounts.
Context `{Gossip}.

(** X26: [AddNetNode] makes [NetStats] count one node more exactly when
    it succeeds for a key that the store did not have; [UpdateNetTime]
    never changes the count, and [TrimNodes] never raises it. *)
Theorem NetStats_counts_new_keys (key : bytes) (address : Address) (time : Z)
    (owner : bytes) (chans : list N) (payload sig : bytes) (today : Z) (db : DB) :
  let added := AddNetNode key address time owner chans payload sig db in
  (NetStats added.2).1.1 =
    (NetStats db).1.1 +
    (if decide (added.1.2 = None ∧ node db !! key = None) then 1 else 0) ∧
  (NetStats (UpdateNetTime key db).2).1.1 = (NetStats db).1.1 ∧
  (NetStats (TrimNodes today db).2).1.1 <= (NetStats db).1.1 ∧
  (NetStats db).1.2 = None.
Proof.
  cbn zeta. unfold NetStats, doTxn. cbn [fst snd].
  split; [|split; [|split; [|reflexivity]]].
  - destruct (AddNetNode key address time owner chans payload sig db)
      as [[changed [e|]] db'] eqn:Hrun; cbn [fst snd].
    + unfold AddNetNode in Hrun. apply doTxn_error_unchanged in Hrun as [-> _].
      destruct (decide _) as [[Hn _]|_]; [discriminate|lia].
    + apply AddNetNode_inr in Hrun.
      destruct Hrun as [r Hrow Hpay | d db1 db2 Hrow Hd Hdb1 Hins
                       | r d db1 db2 Hrow Hpay Hd Hdb1 Hins].
      * destruct (decide _) as [[_ Hn]|_]; [congruence|lia].
      * apply insert_channels_inr in Hins as (_ & _ & (_ & _ & _ & _ & Hn) & _).
        subst db1. cbn [node set_node set_chan] in Hn. rewrite Hn.
        rewrite map_size_insert_None by exact Hrow.
        destruct (decide _) as [_|Hno]; [lia|]. destruct Hno. auto.
      * apply insert_channels_inr in Hins as (_ & _ & (_ & _ & _ & _ & Hn) & _).
        subst db1. cbn [node set_node set_chan] in Hn. rewrite Hn.
        rewrite map_size_insert_Some by eauto.
        destruct (decide _) as [[_ Hnone]|_]; [congruence|lia].
  - unfold UpdateNetTime, doTxn, tx_wrap, exec_update_node_dayc.
    destruct (node db !! key) as [r|] eqn:Hrow; [|reflexivity].
    destruct (subquery_dayc db) as [d|]; [|reflexivity]. cbn [snd node set_node].
    now rewrite map_size_insert_Some by eauto.
  - destruct (config_cases db) as [Hcfg|(dayc & last & rest & Hcfg)].
    { rewrite (TrimNodes_no_config _ _ Hcfg). cbn [snd]. lia. }
    destruct (decide (last = today)) as [->|Hne]; unfold TrimNodes, doTxn.
    { rewrite (TrimNodes_work_same_day _ _ _ _ Hcfg). cbn [snd]. lia. }
    rewrite (TrimNodes_work_advance _ _ _ _ _ Hcfg Hne). cbn [snd node].
    apply inj_le, map_subseteq_size, map_filter_subseteq.
Qed.

(** With the day counter, and services that [database/sql] converts,
    [AddCoreNode] commits its one row. *)
Lemma AddCoreNode_commits (address : Address) (time remainDays services : Z)
    (db : DB) (d : Z) :
  subquery_dayc db = Some d → services < 2 ^ 63 →
  AddCoreNode address time remainDays services db =
    (None,
     set_core
       (<[Address_ToBytes address :=
            match core db !! Address_ToBytes address with
            | Some r => {| core_time := time; core_services := services;
                           core_isnew := core_isnew r;
                           core_dayc := Z.max (core_dayc r) (sql_add remainDays d) |}
            | None => {| core_time := time; core_services := services;
                         core_isnew := true; core_dayc := sql_add remainDays d |}
            end]> (core db)) db).
Proof.
  intros Hd Hs.
  destruct (AddCoreNode address time remainDays services db) as [[e|] db'] eqn:Hrun.
  - exfalso. revert Hrun.
    unfold AddCoreNode, doTxn, AddCoreNode_work, mbind, Tx_bind, tx_bind, tx_wrap,
      exec_update_core, exec_insert_core.
    destruct (decide (2 ^ 63 <= services)) as [Hc|_]; [lia|].
    destruct (core db !! Address_ToBytes address) as [r|] eqn:Hrow;
      cbn; rewrite ?Hrow, ?Hd; cbn; repeat case_decide; try lia;
      unfold tx_ret; rewrite ?Hrow, ?Hd; discriminate.
  - apply AddCoreNode_inr in Hrun as (_ & d' & Hd' & ->).
    now assert (d' = d) as -> by congruence.
Qed.

(** X28: [UpdateCoreTime] sets the expiry of a core node to
    [MaxCoreNodeDays + dayc], three days from the day counter, whatever it
    was: after an [AddCoreNode] that succeeds (its [services] have the
    highest bit clear) with more remaining days (and [remainDays + dayc]
    an [int64]) it moves the expiry back.  It keeps services and [isnew],
    stores the time it is given, changes no other record, and for an
    address that is not stored it changes nothing and returns no error. *)
Theorem UpdateCoreTime_resets_expiry (address : Address)
    (time remainDays services now : Z) (db : DB) (d : Z) :
  subquery_dayc db = Some d →
  services < 2 ^ 63 →
  in_int64 (remainDays + d) →
  let key := Address_ToBytes address in
  let added := (AddCoreNode address time remainDays services db).2 in
  let seen := UpdateCoreTime now address added in
  seen.1 = None ∧
  (∃ r, core added !! key = Some r ∧ remainDays + d <= core_dayc r ∧
        core seen.2 !! key =
          Some {| core_time := now; core_services := services;
                  core_isnew := core_isnew r; core_dayc := MaxCoreNodeDays + d |} ∧
        (MaxCoreNodeDays < remainDays → MaxCoreNodeDays + d < core_dayc r)) ∧
  MaxCoreNodeDays = 3 ∧
  (∀ k, k ≠ key → core seen.2 !! k = core db !! k) ∧
  (∀ other, core db !! Address_ToBytes other = None →
            UpdateCoreTime now other db = (None, db)).
Proof.
  intros Hd Hs Hrange. cbn zeta. rewrite (AddCoreNode_commits _ _ _ _ _ _ Hd Hs).
  rewrite (sql_add_in_range _ _ Hrange). cbn [snd].
  unfold UpdateCoreTime, doTxn, tx_wrap, exec_update_core_time.
  cbn [core set_core]. rewrite lookup_insert_eq.
  assert (subquery_dayc (set_core
            (<[Address_ToBytes address :=
                 match core db !! Address_ToBytes address with
                 | Some r => {| core_time := time; core_services := services;
                                core_isnew := core_isnew r;
                                core_dayc := Z.max (core_dayc r) (remainDays + d) |}
                 | None => {| core_time := time; core_services := services;
                              core_isnew := true; core_dayc := remainDays + d |}
                 end]> (core db)) db) = Some d) as -> by exact Hd.
  cbn [fst snd core set_core]. split; [reflexivity|]. split.
  { eexists. split; [reflexivity|]. rewrite lookup_insert_eq.
    destruct (core db !! Address_ToBytes address) as [r|]; cbn;
      (split; [lia|split; [reflexivity|lia]]). }
  split; [reflexivity|]. split.
  - intros k Hk. now rewrite !lookup_insert_ne by congruence.
  - intros other Hnone. now rewrite Hnone.
Qed.

End StoreCounts.

(** * The list of the nodes *)

Lemma fromHexChar_toHexChar (n : N) : (n < 16)%N → fromHexChar (toHexChar n) = Some n.
Proof.
  intros Hn. unfold fromHexChar, toHexChar.
  destruct (decide (n < 10)%N) as [Hd|Hd];
    rewrite Ascii.N_ascii_embedding by lia; repeat case_decide; f_equal; lia.
Qed.

(** What [hex.EncodeToString] writes, [hex.DecodeString] reads. *)
Lemma hex_DecodeString_EncodeToString (b : bytes) :
  hex_DecodeString (hex_EncodeToString b) = inr b.
Proof.
  induction b as [|x b IH]; [reflexivity|].
  cbn [hex_EncodeToString hex_DecodeString].
  pose proof (Byte.to_N_bounded x) as Hx.
  rewrite !fromHexChar_toHexChar
    by (try apply N.mod_lt; try apply N.Div0.div_lt_upper_bound; lia).
  rewrite IH. do 2 f_equal.
  rewrite <- N.div_mod by lia. now rewrite Byte.of_to_N.
Qed.

Section NodeListProperties.
Context `{Gossip} `{Printing}.

(** X27: [NodeList] does not fail and changes nothing; it lists every
    overlay node once, as many as [NetStats] counts, under the
    hexadecimal digits of its key, which [hex.DecodeString] reads back;
    and it lists the core nodes whose stored address decodes, so as many
    as [CoreStats] counts when all decode, and fewer otherwise. *)
Theorem NodeList_lists_every_node (db : DB) :
  let r := NodeList db in
  r.1.2 = None ∧ r.2 = db ∧
  Z.of_nat (length (res_Net r.1.1)) = (NetStats db).1.1 ∧
  (∀ n, n ∈ res_Net r.1.1 ↔ ∃ k row, node db !! k = Some row ∧ n = net_entry (k, row)) ∧
  (∀ n, n ∈ res_Net r.1.1 →
     ∃ k row, node db !! k = Some row ∧ hex_DecodeString (nn_PubKey n) = inr k ∧
              nn_Time n = node_time row) ∧
  (∀ c, c ∈ res_Core r.1.1 ↔
     ∃ k row a, core db !! k = Some row ∧ AddressFromBytes k = inr a ∧
                c = {| cn_Address := Address_String a; cn_Time := core_time row;
                       cn_Services := core_services row |}) ∧
  Z.of_nat (length (res_Core r.1.1)) <= (CoreStats db).1.1.1 ∧
  ((∀ k row, core db !! k = Some row → ∃ a, AddressFromBytes k = inr a) →
   Z.of_nat (length (res_Core r.1.1)) = (CoreStats db).1.1.1) ∧
  (∀ k row e, core db !! k = Some row → AddressFromBytes k = inl e →
   Z.of_nat (length (res_Core r.1.1)) < (CoreStats db).1.1.1).
Proof.
  cbn zeta.
  assert (NodeList db =
            (({| res_Core := omap core_entry (map_to_list (core db));
                 res_Net := map net_entry (map_to_list (node db)) |}, None), db)) as ->
    by reflexivity.
  unfold NetStats, CoreStats, doTxn. cbn [fst snd res_Net res_Core].
  assert (∀ n, n ∈ map net_entry (map_to_list (node db)) ↔
               ∃ k row, node db !! k = Some row ∧ n = net_entry (k, row)) as Hnet.
  { intros n. rewrite list_elem_of_fmap. split.
    - intros ([k row] & -> & Hin). apply elem_of_map_to_list in Hin. eauto.
    - intros (k & row & Hk & ->). exists (k, row). split; [reflexivity|].
      now apply elem_of_map_to_list. }
  split; [reflexivity|]. split; [reflexivity|].
  split; [now rewrite length_map, length_map_to_list|].
  split; [exact Hnet|]. split.
  { intros n Hn. apply Hnet in Hn as (k & row & Hk & ->). exists k, row.
    split; [exact Hk|]. split; [apply hex_DecodeString_EncodeToString|reflexivity]. }
  split.
  { intros c. rewrite list_elem_of_omap. unfold core_entry. split.
    - intros ([k row] & Hin & Hc). apply elem_of_map_to_list in Hin. cbn in Hc.
      destruct (AddressFromBytes k) as [e|a] eqn:Ha; [discriminate|].
      injection Hc as <-. eauto 6.
    - intros (k & row & a & Hk & Ha & ->). exists (k, row).
      split; [now apply elem_of_map_to_list|]. cbn. now rewrite Ha. }
  rewrite <- (length_map_to_list (core db)).
  assert (∀ l : list (bytes * CoreRow),
            (length (omap core_entry l) <= length l)%nat ∧
            ((∀ kv, kv ∈ l → is_Some (core_entry kv)) →
             length (omap core_entry l) = length l) ∧
            (∀ kv, kv ∈ l → core_entry kv = None →
             (length (omap core_entry l) < length l)%nat)) as Hlen.
  { induction l as [|kv l (IH1 & IH2 & IH3)].
    { split; [cbn; lia|]. split; [reflexivity|]. intros kv Hin. inversion Hin. }
    cbn [omap list_omap]. destruct (core_entry kv) as [c|] eqn:Hc; cbn [length].
    - split; [lia|]. split.
      + intros Hall. rewrite IH2; [reflexivity|].
        intros kv' Hin. apply Hall, elem_of_cons. now right.
      + intros kv' Hin Hnone. apply elem_of_cons in Hin as [->|Hin]; [congruence|].
        specialize (IH3 kv' Hin Hnone). lia.
    - split; [lia|]. split; [|intros; lia]. intros Hall.
      destruct (Hall kv) as [c Hc']; [apply elem_of_cons; now left|congruence]. }
  destruct (Hlen (map_to_list (core db))) as (Hle & Heq & Hlt). split; [lia|]. split.
  - intros Hall. rewrite Heq; [reflexivity|].
    intros [k row] Hin. apply elem_of_map_to_list in Hin.
    destruct (Hall k row Hin) as [a Ha]. unfold core_entry. cbn. rewrite Ha. eauto.
  - intros k row e Hk He.
    specialize (Hlt (k, row) ltac:(now apply elem_of_map_to_list)).
    unfold core_entry in Hlt at 1. cbn in Hlt. rewrite He in Hlt.
    specialize (Hlt eq_refl). lia.
Qed.

End NodeListProperties.

(** * The theorems on the examples *)

(** The tags [0001] and [   1] (three spaces) are different, and [chan]
    stores both as the number 1: the announcement is refused.  So is one
    whose owner is nil. *)
Lemma AddNetNode_fails_iff_witness :
  subquery_dayc db_rollover = Some 5 ∧
  NoDup [0x30303031%N; 0x20202031%N] ∧
  chan_value (H := Ref.RefGossip) <$> [0x30303031%N; 0x20202031%N]
    = [SqlInteger 1; SqlInteger 1] ∧
  AddNetNode (H := Ref.RefGossip) example_key example_addr 7 (slice_of [])
      [0x30303031%N; 0x20202031%N] [x0b] (slice_of []) db_rollover
    = ((false, Some (Errorf "insert channel: %v" ErrConstraint)), db_rollover) ∧
  AddNetNode (H := Ref.RefGossip) example_key example_addr 7 nil_slice
      [] [x0b] (slice_of []) db_rollover
    = ((false, Some (Errorf "update: %v" ErrConstraint)), db_rollover).
Proof.
  assert (chan_value (H := Ref.RefGossip) <$> [0x30303031%N; 0x20202031%N]
            = [SqlInteger 1; SqlInteger 1]) as Hvalues by (vm_compute; reflexivity).
  assert (¬ ∃ r, node_row example_key db_rollover = Some r
                 ∧ node_payload r = slice_bytes [x0b]) as Hnew.
  { intros (r & Hr & Hp).
    assert (node db_rollover !! example_key = Some (example_node_row 5)) as Hrow
      by (vm_compute; reflexivity).
    cbn [node_row] in Hr. rewrite Hrow in Hr. injection Hr as <-. discriminate Hp. }
  split; [reflexivity|]. split.
  { apply NoDup_cons. split; [|apply NoDup_singleton].
    intros Hin. apply list_elem_of_singleton in Hin. discriminate Hin. }
  split; [exact Hvalues|]. split.
  - destruct (AddNetNode_fails_iff (H := Ref.RefGossip) example_key example_addr 7
                (slice_of []) [0x30303031%N; 0x20202031%N] [x0b] (slice_of [])
                db_rollover 5 eq_refl) as [Hiff Hres].
    apply Hres, Hiff. split; [exact Hnew|]. right. rewrite Hvalues.
    intros Hnd. apply NoDup_cons in Hnd as [Hnin _]. apply Hnin.
    apply elem_of_cons. now left.
  - destruct (AddNetNode_fails_iff (H := Ref.RefGossip) example_key example_addr 7
                nil_slice [] [x0b] (slice_of []) db_rollover 5 eq_refl) as [Hiff Hres].
    etransitivity; [apply Hres, Hiff; split; [exact Hnew|now left]|].
    vm_compute. reflexivity.
Defined.

(** The example core node is seen again with three remaining days; with
    services whose highest bit is set the call is refused. *)
Lemma AddCoreNode_upsert_witness :
  subquery_dayc db_rollover = Some 5 ∧
  (∃ db', AddCoreNode (H := Ref.RefGossip) example_addr 9 3 1 db_rollover = (None, db') ∧
          ∃ r, core db' !! Ref.ToBytes example_addr = Some r ∧ core_dayc r = 8) ∧
  AddCoreNode (H := Ref.RefGossip) example_addr 9 3 (2 ^ 63) db_rollover
    = (Some (Errorf "update: %v" (uint64_refused "2")), db_rollover).
Proof.
  split; [reflexivity|]. split.
  - destruct (AddCoreNode_upsert (H := Ref.RefGossip) example_addr 9 3 1 db_rollover 5
                eq_refl) as [_ Hok].
    destruct (Hok ltac:(lia)) as (db' & Hrun & Hrow & Hsum & _).
    exists db'. split; [exact Hrun|]. eexists. split; [exact Hrow|].
    cbn [core_dayc].
    rewrite Hsum by (unfold in_int64, int64_min, int64_max; lia).
    vm_compute. reflexivity.
  - destruct (AddCoreNode_upsert (H := Ref.RefGossip) example_addr 9 3 (2 ^ 63)
                db_rollover 5 eq_refl) as [Hfail _].
    apply Hfail. lia.
Defined.

(** The second announcement replaces the first; one without a signature
    is refused. *)
Lemma SetAnnounce_last_write_wins_witness :
  (length (announce db_rollover) <= 1)%nat ∧
  (∃ db1 db2,
    SetAnnounce [x01] [x02] 10 db_rollover = (None, db1) ∧
    SetAnnounce [x03] [x04] 20 db1 = (None, db2) ∧
    GetAnnounce db2 = (([x03], [x04], 20, None), db2)) ∧
  SetAnnounce [x01] nil_slice 10 db_rollover = (Some ErrConstraint, db_rollover).
Proof.
  assert (length (announce db_rollover) <= 1)%nat as Hlen by (cbn; lia).
  split; [exact Hlen|].
  destruct (SetAnnounce_last_write_wins [x01] [x02] [x03] [x04] 10 20 db_rollover
              (slice_of [x01]) nil_slice 10 Hlen)
    as ((db1 & db2 & H1 & _ & H2 & Hget & _) & _ & Hnil).
  split; [exists db1, db2; auto|]. apply Hnil. reflexivity.
Defined.

Lemma AddChannel_GetChannels_witness :
  subquery_dayc db_rollover = Some 5 ∧
  ∃ db', AddChannel 0x43686174%N db_rollover = (None, db') ∧
         channels db' !! 0x43686174%N = Some 12 ∧
         0x43686174%N ∈ (GetChannels db').1.1.
Proof.
  split; [reflexivity|].
  destruct (AddChannel_GetChannels 0x43686174%N db_rollover 5 eq_refl)
    as (db' & Hrun & Hrow & Hin & _).
  exists db'. auto.
Defined.

Lemma ChooseCoreNode_returns_stored_witness :
  core db_rollover ≠ ∅ ∧
  ∃ res, ChooseCoreNode (H := Ref.RefGossip) 0 0 db_rollover = ((res, None), db_rollover).
Proof.
  assert (core db_rollover !! Ref.ToBytes example_addr = Some (example_core_row 5)) as Hrow
    by (vm_compute; reflexivity).
  assert (core db_rollover ≠ ∅) as Hne
    by (intros Hempty; rewrite Hempty in Hrow; discriminate Hrow).
  split; [exact Hne|].
  destruct (ChooseCoreNode_returns_stored (H := Ref.RefGossip) 0 0 db_rollover Hne)
    as (k & r & res & Hrun & _).
  - intros k r Hk. unfold db_rollover in Hk. cbn [core] in Hk.
    apply lookup_singleton_Some in Hk as [<- _].
    exists example_addr. vm_compute. reflexivity.
  - exists res. exact Hrun.
Defined.

Lemma UpdateNetTime_refreshes_witness :
  1 + Z.of_nat (length example_calls) <= int64_max ∧
  ∃ db' d,
    UpdateNetTime example_key (store_run (H := Ref.RefGossip) 1000 example_calls)
      = (None, db') ∧
    subquery_dayc (store_run (H := Ref.RefGossip) 1000 example_calls) = Some d.
Proof.
  assert (1 + Z.of_nat (length example_calls) <= int64_max) as Hlen
    by (unfold int64_max; cbn; lia).
  split; [exact Hlen|].
  destruct (UpdateNetTime_refreshes (H := Ref.RefGossip) 1000 example_calls example_key
              Hlen) as (db' & d & Hrun & Hd & _).
  exists db', d. auto.
Defined.

Lemma StoreTrimmer_Run_counts_day_changes_witness :
  config db_rollover = [{| cfg_dayc := 5; cfg_last := 1000 |}] ∧
  config (StoreTrimmer_Run example_ticks db_rollover).2
    = [{| cfg_dayc := 6; cfg_last := 1001 |}] ∧
  length (List.filter is_LogAdvanced (StoreTrimmer_Run example_ticks db_rollover).1)
    = 1%nat.
Proof.
  split; [reflexivity|].
  destruct (StoreTrimmer_Run_counts_day_changes example_ticks db_rollover 5 1000 eq_refl)
    as (Hcfg & Hlog & _).
  - unfold int64_min. lia.
  - unfold int64_max. cbn. lia.
  - split; [exact Hcfg|exact Hlog].
Defined.

Lemma StoreTrimmer_Run_survivors_witness :
  config db_rollover = [{| cfg_dayc := 5; cfg_last := 1000 |}] ∧
  subquery_dayc (StoreTrimmer_Run example_ticks db_rollover).2 = Some 6 ∧
  ∀ k r, node (StoreTrimmer_Run example_ticks db_rollover).2 !! k = Some r ↔
         node db_rollover !! k = Some r ∧ 6 <= node_dayc r.
Proof.
  split; [reflexivity|].
  assert (subquery_dayc (StoreTrimmer_Run example_ticks db_rollover).2 = Some 6) as Hd
    by (vm_compute; reflexivity).
  split; [exact Hd|].
  destruct (StoreTrimmer_Run_survivors example_ticks db_rollover 5 1000 eq_refl)
    as (_ & _ & _ & Hrows).
  - unfold int64_min. lia.
  - unfold int64_max. cbn. lia.
  - destruct (Hrows 6 Hd ltac:(lia)) as (_ & Hnode & _). exact Hnode.
Defined.

(** An engine that is busy in [Begin] 120 times makes [doTxn] return
    the conflict after 120 sleeps; one that is busy once in the work makes
    it wait for ever after one sleep. *)
Lemma doTxn_retry_gives_up_witness :
  (120 <= length example_busy)%nat ∧
  (120 <= length example_busy_work)%nat ∧
  doTxn_retry "TrimNodes" example_busy
    = Some (TxnReturns (ReturnDbErr (Sqlite3Error ErrBusy)
                          "cannot begin transaction: TrimNodes"), 120%nat) ∧
  doTxn_retry "TrimNodes" example_busy_work = Some (TxnBlocks, 1%nat).
Proof.
  assert (120 <= length example_busy)%nat as Hlen
    by (unfold example_busy; rewrite repeat_length; lia).
  assert (120 <= length example_busy_work)%nat as Hlen'
    by (unfold example_busy_work; cbn [length]; rewrite repeat_length; lia).
  split; [exact Hlen|]. split; [exact Hlen'|]. split.
  - destruct (doTxn_retry_gives_up "TrimNodes" example_busy Hlen)
      as (r & sleeps & retried & a & rest & Hrun & Hans & Hall & Hlt & Hr & Hno & Hyes).
    assert (a = BeginError (Sqlite3Error ErrBusy)) as ->.
    { assert (a ∈ example_busy) as Hin
        by (rewrite Hans; apply elem_of_app; right; apply elem_of_cons; now left).
      apply list_elem_of_In, repeat_spec in Hin. exact Hin. }
    destruct (Hyes eq_refl) as [-> Hcase].
    destruct (decide (length retried = 119%nat)) as [He|He].
    + rewrite He, Hcase in Hrun. exact Hrun.
    + destruct Hcase as [[err Herr] _]. discriminate Herr.
  - destruct (doTxn_retry_gives_up "TrimNodes" example_busy_work Hlen')
      as (r & sleeps & retried & a & rest & Hrun & Hans & Hall & Hlt & Hr & Hno & Hyes).
    destruct retried as [|c retried].
    + injection Hans as <- _. destruct (Hyes eq_refl) as [-> Hcase].
      cbn [length] in Hcase.
      destruct (decide (0 = 119)%nat) as [He|_]; [discriminate He|].
      destruct Hcase as [_ ->]. exact Hrun.
    + injection Hans as <- _. apply Forall_inv in Hall. discriminate Hall.
Defined.

Lemma closeHandler_undoes_trackHandler_witness :
  stopping example_ns = false ∧
  handlers (closeHandler 1%nat example_handler
              (trackHandler 3%nat 1%nat example_ns).2) ≡ₚ handlers example_ns.
Proof.
  split; [reflexivity|].
  destruct (closeHandler_undoes_trackHandler 1%nat example_handler example_ns eq_refl)
    as (_ & _ & Hh & _).
  exact Hh.
Defined.

Lemma closePeer_undoes_trackPeer_witness :
  stopping example_ns = false ∧
  (trackPeer 3%nat 1%nat example_key example_ns).1 = true ∧
  connectedPeers (closePeer 1%nat example_peer
                    (trackPeer 3%nat 1%nat example_key example_ns).2)
    = connectedPeers example_ns.
Proof.
  split; [reflexivity|].
  assert ((trackPeer 3%nat 1%nat example_key example_ns).1 = true) as Hok
    by (vm_compute; reflexivity).
  split; [exact Hok|].
  destruct (closePeer_undoes_trackPeer 1%nat example_peer example_ns eq_refl)
    as [Hyes _].
  destruct (Hyes Hok) as [_ Hmap]. apply Hmap. vm_compute. discriminate.
Defined.

Lemma lockPeer_holds_300_seconds_witness :
  (lockPeer 0 example_key example_ns).1 = true ∧
  (lockPeer (299 * Second) example_key (lockPeer 0 example_key example_ns).2).1 = false ∧
  (lockPeer (300 * Second) example_key (lockPeer 0 example_key example_ns).2).1 = true.
Proof.
  assert ((lockPeer 0 example_key example_ns).1 = true) as Hok by reflexivity.
  split; [exact Hok|].
  destruct (lockPeer_holds_300_seconds 0 example_key example_ns Hok)
    as (_ & Hheld & Hfree & _).
  split.
  - rewrite Hheld; [reflexivity|]. unfold PeerLockTime, Second. lia.
  - apply Hfree. unfold PeerLockTime, Second. lia.
Defined.

Lemma loadOrGenerateAnnounce_after_generateAnnounce_witness :
  let made :=
    generateAnnounce (H := Ref.RefGossip) example_ns (nextAnnounce example_ns)
      1386325640 db_rollover in
  an_signed (loadOrGenerateAnnounce (H := Ref.RefGossip) example_ns 1386325700
               1386325700 (an_db made)) = [] ∧
  an_db (loadOrGenerateAnnounce (H := Ref.RefGossip) example_ns 1386325700
           1386325700 (an_db made)) = an_db made.
Proof.
  cbn zeta.
  destruct (loadOrGenerateAnnounce_after_generateAnnounce (H := Ref.RefGossip)
              example_ns 1386325640 1386325700 1386325700 db_rollover) as [Hrun _].
  - vm_compute. lia.
  - vm_compute. reflexivity.
  - vm_compute. reflexivity.
  - lia.
  - rewrite Hrun. split; reflexivity.
Defined.

Lemma DecodeVersion_EncodeVersion_witness :
  msg.well_typed (H := RefCodec.codec) RefCodec.old_version ∧ msg.well_typed (H := RefCodec.codec) RefCodec.new_version ∧
  msg.Nonce (msg.DecodeVersion (H := RefCodec.codec) (msg.EncodeVersion RefCodec.old_version)) = 0 ∧
  msg.DecodeVersion (H := RefCodec.codec) (msg.EncodeVersion RefCodec.new_version)
    = RefCodec.new_version.
Proof.
  assert (msg.well_typed (H := RefCodec.codec) RefCodec.old_version) as Hold
    by (unfold msg.well_typed; cbn; lia).
  assert (msg.well_typed (H := RefCodec.codec) RefCodec.new_version) as Hnew
    by (unfold msg.well_typed; cbn; lia).
  split; [exact Hold|]. split; [exact Hnew|].
  destruct (DecodeVersion_EncodeVersion (H := RefCodec.codec) RefCodec.old_version RefCodec_laws Hold)
    as [Hdec _].
  destruct (DecodeVersion_EncodeVersion (H := RefCodec.codec) RefCodec.new_version RefCodec_laws Hnew)
    as [Hdec' Hsame].
  split; [rewrite Hdec; reflexivity|].
  rewrite Hdec'. apply Hsame. cbn. lia.
Defined.

(** The example core node, seen with 30 remaining days, expires at 35;
    [UpdateCoreTime] then moves its expiry back to 8. *)
Lemma UpdateCoreTime_resets_expiry_witness :
  subquery_dayc db_rollover = Some 5 ∧ 1 < 2 ^ 63 ∧ in_int64 (30 + 5) ∧
  ∃ r r',
    core (AddCoreNode (H := Ref.RefGossip) example_addr 9 30 1 db_rollover).2
      !! Ref.ToBytes example_addr = Some r ∧
    core (UpdateCoreTime (H := Ref.RefGossip) 10 example_addr
            (AddCoreNode (H := Ref.RefGossip) example_addr 9 30 1 db_rollover).2).2
      !! Ref.ToBytes example_addr = Some r' ∧
    core_dayc r' = 8 ∧ 8 < core_dayc r.
Proof.
  assert (in_int64 (30 + 5)) as Hrange
    by (unfold in_int64, int64_min, int64_max; lia).
  split; [reflexivity|]. split; [lia|]. split; [exact Hrange|].
  destruct (UpdateCoreTime_resets_expiry (H := Ref.RefGossip) example_addr 9 30 1 10
              db_rollover 5 eq_refl ltac:(lia) Hrange)
    as (_ & (r & Hr & _ & Hr' & Hback) & _).
  exists r. eexists. split; [exact Hr|]. split; [exact Hr'|].
  split; [reflexivity|]. apply Hback. unfold MaxCoreNodeDays. lia.
Defined.
